(** * The GD reactor ([system/gd/os/linux_generic/reactor.cc])

    A shallow embedding of the epoll-based reactor: the wakeable [Event],
    the [Reactable] records, the control eventfd, the dispatch loop [Run],
    the coordination calls ([Register], [Unregister],
    [ModifyRegistration], [Stop], [WaitForIdle],
    [WaitForUnregisteredReactable]), [NewEvent] and the destructors.

    Threads are modelled by an interleaving semantics.  Every function of
    the source is cut into the regions that execute under one mutex (or
    consist of one system call); a region is one atomic step of the thread
    that executes it, and a schedule picks which thread steps next, and when
    a descriptor is opened or closed outside the reactor.  The numbers in
    the comments are line numbers of reactor.cc.

    Conventions:
    - a mutex has no state of its own: what runs between its lock and its
      unlock is one step;
    - a [ptr] names an allocation: [new] gives every reactable a name of its
      own, so that an access to a destroyed reactable always shows, as a
      [Crash].  Where operator new places a reactable, and that it may use
      the address of a destroyed one again, is not modelled;
    - a failed ASSERT and undefined behaviour (a destroyed reactable, a null
      smart pointer, an indeterminate value) end the execution in a [Crash];
    - a system call fails only where the modelled kernel state says so:
      epoll_ctl with EBADF, EPERM, EINVAL, EEXIST and ENOENT, close with
      EBADF, eventfd_read and eventfd_write with EAGAIN and EINVAL.
      Running out of memory or of watches is not modelled, and epoll_wait
      does not fail, the epoll descriptor being a private member that only
      the destructor closes;
    - a timed wait is one step, taken when the wait is over; time itself is
      not part of the state;
    - the members of [Reactor] and [enum ReactOn] are declared in
      os/reactor.h, and ASSERT, ASSERT_LOG and RUN_NO_INTR in os/log.h and
      os/utils.h; these headers are not among the source files, and the
      declarations are read off their uses in reactor.cc. *)

From stdpp Require Import gmap list.
From Stdlib Require Import ZArith NArith Lia.

(** ** Kernel objects *)

(** *** eventfd(2)

    A 64-bit counter.  Both eventfds of the source are opened with
    EFD_NONBLOCK, so a read of a zero counter and a write that would
    overflow fail (EAGAIN) instead of blocking. *)

Record eventfd_ctx := mk_eventfd {
  count : N;          (* the kernel counter, at most ULLONG_MAX - 1 *)
  semaphore : bool    (* EFD_SEMAPHORE *)
}.

Definition ULLONG_MAX : N := 18446744073709551615.

Definition eventfd (initval : N) (efd_semaphore : bool) : eventfd_ctx :=
  mk_eventfd initval efd_semaphore.

(** [eventfd_read]: [None] is the failure (-1, EAGAIN); on success the value
    read is 1 in semaphore mode (and the counter is decremented), the whole
    counter otherwise (and the counter is reset). *)
Definition eventfd_read (e : eventfd_ctx) : option N * eventfd_ctx :=
  if (count e =? 0)%N then (None, e)
  else if semaphore e
       then (Some 1%N, mk_eventfd (count e - 1) (semaphore e))
       else (Some (count e), mk_eventfd 0 (semaphore e)).

(** [eventfd_write]: adds [val] to the counter; [None] is the failure (-1):
    EINVAL for the value 2^64-1, EAGAIN when the counter would exceed
    2^64-2. *)
Definition eventfd_write (e : eventfd_ctx) (val : N) : option eventfd_ctx :=
  if (val =? ULLONG_MAX)%N then None
  else if (val <? ULLONG_MAX - count e)%N
       then Some (mk_eventfd (count e + val) (semaphore e))
       else None.

(** *** epoll(7) *)

Definition EPOLLIN : N := 1.
Definition EPOLLOUT : N := 4.
Definition EPOLLERR : N := 8.
Definition EPOLLHUP : N := 16.
Definition EPOLLRDHUP : N := 8192.

(** The name of a heap-allocated [Reactable], which stands for its address
    as long as the reactable is alive; [nullptr] is [None] in an
    [option ptr]. *)
Definition ptr := positive.

Record epoll_event := mk_epoll_event {
  events : N;               (* uint32_t events *)
  data_ptr : option ptr     (* data.ptr *)
}.

Inductive epoll_op := EPOLL_CTL_ADD | EPOLL_CTL_DEL | EPOLL_CTL_MOD.
Inductive errno := EEXIST | ENOENT | EBADF | EINVAL | EPERM.

(** The descriptor table of the process is a map from the descriptors that
    are open to whether their file can be polled (a socket, a pipe, an
    eventfd, an epoll instance: yes; a regular file or a directory: no).  A
    descriptor is taken to be the only reference to its file (no dup, no
    fork), so that closing it takes it off the interest list.

    [epoll_ctl] on the interest list of the epoll instance [epfd] ([inl e]:
    the call returns -1 with errno [e]).  The kernel looks at the descriptor
    first (EBADF when it is not open, EPERM when its file cannot be polled,
    EINVAL when it is [epfd] itself) and at the interest list next (EEXIST,
    ENOENT).  A descriptor that is on the list has passed the first three
    tests when it was added and has not been closed since, so here the list
    is looked up first; [opened] below is the invariant that makes the two
    orders agree. *)
Definition epoll_ctl (epfd : Z) (op : epoll_op) (fd : Z) (ev : epoll_event)
    (files : gmap Z bool) (interest : gmap Z epoll_event)
    : errno + gmap Z epoll_event :=
  if (fd <? 0)%Z then inl EBADF
  else match interest !! fd with
       | Some _ =>
           match op with
           | EPOLL_CTL_ADD => inl EEXIST
           | EPOLL_CTL_DEL => inr (delete fd interest)
           | EPOLL_CTL_MOD => inr (<[fd := ev]> interest)
           end
       | None =>
           match files !! fd with
           | None => inl EBADF
           | Some false => inl EPERM
           | Some true =>
               if decide (fd = epfd) then inl EINVAL
               else match op with
                    | EPOLL_CTL_ADD => inr (<[fd := ev]> interest)
                    | EPOLL_CTL_DEL | EPOLL_CTL_MOD => inl ENOENT
                    end
           end
       end.

(** The same call with the tests in the order of the kernel. *)
Definition epoll_ctl_in_order (epfd : Z) (op : epoll_op) (fd : Z)
    (ev : epoll_event) (files : gmap Z bool) (interest : gmap Z epoll_event)
    : errno + gmap Z epoll_event :=
  if (fd <? 0)%Z then inl EBADF
  else match files !! fd with
       | None => inl EBADF
       | Some false => inl EPERM
       | Some true =>
           if decide (fd = epfd) then inl EINVAL
           else match op, interest !! fd with
                | EPOLL_CTL_ADD, Some _ => inl EEXIST
                | EPOLL_CTL_ADD, None => inr (<[fd := ev]> interest)
                | EPOLL_CTL_DEL, Some _ => inr (delete fd interest)
                | EPOLL_CTL_DEL, None => inl ENOENT
                | EPOLL_CTL_MOD, Some _ => inr (<[fd := ev]> interest)
                | EPOLL_CTL_MOD, None => inl ENOENT
                end
       end.

(** ** Reactor::Event (lines 45-84) *)

Module Event.

(** [pimpl_]: the descriptor and the kernel counter behind it. *)
Record impl := mk_impl {
  fd_ : Z;
  ctx : eventfd_ctx
}.

(** 46-49: eventfd(0, EFD_SEMAPHORE | EFD_NONBLOCK); [fd] is the
    descriptor the kernel hands out, -1 is the failure. *)
Definition Event (fd : Z) : option impl :=
  if (fd =? -1)%Z then None else Some (mk_impl fd (eventfd 0 true)).

(** 63-66 *)
Definition Read (e : impl) : bool * impl :=
  match eventfd_read (ctx e) with
  | (Some _, c) => (true, mk_impl (fd_ e) c)
  | (None, c) => (false, mk_impl (fd_ e) c)
  end.

(** 67-69 *)
Definition Id (e : impl) : Z := fd_ e.

(** 70-74: the loop, with an iteration bound; [None] is "bound reached". *)
Fixpoint Clear_loop (fuel : nat) (e : impl) : option impl :=
  match fuel with
  | O => None
  | S fuel' =>
      match eventfd_read (ctx e) with
      | (Some _, c) => Clear_loop fuel' (mk_impl (fd_ e) c)
      | (None, c) => Some (mk_impl (fd_ e) c)
      end
  end.

(** One more iteration than the counter is always enough. *)
Definition Clear (e : impl) : option impl :=
  Clear_loop (S (N.to_nat (count (ctx e)))) e.

(** 80-84: [None] is the failed ASSERT. *)
Definition Notify (e : impl) : option impl :=
  match eventfd_write (ctx e) 1 with
  | Some c => Some (mk_impl (fd_ e) c)
  | None => None
  end.

(** [n] calls of [Notify] in a row. *)
Fixpoint Notify_n (n : nat) (e : impl) : option impl :=
  match n with
  | O => Some e
  | S n' => match Notify e with
            | Some e' => Notify_n n' e'
            | None => None
            end
  end.

(** [n] calls of [Read] in a row: the results, oldest first. *)
Fixpoint Read_n (n : nat) (e : impl) : list bool * impl :=
  match n with
  | O => ([], e)
  | S n' => let '(b, e') := Read e in
            let '(bs, e'') := Read_n n' e' in
            (b :: bs, e'')
  end.

End Event.

(** ** Reactor: data (lines 32-39, 86-101 and os/reactor.h) *)

Definition kEpollMaxEvents : nat := 64.
Definition kStopReactor : N := 1.     (* 1 << 0 *)
Definition kWaitForIdle : N := 2.     (* 1 << 1 *)

(** Modelled from the spec: [enum ReactOn] is declared in os/reactor.h, which
    is not among the source files; section 4.5 of the specification lists
    its three values, and lines 298 and 301 name them. *)
Inductive ReactOn :=
  REACT_ON_READ_ONLY | REACT_ON_WRITE_ONLY | REACT_ON_READ_WRITE.

(** A [std::promise<void>] is a cell of the store [promises] below: [false]
    once created, [true] once [set_value] ran.  A future is the name of the
    cell it observes. *)
Definition promise_id := positive.

(** The calls of the public interface.  A [Closure] is either null or the
    calls its body makes on the reactor, in order; it runs on the thread
    that invokes it. *)
#[warnings="-register-all"]
Inductive Call :=
| CRegister (fd : Z) (on_read_ready on_write_ready : option (list Call))
| CUnregister (reactable : option ptr)
| CModifyRegistration (reactable : option ptr) (react_on : ReactOn)
| CStop
| CRun
| CWaitForUnregisteredReactable (timeout : Z)
| CWaitForIdle (timeout : Z).

Definition Closure := option (list Call).

Definition is_null (c : Closure) : bool :=
  match c with None => true | Some _ => false end.

(** 86-101; [mutex_] has no field: a region that holds it is one step. *)
Record Reactable := mkReactable {
  fd_ : Z;
  on_read_ready_ : Closure;
  on_write_ready_ : Closure;
  is_executing_ : bool;
  removed_ : bool;
  finished_promise_ : option promise_id
}.

(** The locals of [Run]: [batch] is events[i .. count). *)
Record locals := mkLocals {
  timeout_ms : Z;
  waiting_for_idle : bool;
  batch : list epoll_event
}.

(** Program points: a function entry, or the start of a later region of a
    function, with the locals that are live there. *)
Inductive Instr :=
| ICall (c : Call)
| IUnregister_locked (r : ptr)                      (* 241-260 *)
| IUnregister_delete (r : ptr)                      (* 261-264 *)
| IWaitForIdle_write (p : promise_id) (timeout : Z) (* 287-288 *)
| IWaitForIdle_wait (p : promise_id) (timeout : Z)  (* 290-291 *)
| IRun_top (timeout_ms : Z) (waiting_for_idle : bool)   (* 135-138 *)
| IRun_wait (timeout_ms : Z) (waiting_for_idle : bool)  (* 139-150 *)
| IRun_event (l : locals)                               (* 152-184 *)
| IRun_read (l : locals) (event : epoll_event) (r : ptr)   (* 185-187 *)
| IRun_write (l : locals) (event : epoll_event) (r : ptr)  (* 188-190 *)
| IRun_finish (l : locals) (r : ptr).                      (* 191-199 *)

(** What an execution leaves behind, newest first. *)
Inductive Direction := OnRead | OnWrite.

Inductive LogMsg :=
| UnknownControlValue (value : N)     (* 168, log::error *)
| NotRunning                          (* 206, log::warn *)
| InvalidOrUnregistered               (* 247, log::info *)
| UnregisterTimedOut.                 (* 274, log::error *)

Inductive RetVal := RVoid | RBool (b : bool) | RPtr (p : ptr).

Inductive Obs :=
| Invoked (r : ptr) (d : Direction)     (* Closure::Run of r's callback *)
| Logged (m : LogMsg)
| Fulfilled (p : promise_id)            (* promise::set_value *)
| Destroyed (r : ptr)                   (* delete reactable *)
| Returned (c : Call) (v : RetVal).

Record State := mkState {
  (* kernel *)
  interest : gmap Z epoll_event;
  control : eventfd_ctx;
  open_files : gmap Z bool;     (* the descriptor table of the process *)
  (* members of Reactor *)
  epoll_fd_ : Z;
  control_fd_ : Z;
  is_running_ : bool;
  invalidation_list_ : list ptr;
  idle_promise_ : option promise_id;
  executing_reactable_finished_ : option promise_id;
  (* free store: live reactables and promises, each under the name of its
     allocation *)
  heap : gmap ptr Reactable;
  next_ptr : ptr;
  promises : gmap promise_id bool;
  next_promise : promise_id;
  (* the threads: what each still has to execute *)
  threads : list (list Instr);
  trace : list Obs;
  (* the handles that were passed to Unregister *)
  unregistered : gset ptr
}.

Definition set_interest (v : gmap Z epoll_event) (s : State) : State :=
  mkState v (control s) (open_files s) (epoll_fd_ s) (control_fd_ s)
    (is_running_ s) (invalidation_list_ s) (idle_promise_ s)
    (executing_reactable_finished_ s) (heap s) (next_ptr s) (promises s)
    (next_promise s) (threads s) (trace s) (unregistered s).
Definition set_control (v : eventfd_ctx) (s : State) : State :=
  mkState (interest s) v (open_files s) (epoll_fd_ s) (control_fd_ s)
    (is_running_ s) (invalidation_list_ s) (idle_promise_ s)
    (executing_reactable_finished_ s) (heap s) (next_ptr s) (promises s)
    (next_promise s) (threads s) (trace s) (unregistered s).
Definition set_open_files (v : gmap Z bool) (s : State) : State :=
  mkState (interest s) (control s) v (epoll_fd_ s) (control_fd_ s)
    (is_running_ s) (invalidation_list_ s) (idle_promise_ s)
    (executing_reactable_finished_ s) (heap s) (next_ptr s) (promises s)
    (next_promise s) (threads s) (trace s) (unregistered s).
Definition set_is_running_ (v : bool) (s : State) : State :=
  mkState (interest s) (control s) (open_files s) (epoll_fd_ s)
    (control_fd_ s) v (invalidation_list_ s) (idle_promise_ s)
    (executing_reactable_finished_ s) (heap s) (next_ptr s) (promises s)
    (next_promise s) (threads s) (trace s) (unregistered s).
Definition set_invalidation_list_ (v : list ptr) (s : State) : State :=
  mkState (interest s) (control s) (open_files s) (epoll_fd_ s)
    (control_fd_ s) (is_running_ s) v (idle_promise_ s)
    (executing_reactable_finished_ s) (heap s) (next_ptr s) (promises s)
    (next_promise s) (threads s) (trace s) (unregistered s).
Definition set_idle_promise_ (v : option promise_id) (s : State) : State :=
  mkState (interest s) (control s) (open_files s) (epoll_fd_ s)
    (control_fd_ s) (is_running_ s) (invalidation_list_ s) v
    (executing_reactable_finished_ s) (heap s) (next_ptr s) (promises s)
    (next_promise s) (threads s) (trace s) (unregistered s).
Definition set_executing_reactable_finished_ (v : option promise_id)
    (s : State) : State :=
  mkState (interest s) (control s) (open_files s) (epoll_fd_ s)
    (control_fd_ s) (is_running_ s) (invalidation_list_ s) (idle_promise_ s) v
    (heap s) (next_ptr s) (promises s) (next_promise s) (threads s) (trace s)
    (unregistered s).
Definition set_heap (v : gmap ptr Reactable) (s : State) : State :=
  mkState (interest s) (control s) (open_files s) (epoll_fd_ s)
    (control_fd_ s) (is_running_ s) (invalidation_list_ s) (idle_promise_ s)
    (executing_reactable_finished_ s) v (next_ptr s) (promises s)
    (next_promise s) (threads s) (trace s) (unregistered s).
Definition set_next_ptr (v : ptr) (s : State) : State :=
  mkState (interest s) (control s) (open_files s) (epoll_fd_ s)
    (control_fd_ s) (is_running_ s) (invalidation_list_ s) (idle_promise_ s)
    (executing_reactable_finished_ s) (heap s) v (promises s) (next_promise s)
    (threads s) (trace s) (unregistered s).
Definition set_promises (v : gmap promise_id bool) (s : State) : State :=
  mkState (interest s) (control s) (open_files s) (epoll_fd_ s)
    (control_fd_ s) (is_running_ s) (invalidation_list_ s) (idle_promise_ s)
    (executing_reactable_finished_ s) (heap s) (next_ptr s) v (next_promise s)
    (threads s) (trace s) (unregistered s).
Definition set_next_promise (v : promise_id) (s : State) : State :=
  mkState (interest s) (control s) (open_files s) (epoll_fd_ s)
    (control_fd_ s) (is_running_ s) (invalidation_list_ s) (idle_promise_ s)
    (executing_reactable_finished_ s) (heap s) (next_ptr s) (promises s) v
    (threads s) (trace s) (unregistered s).
Definition set_threads (v : list (list Instr)) (s : State) : State :=
  mkState (interest s) (control s) (open_files s) (epoll_fd_ s)
    (control_fd_ s) (is_running_ s) (invalidation_list_ s) (idle_promise_ s)
    (executing_reactable_finished_ s) (heap s) (next_ptr s) (promises s)
    (next_promise s) v (trace s) (unregistered s).
Definition set_trace (v : list Obs) (s : State) : State :=
  mkState (interest s) (control s) (open_files s) (epoll_fd_ s)
    (control_fd_ s) (is_running_ s) (invalidation_list_ s) (idle_promise_ s)
    (executing_reactable_finished_ s) (heap s) (next_ptr s) (promises s)
    (next_promise s) (threads s) v (unregistered s).
Definition set_unregistered (v : gset ptr) (s : State) : State :=
  mkState (interest s) (control s) (open_files s) (epoll_fd_ s)
    (control_fd_ s) (is_running_ s) (invalidation_list_ s) (idle_promise_ s)
    (executing_reactable_finished_ s) (heap s) (next_ptr s) (promises s)
    (next_promise s) (threads s) (trace s) v.

(** ** Outcomes and the monad of a region *)

Inductive Fault :=
| AssertFailed (line : nat)       (* ASSERT / ASSERT_LOG: abort *)
| UseAfterFree (r : ptr)          (* a destroyed Reactable is accessed *)
| DoubleFree (r : ptr)            (* a destroyed Reactable is deleted *)
| NullDeref (line : nat)          (* -> through a null smart pointer *)
| Uninitialised (line : nat)      (* an indeterminate value is read *)
| PromiseAlreadySatisfied (p : promise_id).

Inductive Refusal :=
| NotRunnable        (* the thread does not exist or has finished *)
| NotDeliverable     (* epoll_wait cannot return this batch now *)
| Misuse             (* the caller breaks the contract of the call *)
| NoDescriptor.      (* the kernel cannot hand out, or the owner does not
                        hold, this descriptor *)

Inductive Outcome (A : Type) :=
| Ok (a : A)
| Crash (f : Fault)
| Refused (w : Refusal).
Arguments Ok {A} a.
Arguments Crash {A} f.
Arguments Refused {A} w.

Definition M (A : Type) : Type := State → Outcome (A * State).

Definition ret {A} (a : A) : M A := λ s, Ok (a, s).
Definition bind {A B} (m : M A) (k : A → M B) : M B :=
  λ s, match m s with
       | Ok (a, s') => k a s'
       | Crash f => Crash f
       | Refused w => Refused w
       end.
Definition crash {A} (f : Fault) : M A := λ _, Crash f.
Definition refuse {A} (w : Refusal) : M A := λ _, Refused w.
Definition get : M State := λ s, Ok (s, s).
Definition modify (f : State → State) : M unit := λ s, Ok (tt, f s).

Notation "'let*' x := m 'in' k" := (bind m (λ x, k))
  (at level 10, x binder, m at level 200, k at level 200).
Notation "m ;; k" := (bind m (λ _, k))
  (at level 100, right associativity).

Definition emit (o : Obs) : M unit :=
  modify (λ s, set_trace (o :: trace s) s).
Definition log (m : LogMsg) : M unit := emit (Logged m).

(** ASSERT(cond) of line [line]. *)
Definition ASSERT (line : nat) (cond : bool) : M unit :=
  if cond then ret tt else crash (AssertFailed line).

(** ** Free store and promises *)

(** [reactable->...]: the record behind a pointer. *)
Definition deref (r : ptr) : M Reactable :=
  λ s, match heap s !! r with
       | Some R => Ok (R, s)
       | None => Crash (UseAfterFree r)
       end.

Definition store (r : ptr) (R : Reactable) : M unit :=
  modify (λ s, set_heap (<[r := R]> (heap s)) s).

(** [new Reactable(...)]: the result names the new allocation; no two
    allocations share a name. *)
Definition new_Reactable (R : Reactable) : M ptr :=
  λ s, Ok (next_ptr s,
           set_next_ptr (Pos.succ (next_ptr s))
             (set_heap (<[next_ptr s := R]> (heap s)) s)).

(** [delete reactable] *)
Definition delete_Reactable (r : ptr) : M unit :=
  λ s, match heap s !! r with
       | Some _ => Ok (tt, set_trace (Destroyed r :: trace s)
                             (set_heap (delete r (heap s)) s))
       | None => Crash (DoubleFree r)
       end.

(** [std::make_unique<std::promise<void>>()] *)
Definition new_promise : M promise_id :=
  λ s, Ok (next_promise s,
           set_next_promise (Pos.succ (next_promise s))
             (set_promises (<[next_promise s := false]> (promises s)) s)).

(** [promise->set_value()] *)
Definition set_value (p : promise_id) : M unit :=
  λ s, match promises s !! p with
       | Some false => Ok (tt, set_trace (Fulfilled p :: trace s)
                                 (set_promises (<[p := true]> (promises s)) s))
       | _ => Crash (PromiseAlreadySatisfied p)
       end.

(** [future->wait_for(timeout) == std::future_status::ready].  The step is
    taken when the wait is over: the shared state is ready, or else the
    timeout has expired.  Elapsed time is not part of the state. *)
Definition wait_for_ready (p : promise_id) (timeout : Z) : M bool :=
  λ s, Ok (match promises s !! p with Some true => true | _ => false end, s).

(** ** epoll_wait *)

(** The batch [epoll_wait] may return: [ready] lists the descriptors the
    kernel reports with the events it reports for each.  A descriptor is
    reported once, is on the interest list, and has a non-empty event set
    within what was asked for plus EPOLLERR and EPOLLHUP, which are always
    reported; the control eventfd is readable only when its counter is not
    zero; the call returns no event only on a timeout with a zero control
    counter. *)
Definition deliverable (s : State) (timeout_ms : Z) (ready : list (Z * N))
    : bool :=
  bool_decide (NoDup (ready.*1))
  && (length ready <=? kEpollMaxEvents)%nat
  && forallb (λ '(fd, revents),
       match interest s !! fd with
       | Some e =>
           negb (revents =? 0)%N
           && (N.land revents
                 (N.lor (events e) (N.lor EPOLLERR EPOLLHUP)) =? revents)%N
           && (if decide (fd = control_fd_ s)
               then negb (count (control s) =? 0)%N else true)
       | None => false
       end) ready
  && match ready with
     | [] => (0 <=? timeout_ms)%Z && (count (control s) =? 0)%N
     | _ => true
     end.

Definition epoll_wait (s : State) (ready : list (Z * N)) : list epoll_event :=
  omap (λ '(fd, revents),
          e ← interest s !! fd; Some (mk_epoll_event revents (data_ptr e)))
       ready.

(** ** Reactor: the regions *)

(** 103-114.  [epoll_fd] and [control_fd] are what epoll_create1 and eventfd
    return; the two descriptors are the first of the descriptor table. *)
Definition Reactor (epoll_fd control_fd : Z) : Outcome State :=
  if (epoll_fd =? -1)%Z then Crash (AssertFailed 105)
  else if (control_fd =? -1)%Z then Crash (AssertFailed 108)
  else
    let files : gmap Z bool := <[control_fd := true]> {[epoll_fd := true]} in
    match epoll_ctl epoll_fd EPOLL_CTL_ADD control_fd
            (mk_epoll_event EPOLLIN None) files ∅ with
    | inr i => Ok (mkState i (eventfd 0 false) files epoll_fd control_fd false
                     [] None None ∅ 1%positive ∅ 1%positive [] [] ∅)
    | inl _ => Crash (AssertFailed 113)
    end.

(** 217-223 *)
Definition Register_poll_event_type (on_read_ready on_write_ready : Closure)
    : N :=
  let poll_event_type := 0%N in
  let poll_event_type :=
    if negb (is_null on_read_ready)
    then N.lor poll_event_type (N.lor EPOLLIN EPOLLRDHUP)
    else poll_event_type in
  let poll_event_type :=
    if negb (is_null on_write_ready)
    then N.lor poll_event_type EPOLLOUT
    else poll_event_type in
  poll_event_type.

(** 216-233 *)
Definition Register (fd : Z) (on_read_ready on_write_ready : Closure)
    : M (list Instr) :=
  let poll_event_type :=
    Register_poll_event_type on_read_ready on_write_ready in
  let* reactable :=
    new_Reactable (mkReactable fd on_read_ready on_write_ready
                     false false None) in
  let event := mk_epoll_event poll_event_type (Some reactable) in
  let* s := get in
  match epoll_ctl (epoll_fd_ s) EPOLL_CTL_ADD fd event (open_files s)
          (interest s) with
  | inr i =>
      modify (set_interest i);;
      emit (Returned (CRegister fd on_read_ready on_write_ready)
              (RPtr reactable));;
      ret []
  | inl _ => crash (AssertFailed 231)
  end.

(** 235-240.  The contract of the call: the handle came from [Register] and
    was not passed to [Unregister] before. *)
Definition Unregister (reactable : option ptr) : M (list Instr) :=
  match reactable with
  | None => crash (AssertFailed 236)
  | Some r =>
      let* s := get in
      if bool_decide (r ∈ unregistered s) || negb (r <? next_ptr s)%positive
      then refuse Misuse
      else
        modify (λ s, set_unregistered ({[r]} ∪ unregistered s) s);;
        modify (λ s, set_invalidation_list_ (invalidation_list_ s ++ [r]) s);;
        ret [IUnregister_locked r]
  end.

(** 241-260, under the lock of the reactable (which is also all that
    guards the write of line 257 to the member of the reactor). *)
Definition Unregister_locked (r : ptr) : M (list Instr) :=
  let* R := deref r in
  let* s := get in
  (match epoll_ctl (epoll_fd_ s) EPOLL_CTL_DEL (fd_ R) (mk_epoll_event 0 None)
           (open_files s) (interest s) with
   | inr i => modify (set_interest i)
   | inl ENOENT => log InvalidOrUnregistered
   | inl _ => crash (AssertFailed 249)
   end);;
  if is_executing_ R
  then
    let* p := new_promise in
    store r (mkReactable (fd_ R) (on_read_ready_ R) (on_write_ready_ R)
               (is_executing_ R) true (Some p));;
    modify (set_executing_reactable_finished_ (Some p));;
    emit (Returned (CUnregister (Some r)) RVoid);;
    ret []
  else ret [IUnregister_delete r].

(** 261-264, reached with delaying_delete_until_callback_finished false *)
Definition Unregister_delete (r : ptr) : M (list Instr) :=
  delete_Reactable r;;
  emit (Returned (CUnregister (Some r)) RVoid);;
  ret [].

(** 297-303 *)
Definition Modify_poll_event_type (react_on : ReactOn) : N :=
  let poll_event_type := 0%N in
  let poll_event_type :=
    match react_on with
    | REACT_ON_READ_ONLY | REACT_ON_READ_WRITE =>
        N.lor poll_event_type (N.lor EPOLLIN EPOLLRDHUP)
    | _ => poll_event_type
    end in
  let poll_event_type :=
    match react_on with
    | REACT_ON_WRITE_ONLY | REACT_ON_READ_WRITE =>
        N.lor poll_event_type EPOLLOUT
    | _ => poll_event_type
    end in
  poll_event_type.

(** 294-311 *)
Definition ModifyRegistration (reactable : option ptr) (react_on : ReactOn)
    : M (list Instr) :=
  match reactable with
  | None => crash (AssertFailed 295)
  | Some r =>
      let event := mk_epoll_event (Modify_poll_event_type react_on) (Some r) in
      let* R := deref r in
      let* s := get in
      match epoll_ctl (epoll_fd_ s) EPOLL_CTL_MOD (fd_ R) event
              (open_files s) (interest s) with
      | inr i =>
          modify (set_interest i);;
          emit (Returned (CModifyRegistration reactable react_on) RVoid);;
          ret []
      | inl _ => crash (AssertFailed 310)
      end
  end.

(** 204-210 *)
Definition Stop : M (list Instr) :=
  let* s := get in
  (if negb (is_running_ s) then log NotRunning else ret tt);;
  match eventfd_write (control s) kStopReactor with
  | Some c =>
      modify (set_control c);;
      emit (Returned CStop RVoid);;
      ret []
  | None => crash (AssertFailed 209)
  end.

(** 267-277 *)
Definition WaitForUnregisteredReactable (timeout : Z) : M (list Instr) :=
  let* s := get in
  match executing_reactable_finished_ s with
  | None =>
      emit (Returned (CWaitForUnregisteredReactable timeout) (RBool true));;
      ret []
  | Some future =>
      let* ready := wait_for_ready future timeout in
      (if negb ready then log UnregisterTimedOut else ret tt);;
      emit (Returned (CWaitForUnregisteredReactable timeout) (RBool ready));;
      ret []
  end.

(** 279-285 *)
Definition WaitForIdle (timeout : Z) : M (list Instr) :=
  let* promise := new_promise in
  modify (set_idle_promise_ (Some promise));;
  ret [IWaitForIdle_write promise timeout].

(** 287-288 *)
Definition WaitForIdle_write (future : promise_id) (timeout : Z)
    : M (list Instr) :=
  let* s := get in
  match eventfd_write (control s) kWaitForIdle with
  | Some c => modify (set_control c);; ret [IWaitForIdle_wait future timeout]
  | None => crash (AssertFailed 288)
  end.

(** 290-291 *)
Definition WaitForIdle_wait (future : promise_id) (timeout : Z)
    : M (list Instr) :=
  let* ready := wait_for_ready future timeout in
  emit (Returned (CWaitForIdle timeout) (RBool ready));;
  ret [].

(** *** Run *)

(** 128-133 *)
Definition Run : M (list Instr) :=
  let* s := get in
  let already_running := is_running_ s in      (* is_running_.exchange(true) *)
  modify (set_is_running_ true);;
  ASSERT 130 (negb already_running);;
  ret [IRun_top (-1) false].

(** 135-138 *)
Definition Run_top (timeout_ms : Z) (waiting_for_idle : bool)
    : M (list Instr) :=
  modify (set_invalidation_list_ []);;
  ret [IRun_wait timeout_ms waiting_for_idle].

(** 139-150; [ready] is what the kernel reports to this epoll_wait. *)
Definition Run_wait (timeout_ms : Z) (waiting_for_idle : bool)
    (ready : list (Z * N)) : M (list Instr) :=
  let* s := get in
  if negb (deliverable s timeout_ms ready) then refuse NotDeliverable
  else
    let events := epoll_wait s ready in
    let count := length events in
    if waiting_for_idle && (count =? 0)%nat
    then
      match idle_promise_ s with
      | Some p =>
          set_value p;;
          modify (set_idle_promise_ None);;
          ret [IRun_event (mkLocals (-1) false events)]
      | None => crash (NullDeref 148)
      end
    else ret [IRun_event (mkLocals timeout_ms waiting_for_idle events)].

(** 157-171: the control eventfd triggered. *)
Definition Run_control (l : locals) (rest : list epoll_event)
    : M (list Instr) :=
  let* s := get in
  match eventfd_read (control s) with
  | (None, _) => crash (Uninitialised 160)
  | (Some value, c) =>
      modify (set_control c);;
      if negb (N.land value kStopReactor =? 0)%N
      then
        modify (set_is_running_ false);;
        emit (Returned CRun RVoid);;
        ret []
      else if negb (N.land value kWaitForIdle =? 0)%N
      then ret [IRun_event (mkLocals 30 true rest)]
      else
        log (UnknownControlValue value);;
        ret [IRun_event (mkLocals (timeout_ms l) (waiting_for_idle l) rest)]
  end.

(** 152-184: the head of the loop body, up to the callbacks. *)
Definition Run_event (l : locals) : M (list Instr) :=
  match batch l with
  | [] => ret [IRun_top (timeout_ms l) (waiting_for_idle l)]
  | event :: rest =>
      ASSERT 154 (negb (events event =? 0)%N);;
      match data_ptr event with
      | None => Run_control l rest
      | Some reactable =>
          let l' := mkLocals (timeout_ms l) (waiting_for_idle l) rest in
          modify (set_executing_reactable_finished_ None);;
          let* s := get in
          if bool_decide (reactable ∈ invalidation_list_ s)
          then ret [IRun_event l']
          else
            let* R := deref reactable in
            store reactable
              (mkReactable (fd_ R) (on_read_ready_ R) (on_write_ready_ R)
                 true (removed_ R) (finished_promise_ R));;
            ret [IRun_read l' event reactable]
      end
  end.

(** 185-187 *)
Definition Run_read (l : locals) (event : epoll_event) (r : ptr)
    : M (list Instr) :=
  let* R := deref r in
  match on_read_ready_ R with
  | Some body =>
      if negb (N.land (events event)
                 (N.lor EPOLLIN (N.lor EPOLLHUP (N.lor EPOLLRDHUP EPOLLERR)))
               =? 0)%N
      then
        emit (Invoked r OnRead);;
        ret (map ICall body ++ [IRun_write l event r])
      else ret [IRun_write l event r]
  | None => ret [IRun_write l event r]
  end.

(** 188-190 *)
Definition Run_write (l : locals) (event : epoll_event) (r : ptr)
    : M (list Instr) :=
  let* R := deref r in
  match on_write_ready_ R with
  | Some body =>
      if negb (N.land (events event) EPOLLOUT =? 0)%N
      then
        emit (Invoked r OnWrite);;
        ret (map ICall body ++ [IRun_finish l r])
      else ret [IRun_finish l r]
  | None => ret [IRun_finish l r]
  end.

(** 191-199 *)
Definition Run_finish (l : locals) (r : ptr) : M (list Instr) :=
  let* R := deref r in
  store r (mkReactable (fd_ R) (on_read_ready_ R) (on_write_ready_ R)
             false (removed_ R) (finished_promise_ R));;
  (if removed_ R
   then
     match finished_promise_ R with
     | Some p => set_value p;; delete_Reactable r
     | None => crash (NullDeref 195)
     end
   else ret tt);;
  ret [IRun_event l].

(** ** Threads and schedules *)

Definition call (c : Call) : M (list Instr) :=
  match c with
  | CRegister fd on_read_ready on_write_ready =>
      Register fd on_read_ready on_write_ready
  | CUnregister reactable => Unregister reactable
  | CModifyRegistration reactable react_on =>
      ModifyRegistration reactable react_on
  | CStop => Stop
  | CRun => Run
  | CWaitForUnregisteredReactable timeout =>
      WaitForUnregisteredReactable timeout
  | CWaitForIdle timeout => WaitForIdle timeout
  end.

(** One region: what remains of the function is the result. *)
Definition exec (i : Instr) (ready : list (Z * N)) : M (list Instr) :=
  match i with
  | ICall c => call c
  | IUnregister_locked r => Unregister_locked r
  | IUnregister_delete r => Unregister_delete r
  | IWaitForIdle_write p timeout => WaitForIdle_write p timeout
  | IWaitForIdle_wait p timeout => WaitForIdle_wait p timeout
  | IRun_top timeout_ms waiting_for_idle => Run_top timeout_ms waiting_for_idle
  | IRun_wait timeout_ms waiting_for_idle =>
      Run_wait timeout_ms waiting_for_idle ready
  | IRun_event l => Run_event l
  | IRun_read l event r => Run_read l event r
  | IRun_write l event r => Run_write l event r
  | IRun_finish l r => Run_finish l r
  end.

(** Thread [t] executes its next region. *)
Definition step (t : nat) (ready : list (Z * N)) (s : State) : Outcome State :=
  match threads s !! t with
  | Some (i :: k) =>
      match exec i ready s with
      | Ok (next, s') => Ok (set_threads (<[t := next ++ k]> (threads s')) s')
      | Crash f => Crash f
      | Refused w => Refused w
      end
  | _ => Refused NotRunnable
  end.

(** What happens to the descriptors outside the reactor: the process opens
    a file and the kernel hands out [fd], a number that is not in use, or
    the owner of [fd] closes it, which also takes it off the interest
    list.  The two descriptors of the reactor are private members: nobody
    else closes them. *)
Definition open_fd (fd : Z) (pollable : bool) (s : State) : Outcome State :=
  if (fd <? 0)%Z then Refused NoDescriptor
  else match open_files s !! fd with
       | Some _ => Refused NoDescriptor
       | None => Ok (set_open_files (<[fd := pollable]> (open_files s)) s)
       end.

Definition close_fd (fd : Z) (s : State) : Outcome State :=
  match open_files s !! fd with
  | Some _ =>
      if bool_decide (fd = epoll_fd_ s ∨ fd = control_fd_ s)
      then Refused NoDescriptor
      else Ok (set_interest (delete fd (interest s))
                 (set_open_files (delete fd (open_files s)) s))
  | None => Refused NoDescriptor
  end.

Inductive Action :=
| Spawn (program : list Call)            (* a new thread, and its calls *)
| Step (t : nat) (ready : list (Z * N))
| Open (fd : Z) (pollable : bool)        (* a descriptor is opened *)
| Close (fd : Z).                        (* its owner closes a descriptor *)

Definition act (a : Action) (s : State) : Outcome State :=
  match a with
  | Spawn program =>
      Ok (set_threads (threads s ++ [map ICall program]) s)
  | Step t ready => step t ready s
  | Open fd pollable => open_fd fd pollable s
  | Close fd => close_fd fd s
  end.

Fixpoint run (schedule : list Action) (s : State) : Outcome State :=
  match schedule with
  | [] => Ok s
  | a :: rest =>
      match act a s with
      | Ok s' => run rest s'
      | Crash f => Crash f
      | Refused w => Refused w
      end
  end.

(** ** Invariants of the reachable states *)

(** The regions of [Unregister(r)] that are still to be executed. *)
Definition unregister_of (r : ptr) (i : Instr) : nat :=
  match i with
  | IUnregister_locked r' | IUnregister_delete r' =>
      if decide (r' = r) then 1 else 0
  | _ => 0
  end.

(** The regions that belong to an activation of [Run]. *)
Definition run_frame (i : Instr) : nat :=
  match i with
  | IRun_top _ _ | IRun_wait _ _ | IRun_event _
  | IRun_read _ _ _ | IRun_write _ _ _ | IRun_finish _ _ => 1
  | _ => 0
  end.

(** How many regions of a kind all threads together still hold. *)
Definition tally (f : Instr → nat) (ths : list (list Instr)) : nat :=
  sum_list_with f (concat ths).

(** How often [delete] ran on [r]. *)
Definition destroyed (r : ptr) (o : Obs) : nat :=
  match o with
  | Destroyed r' => if decide (r' = r) then 1 else 0
  | _ => 0
  end.

Definition destroyed_count (r : ptr) (tr : list Obs) : nat :=
  sum_list_with (destroyed r) tr.

Record wf (s : State) : Prop := mk_wf {
  (* the names of the reactables are given out in order *)
  wf_fresh : ∀ r R, heap s !! r = Some R → (r < next_ptr s)%positive;
  (* the descriptor of a reactable is not negative *)
  wf_fd : ∀ r R, heap s !! r = Some R → (0 ≤ fd_ R)%Z;
  (* at most one Unregister(r) is in progress, on a live reactable that is
     not yet marked removed *)
  wf_pending_le : ∀ r, tally (unregister_of r) (threads s) ≤ 1;
  wf_pending : ∀ r, tally (unregister_of r) (threads s) = 1 →
    r ∈ unregistered s ∧ ∃ R, heap s !! r = Some R ∧ removed_ R = false;
  wf_removed : ∀ r R, heap s !! r = Some R → removed_ R = true →
    r ∈ unregistered s;
  wf_gone : ∀ r, (r < next_ptr s)%positive → heap s !! r = None →
    r ∈ unregistered s;
  (* exactly one thread is inside Run when the flag is set, none otherwise *)
  wf_running :
    tally run_frame (threads s) = if is_running_ s then 1 else 0;
  (* delete ran at most once per reactable *)
  wf_destroyed_le : ∀ r, destroyed_count r (trace s) ≤ 1;
  wf_destroyed : ∀ r, destroyed_count r (trace s) = 1 →
    heap s !! r = None ∧ (r < next_ptr s)%positive;
  (* the control eventfd is the one of the constructor: no EFD_SEMAPHORE *)
  wf_control : semaphore (control s) = false
}.

(** The states a reactor can be in: constructed, then driven by any
    schedule of any threads. *)
Definition reachable (s : State) : Prop :=
  ∃ epoll_fd control_fd s0 schedule,
    Reactor epoll_fd control_fd = Ok s0 ∧ run schedule s0 = Ok s.

(** The bits of an event set. *)
Definition has (bits mask : N) : bool := negb (N.land bits mask =? 0)%N.

Definition read_mask : N :=
  N.lor EPOLLIN (N.lor EPOLLHUP (N.lor EPOLLRDHUP EPOLLERR)).

(** What the invariant says about one reactable. *)
Definition owned_at (s : State) (r : ptr) : Prop :=
  tally (unregister_of r) (threads s) ≤ 1
  ∧ (tally (unregister_of r) (threads s) = 1 →
       r ∈ unregistered s ∧ ∃ R, heap s !! r = Some R ∧ removed_ R = false)
  ∧ (∀ R, heap s !! r = Some R → removed_ R = true → r ∈ unregistered s)
  ∧ ((r < next_ptr s)%positive → heap s !! r = None → r ∈ unregistered s).

(** The completion signals of the live reactables: a removed reactable has
    one, each is unfulfilled, is the signal of that reactable only, and is
    not the idle promise. *)
Record signals (s : State) : Prop := mk_signals {
  sig_removed : ∀ r R, heap s !! r = Some R → removed_ R = true →
    is_Some (finished_promise_ R);
  sig_armed : ∀ r R p, heap s !! r = Some R → finished_promise_ R = Some p →
    promises s !! p = Some false ∧ (p < next_promise s)%positive;
  sig_own : ∀ r r' R R' p, heap s !! r = Some R → heap s !! r' = Some R' →
    finished_promise_ R = Some p → finished_promise_ R' = Some p → r = r';
  sig_idle : ∀ q, idle_promise_ s = Some q → (q < next_promise s)%positive;
  sig_idle_other : ∀ q r R, idle_promise_ s = Some q →
    heap s !! r = Some R → finished_promise_ R ≠ Some q
}.

(** The immutable part of a reactable: as long as [r] is alive it holds the
    descriptor and the callbacks [Register] gave it. *)
Definition keeps (r : ptr) (R : Reactable) (s : State) : Prop :=
  (r < next_ptr s)%positive
  ∧ ∀ R', heap s !! r = Some R' →
      fd_ R' = fd_ R
      ∧ on_read_ready_ R' = on_read_ready_ R
      ∧ on_write_ready_ R' = on_write_ready_ R.

(** 245-250 by cases, for a descriptor that is not negative: the descriptor
    is taken off the interest list; or it is not on the list, but the
    number is open and its file can be polled (the owner has closed the
    descriptor and the number is in use again), and ENOENT is logged (247);
    or the call fails otherwise, and line 249 aborts. *)
Definition Unregister_del (fd : Z) (s : State) : Outcome State :=
  match interest s !! fd, open_files s !! fd with
  | Some _, _ => Ok (set_interest (delete fd (interest s)) s)
  | None, Some true =>
      if decide (fd = epoll_fd_ s) then Crash (AssertFailed 249)
      else Ok (set_trace (Logged InvalidOrUnregistered :: trace s) s)
  | None, _ => Crash (AssertFailed 249)
  end.

(** ** Further invariants of the reachable states *)

(** The regions of the dispatch of an event of [r] (183-199). *)
Definition dispatch_of (r : ptr) (i : Instr) : nat :=
  match i with
  | IRun_read _ _ r' | IRun_write _ _ r' | IRun_finish _ r' =>
      if decide (r' = r) then 1 else 0
  | _ => 0
  end.

(** The locals of the activation of [Run] a region belongs to. *)
Definition frame_locals (i : Instr) : option locals :=
  match i with
  | IRun_top timeout_ms waiting_for_idle
  | IRun_wait timeout_ms waiting_for_idle =>
      Some (mkLocals timeout_ms waiting_for_idle [])
  | IRun_event l | IRun_read l _ _ | IRun_write l _ _ | IRun_finish l _ =>
      Some l
  | _ => None
  end.

Definition frame_batch (i : Instr) : list epoll_event :=
  match frame_locals i with Some l => batch l | None => [] end.

(** Events of the control eventfd (null user data) in a batch. *)
Definition control_events (es : list epoll_event) : nat :=
  sum_list_with (λ e, match data_ptr e with None => 1 | Some _ => 0 end) es.

Definition control_in_batch (i : Instr) : nat :=
  control_events (frame_batch i).

(** Events with an empty event set in a batch. *)
Definition empty_events (es : list epoll_event) : nat :=
  sum_list_with (λ e, if (events e =? 0)%N then 1 else 0) es.

Definition empty_in_batch (i : Instr) : nat :=
  empty_events (frame_batch i).

(** Regions of [Run] whose locals are in neither of the two settings of the
    source: 132-133 and 145-146, or 164-165. *)
Definition odd_locals (i : Instr) : nat :=
  match frame_locals i with
  | Some l =>
      if bool_decide ((timeout_ms l = -1 ∧ waiting_for_idle l = false)
                      ∨ (timeout_ms l = 30 ∧ waiting_for_idle l = true))%Z
      then 0 else 1
  | None => 0
  end.

(** What [deliverable] asks of one reported descriptor. *)
Definition reportable (s : State) (p : Z * N) : bool :=
  match interest s !! p.1 with
  | Some e =>
      negb (p.2 =? 0)%N
      && (N.land p.2 (N.lor (events e) (N.lor EPOLLERR EPOLLHUP)) =? p.2)%N
      && (if decide (p.1 = control_fd_ s)
          then negb (count (control s) =? 0)%N else true)
  | None => false
  end.

(** The control eventfd and the interest list: the control eventfd stays
    registered as the constructor registered it, it is the only entry with
    null user data, and no reactable holds its descriptor. *)
Record coherent (s : State) : Prop := mk_coherent {
  coh_control :
    interest s !! control_fd_ s = Some (mk_epoll_event EPOLLIN None);
  coh_data : ∀ fd e, interest s !! fd = Some e → data_ptr e = None →
    fd = control_fd_ s;
  coh_fd : ∀ r R, heap s !! r = Some R → fd_ R ≠ control_fd_ s;
  coh_control_fd : (0 ≤ control_fd_ s)%Z
}.

(** The descriptor table and the interest list: a descriptor on the list is
    open, can be polled and is not the epoll descriptor; the epoll
    descriptor is open; no reactable holds it; and a descriptor is not
    negative. *)
Record opened (s : State) : Prop := mk_opened {
  opn_watched : ∀ fd e, interest s !! fd = Some e →
    open_files s !! fd = Some true ∧ fd ≠ epoll_fd_ s;
  opn_epoll : is_Some (open_files s !! epoll_fd_ s);
  opn_fd : ∀ r R, heap s !! r = Some R → fd_ R ≠ epoll_fd_ s;
  opn_nonneg : ∀ fd, is_Some (open_files s !! fd) → fd ≠ epoll_fd_ s →
    (0 ≤ fd)%Z
}.

(** The batches the loop still holds: at most one control event, which
    stands for a counter that is not zero, and no event without bits. *)
Record batched (s : State) : Prop := mk_batched {
  bat_control_le : tally control_in_batch (threads s) ≤ 1;
  bat_control :
    tally control_in_batch (threads s) = 1 → count (control s) ≠ 0%N;
  bat_events : tally empty_in_batch (threads s) = 0
}.

(** [is_executing_] and [removed_] of one reactable: it is executing only
    while the loop is in the dispatch of one of its events, and marked
    removed only while executing. *)
Definition executing_at (s : State) (r : ptr) : Prop :=
  (∀ R, heap s !! r = Some R → is_executing_ R = true →
     tally (dispatch_of r) (threads s) = 1)
  ∧ (∀ R, heap s !! r = Some R → removed_ R = true → is_executing_ R = true).

Record settled (s : State) : Prop := mk_settled {
  stl_coherent : coherent s;
  stl_batched : batched s;
  stl_idle : ∀ q, idle_promise_ s = Some q → promises s !! q = Some false;
  stl_unregistered : ∀ r, r ∈ unregistered s → (r < next_ptr s)%positive;
  stl_locals : tally odd_locals (threads s) = 0;
  stl_executing : ∀ r, executing_at s r
}.

(** What [executing_reactable_finished_] observes: the completion signal of
    a reactable that is alive and marked removed, or the fulfilled signal of
    one that is gone. *)
Definition slot_ok (s : State) : Prop :=
  ∀ p, executing_reactable_finished_ s = Some p →
    (p < next_promise s)%positive
    ∧ ((promises s !! p = Some true
        ∧ ∀ r R, heap s !! r = Some R → finished_promise_ R ≠ Some p)
       ∨ (promises s !! p = Some false
          ∧ ∃ r R, heap s !! r = Some R ∧ finished_promise_ R = Some p
                   ∧ removed_ R = true)).

(** ** Creating and closing descriptors *)

(** 212-214: [std::make_unique<Reactor::Event>()]; [fd] is what eventfd
    returns to the constructor of the new [Event]. *)
Definition NewEvent (fd : Z) : option Event.impl := Event.Event fd.

(** close(2) on the descriptors the process has open: [None] is the
    failure (-1, EBADF). *)
Definition close (fd : Z) (open : gset Z) : option (gset Z) :=
  if bool_decide (fd ∈ open) then Some (open ∖ {[fd]}) else None.

(** 75-79 *)
Definition Event_Close (e : Event.impl) (open : gset Z) : Outcome (gset Z) :=
  match close (Event.fd_ e) open with
  | Some open' => Ok open'
  | None => Crash (AssertFailed 78)
  end.

(** 50-54 and 59-61: [delete pimpl_]; what close returns is not looked
    at. *)
Definition Event_dtor (e : Event.impl) (open : gset Z) : Outcome (gset Z) :=
  if (Event.fd_ e =? -1)%Z then Crash (AssertFailed 51)
  else Ok (match close (Event.fd_ e) open with
           | Some open' => open'
           | None => open
           end).

(** 116-126.  [open] are the descriptors that are open when the destructor
    runs; the EPOLL_CTL_DEL fails (EBADF) when one of the two descriptors
    of the reactor is not among them. *)
Definition Reactor_dtor (s : State) (open : gset Z) : Outcome (gset Z) :=
  match (if bool_decide (epoll_fd_ s ∈ open ∧ control_fd_ s ∈ open)
         then epoll_ctl (epoll_fd_ s) EPOLL_CTL_DEL (control_fd_ s)
                (mk_epoll_event 0 None) (open_files s) (interest s)
         else inl EBADF) with
  | inl _ => Crash (AssertFailed 119)
  | inr _ =>
      match close (control_fd_ s) open with
      | None => Crash (AssertFailed 122)
      | Some open' =>
          match close (epoll_fd_ s) open' with
          | None => Crash (AssertFailed 125)
          | Some open'' => Ok open''
          end
      end
  end.

(** ** Scenarios

    In all of them epoll_create1 returns 3 and eventfd returns 4, thread 0
    calls [Run], the first reactable is at address 1, and the descriptor
    that is registered is a socket that was opened as descriptor 5. *)

(** Two threads: [Stop] is called twice before the reactor thread reads the
    control eventfd. *)
Definition two_stops : list Action :=
  [Spawn [CRun]; Spawn [CStop; CStop];
   Step 1 []; Step 1 [];           (* 204-210, twice *)
   Step 0 [];                      (* 128-133 *)
   Step 0 [];                      (* 135-138 *)
   Step 0 [(4%Z, EPOLLIN)];        (* 141: the control eventfd is readable *)
   Step 0 []].                     (* 152-171 *)

(** The pass after [two_stops]: nothing is ready. *)
Definition idle_pass : list Action :=
  [Step 0 [];                      (* 152: the batch is done *)
   Step 0 [];                      (* 135-138 *)
   Step 0 []].                     (* 141-150: epoll_wait times out *)

(** Thread 1 registers descriptor 5 and unregisters it again, while the
    reactor thread starts its next pass between the two regions of
    [Unregister]. *)
Definition unregister_race : list Action :=
  [Open 5 true; Spawn [CRun];
   Spawn [CRegister 5 (Some []) None; CUnregister (Some 1%positive)];
   Step 1 [];                      (* Register *)
   Step 0 [];                      (* Run: 128-133 *)
   Step 1 [];                      (* Unregister: 236-240, the push_back *)
   Step 0 [];                      (* Run: 135-138, the clear *)
   Step 0 [(5%Z, EPOLLIN)];        (* Run: 141, descriptor 5 is readable *)
   Step 1 [];                      (* Unregister: 241-260 *)
   Step 1 []].                     (* Unregister: 261-264, the delete *)

(** A reactable with both callbacks whose read callback unregisters it;
    the schedule stops where the loop is about to run the callbacks of one
    event that reports EPOLLIN and EPOLLOUT. *)
Definition self_unregister : list Action :=
  [Open 5 true; Spawn [CRun];
   Spawn [CRegister 5 (Some [CUnregister (Some 1%positive)]) (Some [])];
   Step 1 [];                      (* Register *)
   Step 0 []; Step 0 [];           (* Run: 128-138 *)
   Step 0 [(5%Z, 5%N)];            (* Run: 141 *)
   Step 0 []].                     (* Run: 152-184 *)

(** [self_unregister], up to the end of the read callback. *)
Definition self_unregister_read : list Action :=
  self_unregister ++ [Step 0 []; Step 0 []; Step 0 []].

(** Thread 1 registers descriptor 5 and stops the reactor; the schedule ends
    where the loop is about to handle the control event. *)
Definition register_then_stop : list Action :=
  [Open 5 true; Spawn [CRun]; Spawn [CRegister 5 (Some []) None; CStop];
   Step 1 []; Step 0 []; Step 1 []; Step 0 [];
   Step 0 [(4%Z, EPOLLIN)]].

(** A running reactor whose control eventfd holds [value], at the control
    event of its batch. *)
Definition control_pending (value : N) : State :=
  mkState {[4%Z := mk_epoll_event EPOLLIN None]} (mk_eventfd value false)
    (<[4%Z := true]> {[3%Z := true]})
    3 4 true [] None None ∅ 1%positive ∅ 1%positive
    [[IRun_event (mkLocals (-1) false [mk_epoll_event EPOLLIN None])]] [] ∅.

(** One thread calls [Stop] and then [Run]. *)
Definition stop_then_run : list Action := [Spawn [CStop; CRun]].

(** The reactor thread blocks in epoll_wait; thread 1 is about to call
    [WaitForIdle]. *)
Definition wait_for_idle : list Action :=
  [Spawn [CRun]; Spawn [CWaitForIdle 100];
   Step 0 []; Step 0 []].          (* Run: 128-138 *)

(** The same with two threads that are about to call [WaitForIdle]. *)
Definition two_wait_for_idle : list Action :=
  [Spawn [CRun]; Spawn [CWaitForIdle 100]; Spawn [CWaitForIdle 200];
   Step 0 []; Step 0 []].          (* Run: 128-138 *)

(** Thread 1 registers descriptor 5; epoll_wait reports it; then thread 1
    unregisters it, all of [Unregister], before the loop reaches the
    event. *)
Definition unregister_in_time : list Action :=
  [Open 5 true; Spawn [CRun];
   Spawn [CRegister 5 (Some []) None; CUnregister (Some 1%positive)];
   Step 1 [];                      (* Register *)
   Step 0 []; Step 0 [];           (* Run: 128-138 *)
   Step 0 [(5%Z, EPOLLIN)];        (* Run: 141, descriptor 5 is readable *)
   Step 1 []; Step 1 []; Step 1 []].   (* Unregister: 236-264 *)

(** A reactable with a write callback only, whose descriptor reports a
    hang-up; the schedule ends where the loop is about to handle the
    event. *)
Definition hang_up_write_only : list Action :=
  [Open 5 true; Spawn [CRun]; Spawn [CRegister 5 None (Some [])];
   Step 1 [];                      (* Register *)
   Step 0 []; Step 0 [];           (* Run: 128-138 *)
   Step 0 [(5%Z, EPOLLHUP)]].      (* Run: 141 *)

(** ** Tactics: taking a region apart *)

Ltac unfold_exec H :=
  cbv beta iota delta
    [exec call Register Unregister ModifyRegistration Stop Run
     WaitForUnregisteredReactable WaitForIdle Unregister_locked
     Unregister_delete WaitForIdle_write WaitForIdle_wait Run_top Run_wait
     Run_event Run_control Run_read Run_write Run_finish
     bind ret get modify emit log crash refuse ASSERT deref store
     new_Reactable delete_Reactable new_promise set_value wait_for_ready] in H.

Ltac exec_inv H :=
  unfold_exec H;
  repeat first [progress simplify_eq | case_match | progress simpl in *].

Ltac lookups :=
  repeat first [rewrite lookup_insert in * | rewrite lookup_delete in *];
  repeat case_decide; simplify_eq; simpl in *.

Ltac bool_hyps :=
  repeat match goal with
  | H : _ || _ = false |- _ => apply orb_false_iff in H; destruct H
  | H : bool_decide _ = false |- _ => apply bool_decide_eq_false in H
  | H : bool_decide _ = true |- _ => apply bool_decide_eq_true in H
  | H : negb _ = false |- _ => apply negb_false_iff in H
  | H : negb _ = true |- _ => apply negb_true_iff in H
  | H : (_ <? _)%positive = true |- _ => apply Pos.ltb_lt in H
  end.

(** The next region of a thread, in a pool that earlier steps updated. *)
Ltac thread_lookup :=
  simpl;
  repeat first
    [ rewrite list_lookup_insert_eq
        by (rewrite ?length_insert; eapply lookup_lt_Some; eassumption)
    | rewrite list_lookup_insert_ne by done ];
  first [eassumption | reflexivity].

(** The fields of a state that earlier steps updated. *)
Ltac state_simpl :=
  cbn [set_interest set_control set_open_files set_is_running_
       set_invalidation_list_
       set_idle_promise_ set_executing_reactable_finished_ set_heap
       set_next_ptr set_promises set_next_promise set_threads set_trace
       set_unregistered
       interest control open_files epoll_fd_ control_fd_ is_running_
       invalidation_list_
       idle_promise_ executing_reactable_finished_ heap next_ptr promises
       next_promise threads trace unregistered
       count semaphore timeout_ms waiting_for_idle batch app].

(** * Properties *)

(** ** Event *)

Lemma Event_Notify_semaphore e e' :
  Event.Notify e = Some e' →
  semaphore (Event.ctx e') = semaphore (Event.ctx e).
Proof.
  unfold Event.Notify, eventfd_write. intros H.
  repeat case_match; simplify_eq; reflexivity.
Qed.

Lemma Event_Notify_count e e' :
  Event.Notify e = Some e' →
  count (Event.ctx e') = (count (Event.ctx e) + 1)%N.
Proof.
  unfold Event.Notify, eventfd_write. intros H.
  repeat case_match; simplify_eq; reflexivity.
Qed.

Lemma Event_Notify_n_semaphore n : ∀ e e',
  Event.Notify_n n e = Some e' →
  semaphore (Event.ctx e') = semaphore (Event.ctx e).
Proof.
  induction n as [|n IH]; simpl; intros e e' H.
  - by simplify_eq.
  - destruct (Event.Notify e) as [e1|] eqn:E; [|done].
    rewrite (IH _ _ H). by eapply Event_Notify_semaphore.
Qed.

Lemma Event_Notify_n_count n : ∀ e e',
  Event.Notify_n n e = Some e' →
  count (Event.ctx e') = (count (Event.ctx e) + N.of_nat n)%N.
Proof.
  induction n as [|n IH]; simpl; intros e e' H.
  - simplify_eq. lia.
  - destruct (Event.Notify e) as [e1|] eqn:E; [|done].
    rewrite (IH _ _ H), (Event_Notify_count _ _ E). lia.
Qed.

(** The counter has room: the calls of [Notify] all succeed. *)
Lemma Event_Notify_n_succeeds n : ∀ e,
  (count (Event.ctx e) + N.of_nat n < ULLONG_MAX)%N →
  ∃ e', Event.Notify_n n e = Some e'.
Proof.
  induction n as [|n IH]; intros e Hlt; simpl; [eauto|].
  unfold Event.Notify, eventfd_write.
  destruct (N.eqb_spec 1 ULLONG_MAX) as [Hmax|_]; [done|].
  destruct (N.ltb_spec 1 (ULLONG_MAX - count (Event.ctx e))) as [_|Hge];
    [|lia].
  apply IH. simpl. lia.
Qed.

(** The loop of [Event.Clear] ends, with a zero counter, within the bound. *)
Lemma Event_Clear_loop_drains fuel : ∀ e,
  semaphore (Event.ctx e) = true →
  N.to_nat (count (Event.ctx e)) < fuel →
  Event.Clear_loop fuel e
  = Some (Event.mk_impl (Event.fd_ e) (mk_eventfd 0 true)).
Proof.
  induction fuel as [|fuel IH]; intros e Hsem Hlt; [lia|].
  simpl. unfold eventfd_read.
  destruct (N.eqb_spec (count (Event.ctx e)) 0) as [Hz|Hnz].
  - destruct e as [fd [c sem]]; simpl in *. by subst.
  - rewrite Hsem. rewrite IH; simpl; auto. lia.
Qed.

Lemma Event_Clear_drains e :
  semaphore (Event.ctx e) = true →
  Event.Clear e = Some (Event.mk_impl (Event.fd_ e) (mk_eventfd 0 true)).
Proof.
  intros Hsem. unfold Event.Clear.
  apply Event_Clear_loop_drains; [done | lia].
Qed.

Lemma Event_Read_zero e :
  count (Event.ctx e) = 0%N → Event.Read e = (false, e).
Proof.
  intros Hz. unfold Event.Read, eventfd_read. rewrite Hz. simpl.
  by destruct e.
Qed.

Lemma Event_Read_n_zero n : ∀ e,
  count (Event.ctx e) = 0%N → Event.Read_n n e = (replicate n false, e).
Proof.
  induction n as [|n IH]; intros e Hz; simpl; [done|].
  rewrite (Event_Read_zero _ Hz), (IH _ Hz). done.
Qed.

Lemma Event_Read_nonzero e :
  semaphore (Event.ctx e) = true → count (Event.ctx e) ≠ 0%N →
  Event.Read e
  = (true, Event.mk_impl (Event.fd_ e)
             (mk_eventfd (count (Event.ctx e) - 1) true)).
Proof.
  intros Hsem Hnz. unfold Event.Read, eventfd_read.
  destruct (N.eqb_spec (count (Event.ctx e)) 0) as [Hz|_]; [done|].
  by rewrite Hsem.
Qed.

(** C6.  For an [Event] (an eventfd in semaphore mode): [Read] returns false
    and changes nothing when the counter is zero, and returns true and takes
    one off the counter otherwise; [n] calls of [Notify] that the counter
    has room for succeed, the [Clear] after them ends with a zero counter,
    every [Read] after that returns false, and after one more [Notify] a
    [Read] returns true again. *)
Theorem Event_Read_Notify_Clear (e : Event.impl) (n : nat) :
  semaphore (Event.ctx e) = true →
  (count (Event.ctx e) + N.of_nat n + 1 < ULLONG_MAX)%N →
  (if (count (Event.ctx e) =? 0)%N
   then Event.Read e = (false, e)
   else Event.Read e =
          (true, Event.mk_impl (Event.fd_ e)
                   (mk_eventfd (count (Event.ctx e) - 1) true)))
  ∧ ∃ e1 e2 e3,
      Event.Notify_n n e = Some e1
      ∧ count (Event.ctx e1) = (count (Event.ctx e) + N.of_nat n)%N
      ∧ Event.Clear e1 = Some e2
      ∧ count (Event.ctx e2) = 0%N
      ∧ (∀ k, Event.Read_n k e2 = (replicate k false, e2))
      ∧ Event.Notify e2 = Some e3
      ∧ Event.Read e3 = (true, e2).
Proof.
  intros Hsem Hroom. split.
  - destruct (N.eqb_spec (count (Event.ctx e)) 0) as [Hz|Hnz].
    + by apply Event_Read_zero.
    + by apply Event_Read_nonzero.
  - destruct (Event_Notify_n_succeeds n e) as [e1 H1]; [lia|].
    pose proof (Event_Notify_n_semaphore _ _ _ H1) as Hsem1.
    rewrite Hsem in Hsem1.
    set (e2 := Event.mk_impl (Event.fd_ e1) (mk_eventfd 0 true)).
    exists e1, e2, (Event.mk_impl (Event.fd_ e1) (mk_eventfd 1 true)).
    split; [done|]. split; [by apply Event_Notify_n_count|].
    split; [by apply Event_Clear_drains|]. split; [done|].
    split; [intros k; by apply Event_Read_n_zero|].
    split; reflexivity.
Qed.

Lemma Event_Read_Notify_Clear_witness :
  Event.Read (Event.mk_impl 7 (eventfd 2 true))
    = (true, Event.mk_impl 7 (mk_eventfd 1 true))
  ∧ ∃ e1 e2 e3,
      Event.Notify_n 3 (Event.mk_impl 7 (eventfd 2 true)) = Some e1
      ∧ count (Event.ctx e1) = 5%N
      ∧ Event.Clear e1 = Some e2
      ∧ count (Event.ctx e2) = 0%N
      ∧ (∀ k, Event.Read_n k e2 = (replicate k false, e2))
      ∧ Event.Notify e2 = Some e3
      ∧ Event.Read e3 = (true, e2).
Proof.
  apply (Event_Read_Notify_Clear (Event.mk_impl 7 (eventfd 2 true)) 3).
  - reflexivity.
  - vm_compute. reflexivity.
Defined.

(** ** Reactor: kernel facts *)

Lemma eventfd_write_semaphore e val e' :
  eventfd_write e val = Some e' → semaphore e' = semaphore e.
Proof.
  unfold eventfd_write. intros H. repeat case_match; by simplify_eq.
Qed.

Lemma eventfd_write_count e val e' :
  eventfd_write e val = Some e' → count e' = (count e + val)%N.
Proof.
  unfold eventfd_write. intros H. repeat case_match; by simplify_eq.
Qed.

Lemma eventfd_write_room e val :
  (count e + val < ULLONG_MAX)%N →
  eventfd_write e val = Some (mk_eventfd (count e + val) (semaphore e)).
Proof.
  intros Hroom. unfold eventfd_write.
  destruct (N.eqb_spec val ULLONG_MAX) as [Hmax|_]; [lia|].
  destruct (N.ltb_spec val (ULLONG_MAX - count e)) as [_|Hge]; [done | lia].
Qed.

Lemma eventfd_read_semaphore e v e' :
  eventfd_read e = (v, e') → semaphore e' = semaphore e.
Proof.
  unfold eventfd_read. intros H. repeat case_match; by simplify_eq.
Qed.

(** A read of the control eventfd takes the whole counter. *)
Lemma eventfd_read_all e :
  semaphore e = false → count e ≠ 0%N →
  eventfd_read e = (Some (count e), mk_eventfd 0 false).
Proof.
  intros Hsem Hnz. unfold eventfd_read.
  destruct (N.eqb_spec (count e) 0) as [Hz|_]; [done|]. by rewrite Hsem.
Qed.

Lemma epoll_ctl_ok_fd epfd op fd ev files i i' :
  epoll_ctl epfd op fd ev files i = inr i' → (0 ≤ fd)%Z.
Proof. unfold epoll_ctl. destruct (Z.ltb_spec fd 0); [done | lia]. Qed.

Lemma epoll_ctl_add epfd fd ev files i :
  (0 ≤ fd)%Z → i !! fd = None → files !! fd = Some true → fd ≠ epfd →
  epoll_ctl epfd EPOLL_CTL_ADD fd ev files i = inr (<[fd := ev]> i).
Proof.
  intros Hfd Hnone Hopen Hne. unfold epoll_ctl.
  destruct (Z.ltb_spec fd 0); [lia|]. rewrite Hnone, Hopen.
  by rewrite decide_False.
Qed.

Lemma epoll_ctl_mod epfd fd ev old files i :
  (0 ≤ fd)%Z → i !! fd = Some old →
  epoll_ctl epfd EPOLL_CTL_MOD fd ev files i = inr (<[fd := ev]> i).
Proof.
  intros Hfd Hsome. unfold epoll_ctl.
  destruct (Z.ltb_spec fd 0); [lia|]. by rewrite Hsome.
Qed.

Lemma epoll_ctl_del epfd fd ev old files i :
  (0 ≤ fd)%Z → i !! fd = Some old →
  epoll_ctl epfd EPOLL_CTL_DEL fd ev files i = inr (delete fd i).
Proof.
  intros Hfd Hsome. unfold epoll_ctl.
  destruct (Z.ltb_spec fd 0); [lia|]. by rewrite Hsome.
Qed.

(** A call that succeeds: what it found and what it leaves. *)
Lemma epoll_ctl_inr epfd op fd ev files i i' :
  epoll_ctl epfd op fd ev files i = inr i' →
  match op with
  | EPOLL_CTL_ADD =>
      i !! fd = None ∧ files !! fd = Some true ∧ fd ≠ epfd
      ∧ i' = <[fd := ev]> i
  | EPOLL_CTL_DEL => is_Some (i !! fd) ∧ i' = delete fd i
  | EPOLL_CTL_MOD => is_Some (i !! fd) ∧ i' = <[fd := ev]> i
  end.
Proof.
  unfold epoll_ctl. intros H.
  destruct (fd <? 0)%Z; [done|].
  destruct (i !! fd) eqn:E.
  - destruct op; simplify_eq; eauto.
  - destruct (files !! fd) as [[]|]; [|done..].
    case_decide; [done|]. destruct op; simplify_eq; eauto.
Qed.

(** On a descriptor that is not on the list: the errors of the kernel, in
    its order. *)
Lemma epoll_ctl_off_list epfd op fd ev files i :
  (0 ≤ fd)%Z → i !! fd = None →
  epoll_ctl epfd op fd ev files i =
    match files !! fd with
    | None => inl EBADF
    | Some false => inl EPERM
    | Some true =>
        if decide (fd = epfd) then inl EINVAL
        else match op with
             | EPOLL_CTL_ADD => inr (<[fd := ev]> i)
             | EPOLL_CTL_DEL | EPOLL_CTL_MOD => inl ENOENT
             end
    end.
Proof.
  intros Hfd Hnone. unfold epoll_ctl.
  destruct (Z.ltb_spec fd 0); [lia|]. by rewrite Hnone.
Qed.

(** The state the constructor leaves. *)
Lemma Reactor_inv epoll_fd control_fd s :
  Reactor epoll_fd control_fd = Ok s →
  (0 ≤ control_fd)%Z ∧ control_fd ≠ epoll_fd
  ∧ s = mkState (<[control_fd := mk_epoll_event EPOLLIN None]> ∅)
          (eventfd 0 false) (<[control_fd := true]> {[epoll_fd := true]})
          epoll_fd control_fd false [] None None ∅ 1%positive ∅ 1%positive
          [] [] ∅.
Proof.
  unfold Reactor. intros H.
  destruct (epoll_fd =? -1)%Z; [done|].
  destruct (control_fd =? -1)%Z; [done|]. cbv zeta in H.
  destruct (epoll_ctl _ _ _ _ _ _) as [e|i] eqn:Hctl; [done|].
  pose proof (epoll_ctl_ok_fd _ _ _ _ _ _ _ Hctl) as Hfd.
  apply epoll_ctl_inr in Hctl as (_ & _ & Hne & ->). by simplify_eq.
Qed.

(** ** Reactor: regions, steps and schedules *)

(** A region leaves the thread pool to [step]. *)
Lemma exec_threads i ready s next s' :
  exec i ready s = Ok (next, s') → threads s' = threads s.
Proof. intros H. exec_inv H; done. Qed.

Lemma step_inv t ready s s' :
  step t ready s = Ok s' →
  ∃ i k next s1,
    threads s !! t = Some (i :: k)
    ∧ exec i ready s = Ok (next, s1)
    ∧ threads s1 = threads s
    ∧ s' = set_threads (<[t := next ++ k]> (threads s)) s1.
Proof.
  unfold step. intros H.
  destruct (threads s !! t) as [[|i k]|] eqn:Hth; try done.
  destruct (exec i ready s) as [[next s1]| |] eqn:Hexec; try done.
  simplify_eq. pose proof (exec_threads _ _ _ _ _ Hexec) as Hsame.
  exists i, k, next, s1. by rewrite Hsame.
Qed.

Lemma step_intro t ready s i k next s1 :
  threads s !! t = Some (i :: k) →
  exec i ready s = Ok (next, s1) →
  step t ready s = Ok (set_threads (<[t := next ++ k]> (threads s)) s1).
Proof.
  intros Hth Hexec. unfold step. rewrite Hth, Hexec.
  by rewrite (exec_threads _ _ _ _ _ Hexec).
Qed.

(** Opening and closing a descriptor touch the descriptor table and the
    interest list only. *)
Lemma open_fd_inv fd pollable s s' :
  open_fd fd pollable s = Ok s' →
  s' = set_open_files (<[fd := pollable]> (open_files s)) s
  ∧ (0 ≤ fd)%Z ∧ open_files s !! fd = None.
Proof.
  unfold open_fd. intros H.
  destruct (Z.ltb_spec fd 0); [done|].
  destruct (open_files s !! fd); by simplify_eq.
Qed.

Lemma close_fd_inv fd s s' :
  close_fd fd s = Ok s' →
  s' = set_interest (delete fd (interest s))
         (set_open_files (delete fd (open_files s)) s)
  ∧ fd ≠ epoll_fd_ s ∧ fd ≠ control_fd_ s.
Proof.
  unfold close_fd. intros H.
  destruct (open_files s !! fd); [|done].
  case_bool_decide as Hown; simplify_eq.
  split; [done|]. split; intros ->; apply Hown; auto.
Qed.

Lemma open_fd_no_crash fd pollable s f : open_fd fd pollable s ≠ Crash f.
Proof. unfold open_fd. by repeat case_match. Qed.

Lemma close_fd_no_crash fd s f : close_fd fd s ≠ Crash f.
Proof. unfold close_fd. by repeat case_match. Qed.

Lemma run_cons_inv a schedule s s' :
  run (a :: schedule) s = Ok s' →
  ∃ s1, act a s = Ok s1 ∧ run schedule s1 = Ok s'.
Proof.
  simpl. destruct (act a s) as [s1| |] eqn:Hact; [|done..]. eauto.
Qed.

Lemma run_app schedule1 : ∀ schedule2 s s1,
  run schedule1 s = Ok s1 →
  run (schedule1 ++ schedule2) s = run schedule2 s1.
Proof.
  induction schedule1 as [|a schedule1 IH]; intros schedule2 s s1 H.
  - simpl in *. by simplify_eq.
  - destruct (run_cons_inv _ _ _ _ H) as (s' & Hact & Hrun).
    simpl. rewrite Hact. by apply IH.
Qed.

(** ** Reactor: counting regions *)

Section tally.
Context (f : Instr → nat).

Lemma tally_nil : tally f [] = 0.
Proof. reflexivity. Qed.

Lemma tally_cons th ths :
  tally f (th :: ths) = sum_list_with f th + tally f ths.
Proof. unfold tally. simpl. by rewrite sum_list_with_app. Qed.

Lemma tally_app ths1 ths2 :
  tally f (ths1 ++ ths2) = tally f ths1 + tally f ths2.
Proof.
  induction ths1 as [|th ths1 IH]; [done|].
  simpl. rewrite !tally_cons, IH. lia.
Qed.

(** A thread replaces the region it executes by what remains of it. *)
Lemma tally_insert ths : ∀ t i k next,
  ths !! t = Some (i :: k) →
  tally f (<[t := next ++ k]> ths) + f i
  = tally f ths + sum_list_with f next.
Proof.
  induction ths as [|th ths IH]; intros t i k next Hth; [done|].
  destruct t as [|t]; simpl in *.
  - simplify_eq. rewrite !tally_cons, sum_list_with_app. simpl. lia.
  - rewrite !tally_cons. specialize (IH _ _ _ next Hth). lia.
Qed.

Lemma tally_lookup_le ths t i k :
  ths !! t = Some (i :: k) → f i ≤ tally f ths.
Proof.
  intros Hth. pose proof (tally_insert ths t i k [] Hth) as H.
  simpl in H. lia.
Qed.

(** The calls a callback makes are not yet regions of any kind. *)
Lemma tally_calls (cs : list Call) :
  (∀ c, f (ICall c) = 0) → sum_list_with f (map ICall cs) = 0.
Proof.
  intros Hf. induction cs as [|c cs IH]; simpl; [done|].
  rewrite Hf, IH. done.
Qed.
End tally.

Lemma sum_run_frame_calls cs : sum_list_with run_frame (map ICall cs) = 0.
Proof. by apply tally_calls. Qed.

Lemma sum_unregister_of_calls r cs :
  sum_list_with (unregister_of r) (map ICall cs) = 0.
Proof. by apply tally_calls. Qed.

Lemma destroyed_count_cons r o tr :
  destroyed_count r (o :: tr) = destroyed r o + destroyed_count r tr.
Proof. reflexivity. Qed.

(** ** Reactor: the invariants hold in every reachable state *)

Lemma step_running t ready s s' :
  tally run_frame (threads s) = (if is_running_ s then 1 else 0) →
  step t ready s = Ok s' →
  tally run_frame (threads s') = (if is_running_ s' then 1 else 0).
Proof.
  intros Hinv Hstep.
  destruct (step_inv _ _ _ _ Hstep)
    as (i & k & next & s1 & Hth & Hexec & _ & ->).
  pose proof (tally_insert run_frame _ _ _ _ next Hth) as Hins.
  pose proof (tally_lookup_le run_frame _ _ _ _ Hth) as Hle.
  clear Hstep. simpl.
  exec_inv Hexec;
    rewrite ?sum_list_with_app, ?sum_run_frame_calls in Hins; simpl in *;
    repeat case_match; simplify_eq; first [congruence | lia].
Qed.

Lemma step_control t ready s s' :
  semaphore (control s) = false → step t ready s = Ok s' →
  semaphore (control s') = false.
Proof.
  intros Hinv Hstep.
  destruct (step_inv _ _ _ _ Hstep)
    as (i & k & next & s1 & Hth & Hexec & _ & ->).
  clear Hstep Hth. simpl.
  exec_inv Hexec; try done.
  all: repeat match goal with
       | H : eventfd_write _ _ = Some _ |- _ =>
           apply eventfd_write_semaphore in H
       | H : eventfd_read _ = _ |- _ => apply eventfd_read_semaphore in H
       end; congruence.
Qed.

Lemma step_fresh t ready s s' :
  wf s → step t ready s = Ok s' →
  ∀ r R, heap s' !! r = Some R → (r < next_ptr s')%positive ∧ (0 ≤ fd_ R)%Z.
Proof.
  intros Hwf Hstep r R.
  destruct (step_inv _ _ _ _ Hstep)
    as (i & k & next & s1 & Hth & Hexec & _ & ->).
  clear Hstep. simpl.
  pose proof (wf_fresh _ Hwf) as Hfresh. pose proof (wf_fd _ Hwf) as Hfd.
  exec_inv Hexec; intros Hr.
  all: try (split; [by eapply Hfresh | by eapply Hfd]).
  all: lookups.
  all: try (split; [by eapply Hfresh | by eapply Hfd]).
  all: try match goal with
       | H : epoll_ctl _ _ _ _ _ _ = inr _ |- _ => apply epoll_ctl_ok_fd in H
       end.
  all: try match goal with
       | H : heap _ !! ?r = Some _ |- (?r < Pos.succ _)%positive ∧ _ =>
           pose proof (Hfresh _ _ H); pose proof (Hfd _ _ H)
       end.
  all: try (split; [lia | by eauto]).
Qed.

Lemma wf_owned_at s r : wf s → owned_at s r.
Proof.
  intros Hwf. repeat split.
  - apply (wf_pending_le _ Hwf).
  - by apply (wf_pending _ Hwf).
  - by apply (wf_pending _ Hwf).
  - intros R. apply (wf_removed _ Hwf).
  - apply (wf_gone _ Hwf).
Qed.

Lemma step_owned t ready s s' r :
  wf s → step t ready s = Ok s' → owned_at s' r.
Proof.
  intros Hwf Hstep.
  destruct (step_inv _ _ _ _ Hstep)
    as (i & k & next & s1 & Hth & Hexec & _ & ->).
  clear Hstep.
  pose proof (tally_insert (unregister_of r) _ _ _ _ next Hth) as Hins.
  pose proof (wf_owned_at s r Hwf) as (Hle & Hpend & Hrem & Hgone).
  pose proof (wf_fresh _ Hwf) as Hfresh.
  unfold owned_at. simpl.
  exec_inv Hexec;
    rewrite ?sum_list_with_app, ?sum_unregister_of_calls in Hins;
    simpl in Hins.
  all: bool_hyps.
  all: match type of Hins with
       | ?a + _ = ?b + _ =>
           set (T' := a) in *; set (T := b) in *; clearbody T T'
       end.
  all: try (assert (T' = T) as -> by lia;
            split; [done|]; split; [done|]; split; done).
  all: try (assert (T ≠ 1) by (intros HT; apply Hpend in HT; by destruct HT)).
  all: (split; [lia|]).
  all: repeat match goal with
       | |- _ ∧ _ => split
       | |- ∀ _, _ => intro
       end.
  all: try lia.
  all: try (assert (T = 1) as HT1 by lia;
            destruct (Hpend HT1) as (Hin & R0 & HR0 & Hrm0)).
  all: lookups.
  all: try (apply elem_of_union;
            first [left; apply elem_of_singleton; reflexivity | right]).
  all: eauto.
  all: try (apply Hgone; [lia | done]).
  all: try (eexists; split; [first [eassumption | reflexivity] | done]).
  all: try (destruct (heap _ !! r) as [R1|] eqn:HR1;
            [destruct (removed_ R1) eqn:Hrm1; [exfalso; by eauto | by eauto]
            | exfalso; by eauto]).
  all: congruence.
Qed.

Lemma step_destroyed t ready s s' r :
  wf s → step t ready s = Ok s' →
  destroyed_count r (trace s') ≤ 1
  ∧ (destroyed_count r (trace s') = 1 →
       heap s' !! r = None ∧ (r < next_ptr s')%positive).
Proof.
  intros Hwf Hstep.
  destruct (step_inv _ _ _ _ Hstep)
    as (i & k & next & s1 & Hth & Hexec & _ & ->).
  clear Hstep Hth.
  pose proof (wf_destroyed_le _ Hwf r) as Hle.
  pose proof (wf_destroyed _ Hwf r) as Hdes.
  pose proof (wf_fresh _ Hwf) as Hfresh.
  simpl.
  exec_inv Hexec; rewrite ?destroyed_count_cons; simpl.
  all: try (split; [done|]; done).
  all: repeat case_decide; simplify_eq.
  all: set (D := destroyed_count r _) in *; clearbody D.
  all: split;
       [try lia
       | intros HD; try (destruct (Hdes HD) as [Hnone Hlt]);
         try (assert (D = 1) as HD1 by lia;
              destruct (Hdes HD1) as [Hnone Hlt])].
  all: lookups; try congruence.
  all: try (split; [done | lia]).
  all: try match goal with
       | H : heap _ !! ?r = Some _ |- _ => pose proof (Hfresh _ _ H)
       end.
  all: try (split; [done | lia]).
  all: try lia.
  all: assert (D ≠ 1) by (intros HD; destruct (Hdes HD); congruence); lia.
Qed.

Lemma wf_step t ready s s' : wf s → step t ready s = Ok s' → wf s'.
Proof.
  intros Hwf Hstep. split.
  - intros r R HR. by eapply step_fresh.
  - intros r R HR. by eapply step_fresh.
  - intros r. by eapply (step_owned t ready s s' r).
  - intros r. by eapply (step_owned t ready s s' r).
  - intros r. by eapply (step_owned t ready s s' r).
  - intros r. by eapply (step_owned t ready s s' r).
  - eapply step_running; [|done]. apply (wf_running _ Hwf).
  - intros r. by eapply (step_destroyed t ready s s' r).
  - intros r. by eapply (step_destroyed t ready s s' r).
  - eapply step_control; [|done]. apply (wf_control _ Hwf).
Qed.

Lemma wf_spawn program s :
  wf s → wf (set_threads (threads s ++ [map ICall program]) s).
Proof.
  intros Hwf.
  assert (∀ f, (∀ c, f (ICall c) = 0) →
            tally f (threads s ++ [map ICall program]) = tally f (threads s))
    as Htally.
  { intros f Hf. rewrite tally_app, tally_cons, tally_nil, tally_calls by done.
    lia. }
  split; simpl.
  - apply (wf_fresh _ Hwf).
  - apply (wf_fd _ Hwf).
  - intros r. rewrite Htally by done. apply (wf_pending_le _ Hwf).
  - intros r. rewrite Htally by done. apply (wf_pending _ Hwf).
  - apply (wf_removed _ Hwf).
  - apply (wf_gone _ Hwf).
  - rewrite Htally by done. apply (wf_running _ Hwf).
  - apply (wf_destroyed_le _ Hwf).
  - apply (wf_destroyed _ Hwf).
  - apply (wf_control _ Hwf).
Qed.

Lemma wf_act a s s' : wf s → act a s = Ok s' → wf s'.
Proof.
  destruct a as [program|t ready|fd pollable|fd]; simpl; intros Hwf H.
  - simplify_eq. by apply wf_spawn.
  - by eapply wf_step.
  - apply open_fd_inv in H as (-> & _). destruct Hwf. by split.
  - apply close_fd_inv in H as (-> & _). destruct Hwf. by split.
Qed.

Lemma wf_run schedule : ∀ s s', wf s → run schedule s = Ok s' → wf s'.
Proof.
  induction schedule as [|a schedule IH]; intros s s' Hwf H.
  - simpl in H. by simplify_eq.
  - destruct (run_cons_inv _ _ _ _ H) as (s1 & Hact & Hrun).
    eapply IH; [|done]. by eapply wf_act.
Qed.

Lemma wf_Reactor epoll_fd control_fd s :
  Reactor epoll_fd control_fd = Ok s → wf s.
Proof.
  unfold Reactor. intros H. repeat case_match; simplify_eq.
  split; simpl; try done.
  - intros r. rewrite tally_nil. lia.
  - intros r Hlt. by apply Pos.nlt_1_r in Hlt.
  - intros _. lia.
Qed.

Lemma reachable_wf s : reachable s → wf s.
Proof.
  intros (epoll_fd & control_fd & s0 & schedule & Hinit & Hrun).
  eapply wf_run; [|done]. by eapply wf_Reactor.
Qed.

Lemma reachable_run schedule s s' :
  reachable s → run schedule s = Ok s' → reachable s'.
Proof.
  intros (epoll_fd & control_fd & s0 & schedule0 & Hinit & Hrun) H.
  exists epoll_fd, control_fd, s0, (schedule0 ++ schedule).
  split; [done|]. by rewrite (run_app _ _ _ _ Hrun).
Qed.

Lemma reachable_step t ready s s' :
  reachable s → step t ready s = Ok s' → reachable s'.
Proof.
  intros Hreach Hstep. apply (reachable_run [Step t ready] s); [done|].
  simpl. by rewrite Hstep.
Qed.

(** [delete] never meets a reactable that is already destroyed. *)
Lemma step_no_double_free t ready s r :
  wf s → step t ready s ≠ Crash (DoubleFree r).
Proof.
  intros Hwf Hstep. unfold step in Hstep.
  destruct (threads s !! t) as [[|i k]|] eqn:Hth; try done.
  destruct (exec i ready s) as [[next s1]|f|] eqn:Hexec; try done.
  simplify_eq.
  exec_inv Hexec; lookups.
  pose proof (tally_lookup_le (unregister_of r) _ _ _ _ Hth) as Hge.
  simpl in Hge. case_decide; [|done].
  pose proof (wf_pending_le _ Hwf r) as Hle.
  destruct (wf_pending _ Hwf r) as (_ & R & HR & _); [lia|]. congruence.
Qed.

Lemma run_no_double_free schedule : ∀ s r,
  wf s → run schedule s ≠ Crash (DoubleFree r).
Proof.
  induction schedule as [|a schedule IH]; intros s r Hwf; [done|].
  simpl.
  destruct (act a s) as [s1|f|w] eqn:Hact; [|intros ?; simplify_eq|done].
  - apply IH. by eapply wf_act.
  - destruct a as [program|t ready|fd pollable|fd]; simpl in Hact.
    + done.
    + by eapply step_no_double_free.
    + by eapply open_fd_no_crash.
    + by eapply close_fd_no_crash.
Qed.

(** ** Reactor: the completion signals *)

Lemma step_signals t ready s s' :
  signals s → step t ready s = Ok s' → signals s'.
Proof.
  intros [Hrem Harm Hown Hidle Hother] Hstep.
  destruct (step_inv _ _ _ _ Hstep)
    as (i & k & next & s1 & Hth & Hexec & _ & ->).
  clear Hstep Hth.
  exec_inv Hexec.
  all: try (split; simpl; done).
  all: split; simpl.
  all: unfold not; intros; lookups.
  all: eauto.
  all: repeat match goal with
       | H1 : heap ?s !! ?r = Some ?R, H2 : finished_promise_ ?R = Some ?p
         |- _ =>
           lazymatch goal with
           | _ : promises s !! p = Some false |- _ => fail
           | _ => destruct (Harm _ _ _ H1 H2)
           end
       | H : idle_promise_ ?s = Some ?q |- _ =>
           lazymatch goal with
           | _ : (q < next_promise s)%positive |- _ => fail
           | _ => pose proof (Hidle _ H)
           end
       end.
  all: try (split; [done | lia]).
  all: try lia.
  all: try (intros ?; simplify_eq; lia).
  all: try by (eapply Hother).
  all: try by (exfalso; eapply Hother).
  all: simplify_eq; try lia.
  all: try (exfalso; lia).
  all: try congruence.
  match goal with
  | Hne : ?a ≠ ?b |- _ => exfalso; apply Hne; by eapply Hown
  end.
Qed.

Lemma signals_Reactor epoll_fd control_fd s :
  Reactor epoll_fd control_fd = Ok s → signals s.
Proof.
  unfold Reactor. intros H. repeat case_match; simplify_eq.
  split; simpl; done.
Qed.

Lemma signals_act a s s' : signals s → act a s = Ok s' → signals s'.
Proof.
  destruct a as [program|t ready|fd pollable|fd]; simpl; intros Hsig H.
  - simplify_eq. by destruct Hsig.
  - by eapply step_signals.
  - apply open_fd_inv in H as (-> & _). by destruct Hsig.
  - apply close_fd_inv in H as (-> & _). by destruct Hsig.
Qed.

Lemma signals_run schedule : ∀ s s',
  signals s → run schedule s = Ok s' → signals s'.
Proof.
  induction schedule as [|a schedule IH]; intros s s' Hsig H.
  - simpl in H. by simplify_eq.
  - destruct (run_cons_inv _ _ _ _ H) as (s1 & Hact & Hrun).
    eapply IH; [|done]. by eapply signals_act.
Qed.

Lemma reachable_signals s : reachable s → signals s.
Proof.
  intros (epoll_fd & control_fd & s0 & schedule & Hinit & Hrun).
  eapply signals_run; [|done]. by eapply signals_Reactor.
Qed.

(** ** Reactor: what stays the same *)

Lemma step_keeps t ready s s' r R :
  wf s → keeps r R s → step t ready s = Ok s' → keeps r R s'.
Proof.
  intros Hwf [Hlt Hkeep] Hstep.
  destruct (step_inv _ _ _ _ Hstep)
    as (i & k & next & s1 & Hth & Hexec & _ & ->).
  clear Hstep Hth. unfold keeps. simpl.
  pose proof (wf_fresh _ Hwf) as Hfresh.
  exec_inv Hexec.
  all: try (split; [done | done]).
  all: split; [try lia | intros R' HR'; lookups; eauto].
  all: try match goal with
       | H : heap _ !! _ = Some ?R0 |- fd_ ?R0 = _ ∧ _ =>
           by apply Hkeep
       end.
  all: try (apply Hfresh in HR'; lia).
  all: try match goal with
       | H : heap _ !! next_ptr _ = Some _ |- _ => apply Hfresh in H; lia
       end.
  all: lia.
Qed.

Lemma keeps_intro s r R : wf s → heap s !! r = Some R → keeps r R s.
Proof.
  intros Hwf HR. split; [by eapply wf_fresh|].
  intros R' HR'. by simplify_eq.
Qed.

Lemma run_keeps schedule : ∀ s s' r R,
  wf s → keeps r R s → run schedule s = Ok s' → keeps r R s'.
Proof.
  induction schedule as [|a schedule IH]; intros s s' r R Hwf Hkeep H.
  - simpl in H. by simplify_eq.
  - destruct (run_cons_inv _ _ _ _ H) as (s1 & Hact & Hrun).
    eapply IH; [by eapply wf_act| |done].
    destruct a as [program|t ready|fd pollable|fd]; simpl in Hact.
    + by simplify_eq.
    + by eapply step_keeps.
    + by apply open_fd_inv in Hact as (-> & _).
    + by apply close_fd_inv in Hact as (-> & _).
Qed.

(** The trace only grows. *)
Lemma step_trace t ready s s' :
  step t ready s = Ok s' → ∃ new, trace s' = new ++ trace s.
Proof.
  intros Hstep.
  destruct (step_inv _ _ _ _ Hstep)
    as (i & k & next & s1 & Hth & Hexec & _ & ->).
  clear Hstep Hth. simpl.
  exec_inv Hexec;
    first [by exists [] | by eexists [_] | by eexists [_; _]
          | by eexists [_; _; _]].
Qed.

Lemma run_trace schedule : ∀ s s',
  run schedule s = Ok s' → ∃ new, trace s' = new ++ trace s.
Proof.
  induction schedule as [|a schedule IH]; intros s s' H.
  - simpl in H. simplify_eq. by exists [].
  - destruct (run_cons_inv _ _ _ _ H) as (s1 & Hact & Hrun).
    destruct (IH _ _ Hrun) as [new2 H2].
    destruct a as [program|t ready|fd pollable|fd]; simpl in Hact.
    + simplify_eq. by exists new2.
    + destruct (step_trace _ _ _ _ Hact) as [new1 H1].
      exists (new2 ++ new1). by rewrite H2, H1, app_assoc.
    + apply open_fd_inv in Hact as (-> & _). by exists new2.
    + apply close_fd_inv in Hact as (-> & _). by exists new2.
Qed.

(** ** Reactor: the control channel *)

Lemma has_nonzero value mask : has value mask = true → value ≠ 0%N.
Proof. unfold has. intros H ->. by rewrite N.land_0_l in H. Qed.

Lemma has_kStopReactor value : has value kStopReactor = N.odd value.
Proof. by destruct value as [|[p|p|]]. Qed.

(** 157-171 on a control eventfd that holds something. *)
Lemma Run_control_value (s : State) (l : locals) (rest : list epoll_event) :
  semaphore (control s) = false → count (control s) ≠ 0%N →
  Run_control l rest s =
    if has (count (control s)) kStopReactor
    then Ok ([], set_trace (Returned CRun RVoid :: trace s)
                   (set_is_running_ false
                      (set_control (mk_eventfd 0 false) s)))
    else if has (count (control s)) kWaitForIdle
    then Ok ([IRun_event (mkLocals 30 true rest)],
             set_control (mk_eventfd 0 false) s)
    else Ok ([IRun_event (mkLocals (timeout_ms l) (waiting_for_idle l) rest)],
             set_trace (Logged (UnknownControlValue (count (control s)))
                        :: trace s)
               (set_control (mk_eventfd 0 false) s)).
Proof.
  intros Hsem Hnz.
  cbv beta iota zeta delta [Run_control bind ret get modify emit log].
  rewrite (eventfd_read_all _ Hsem Hnz). unfold has.
  destruct (negb (N.land (count (control s)) kStopReactor =? 0)%N);
    [reflexivity|].
  destruct (negb (N.land (count (control s)) kWaitForIdle =? 0)%N);
    reflexivity.
Qed.

(** 152-171 when the next event of the batch is the control event. *)
Lemma Run_event_control (s : State) (l : locals) (revents : N)
    (rest : list epoll_event) :
  batch l = mk_epoll_event revents None :: rest → revents ≠ 0%N →
  Run_event l s = Run_control l rest s.
Proof.
  intros Hbatch Hrev.
  cbv beta iota zeta delta [Run_event bind ret ASSERT crash].
  rewrite Hbatch. simpl.
  destruct (N.eqb_spec revents 0) as [|_]; [done|]. reflexivity.
Qed.

(** Every [Stop] adds one to the control counter. *)
Lemma Stop_adds_one (s : State) :
  (count (control s) + 1 < ULLONG_MAX)%N →
  ∃ s', Stop s = Ok ([], s')
        ∧ control s'
          = mk_eventfd (count (control s) + 1) (semaphore (control s))
        ∧ is_running_ s' = is_running_ s.
Proof.
  intros Hroom.
  cbv beta iota zeta delta [Stop bind ret get modify emit log crash].
  destruct (negb (is_running_ s)); simpl;
    rewrite (eventfd_write_room _ kStopReactor Hroom);
    eexists; (split; [reflexivity|]); done.
Qed.

(** What the loop makes of [n] calls of [Stop] that it reads at once: it
    returns when [n] is odd and carries on when [n] is even. *)
Lemma coalesced_Stops (s : State) (l : locals) (rest : list epoll_event) :
  semaphore (control s) = false → count (control s) ≠ 0%N →
  (∃ s', Run_control l rest s = Ok ([], s'))
  ↔ N.odd (count (control s)) = true.
Proof.
  intros Hsem Hnz. rewrite (Run_control_value _ _ _ Hsem Hnz).
  rewrite has_kStopReactor.
  destruct (N.odd (count (control s))).
  - split; [done|]. intros _. by eexists.
  - split; [|done]. intros [s' H].
    destruct (has (count (control s)) kWaitForIdle); by simplify_eq.
Qed.

(** ** Reactor: the invalidation list *)

(** 172-178: an event whose reactable is on the invalidation list is
    skipped; the reactable is not touched and no callback runs. *)
Lemma Run_event_skips (s : State) (l : locals) (revents : N) (r : ptr)
    (rest : list epoll_event) :
  batch l = mk_epoll_event revents (Some r) :: rest → revents ≠ 0%N →
  r ∈ invalidation_list_ s →
  Run_event l s
  = Ok ([IRun_event (mkLocals (timeout_ms l) (waiting_for_idle l) rest)],
        set_executing_reactable_finished_ None s).
Proof.
  intros Hbatch Hrev Hin.
  cbv beta iota zeta delta [Run_event bind ret get modify ASSERT crash].
  rewrite Hbatch. simpl.
  destruct (N.eqb_spec revents 0) as [|_]; [done|]. simpl.
  by rewrite bool_decide_eq_true_2.
Qed.

(** 236-240 put the reactable on the list, where it stays until the next
    pass clears the list. *)
Lemma Unregister_invalidates (s : State) (r : ptr) :
  r ∉ unregistered s → (r < next_ptr s)%positive →
  ∃ s', Unregister (Some r) s = Ok ([IUnregister_locked r], s')
        ∧ r ∈ invalidation_list_ s'.
Proof.
  intros Hnew Hlt.
  cbv beta iota zeta delta [Unregister bind ret get modify refuse].
  rewrite bool_decide_eq_false_2 by done.
  apply Pos.ltb_lt in Hlt. rewrite Hlt. simpl.
  eexists. split; [reflexivity|]. simpl. set_solver.
Qed.

(** * More about the reachable states *)

(** ** More invariants of the reachable states *)

Lemma step_coherent t ready s s' :
  coherent s → step t ready s = Ok s' → coherent s'.
Proof.
  intros [Hctl Hdata Hfd Hcfd] Hstep.
  destruct (step_inv _ _ _ _ Hstep)
    as (i & k & next & s1 & Hth & Hexec & _ & ->).
  clear Hstep Hth.
  exec_inv Hexec.
  all: try (split; simpl; done).
  all: repeat match goal with
       | H : epoll_ctl _ _ _ _ _ _ = inr _ |- _ =>
           apply epoll_ctl_inr in H; simpl in H; destruct_and?; subst
       end.
  all: split; simpl; intros; lookups; eauto.
  all: try congruence.
  all: try (exfalso; by eapply Hfd).
Qed.

(** The idle promise is unfulfilled as long as it is in its slot. *)
Lemma step_idle t ready s s' :
  signals s →
  (∀ q, idle_promise_ s = Some q → promises s !! q = Some false) →
  step t ready s = Ok s' →
  ∀ q, idle_promise_ s' = Some q → promises s' !! q = Some false.
Proof.
  intros [Hrem Harm Hown Hidle Hother] Hinv Hstep.
  destruct (step_inv _ _ _ _ Hstep)
    as (i & k & next & s1 & Hth & Hexec & _ & ->).
  clear Hstep Hth.
  exec_inv Hexec; intros q Hq; lookups; eauto.
  all: try (apply Hidle in Hq; lia).
  all: exfalso; by eapply Hother.
Qed.

(** A handle that was passed to [Unregister] came from [new]. *)
Lemma step_unregistered t ready s s' :
  (∀ r, r ∈ unregistered s → (r < next_ptr s)%positive) →
  step t ready s = Ok s' →
  ∀ r, r ∈ unregistered s' → (r < next_ptr s')%positive.
Proof.
  intros Hinv Hstep.
  destruct (step_inv _ _ _ _ Hstep)
    as (i & k & next & s1 & Hth & Hexec & _ & ->).
  clear Hstep Hth.
  exec_inv Hexec; intros x Hx; eauto.
  all: bool_hyps.
  - apply Hinv in Hx. lia.
  - apply elem_of_union in Hx as [Hx|Hx]; [|by eauto].
    apply elem_of_singleton in Hx. subst. done.
Qed.

Lemma sum_odd_locals_calls cs : sum_list_with odd_locals (map ICall cs) = 0.
Proof. by apply tally_calls. Qed.

Lemma step_locals t ready s s' :
  tally odd_locals (threads s) = 0 →
  step t ready s = Ok s' →
  tally odd_locals (threads s') = 0.
Proof.
  intros Hinv Hstep.
  destruct (step_inv _ _ _ _ Hstep)
    as (i & k & next & s1 & Hth & Hexec & _ & ->).
  pose proof (tally_insert odd_locals _ _ _ _ next Hth) as Hins.
  clear Hstep. simpl.
  exec_inv Hexec;
    rewrite ?sum_list_with_app, ?sum_odd_locals_calls in Hins.
  all: match type of Hins with
       | ?a + _ = ?b + _ =>
           set (T' := a) in *; set (T := b) in *; clearbody T T'
       end.
  all: unfold odd_locals in Hins; simpl in Hins;
       repeat case_bool_decide; try lia.
  all: exfalso; naive_solver.
Qed.

Lemma tally_add (f g h : Instr → nat) ths :
  (∀ i, f i + g i = h i) → tally f ths + tally g ths = tally h ths.
Proof.
  intros Hfg. unfold tally.
  induction (concat ths) as [|i l IH]; simpl; [done|].
  specialize (Hfg i). lia.
Qed.

Lemma tally_le (f g : Instr → nat) ths :
  (∀ i, f i ≤ g i) → tally f ths ≤ tally g ths.
Proof.
  intros Hfg. unfold tally.
  induction (concat ths) as [|i l IH]; simpl; [done|].
  specialize (Hfg i). lia.
Qed.

Lemma sum_dispatch_of_calls r cs :
  sum_list_with (dispatch_of r) (map ICall cs) = 0.
Proof. by apply tally_calls. Qed.

Lemma step_executing t ready s s' r :
  tally run_frame (threads s) = (if is_running_ s then 1 else 0) →
  executing_at s r → step t ready s = Ok s' → executing_at s' r.
Proof.
  intros Hrun [Hex Hrem] Hstep.
  destruct (step_inv _ _ _ _ Hstep)
    as (i & k & next & s1 & Hth & Hexec & _ & ->).
  clear Hstep.
  set (o := λ i, run_frame i - dispatch_of r i).
  pose proof (tally_insert (dispatch_of r) _ _ _ _ next Hth) as Hins.
  pose proof (tally_lookup_le o _ _ _ _ Hth) as Hle.
  pose proof (tally_lookup_le (dispatch_of r) _ _ _ _ Hth) as Hled.
  assert (tally (dispatch_of r) (threads s) + tally o (threads s)
          = tally run_frame (threads s)) as Hsum.
  { apply tally_add. intros j. unfold o.
    destruct j; simpl; try case_decide; lia. }
  assert (tally run_frame (threads s) ≤ 1) as Hrun1
    by (rewrite Hrun; destruct (is_running_ s); lia).
  clear Hrun. unfold executing_at. simpl.
  exec_inv Hexec;
    rewrite ?sum_list_with_app, ?sum_dispatch_of_calls in Hins;
    simpl in Hins.
  all: unfold o in Hle; simpl in Hle, Hled.
  all: match type of Hins with
       | ?a + _ = ?b + _ =>
           set (T' := a) in *; set (T := b) in *; clearbody T T'
       end.
  all: try (assert (T' = T) as -> by lia; split; done).
  all: split; intros R0 HR0; lookups; eauto.
  all: repeat case_decide; simplify_eq.
  all: try (intros HE; first [apply Hex in HE; [lia | done] | lia]).
  all: try lia.
  all: try congruence.
  all: intros _.
  all: try match goal with
       | H0 : heap _ !! _ = Some ?R, H1 : is_executing_ ?R = true |- _ =>
           pose proof (Hex _ H0 H1); lia
       end.
  all: unfold o in *; lia.
Qed.

(** ** epoll_wait: what a batch holds *)

Lemma deliverable_inv s timeout_ms ready :
  deliverable s timeout_ms ready = true →
  NoDup (ready.*1)
  ∧ length ready ≤ kEpollMaxEvents
  ∧ Forall (λ p, reportable s p = true) ready
  ∧ (ready = [] → (0 ≤ timeout_ms)%Z ∧ count (control s) = 0%N).
Proof.
  unfold deliverable. intros H.
  apply andb_true_iff in H as [H Hlast].
  apply andb_true_iff in H as [H Hall].
  apply andb_true_iff in H as [Hnodup Hlen].
  apply bool_decide_eq_true in Hnodup.
  split; [done|]. split; [by apply Nat.leb_le|]. split.
  - apply Forall_forall. intros [fd revents] Hin.
    rewrite forallb_forall in Hall. specialize (Hall (fd, revents)).
    unfold reportable. simpl. apply Hall. by apply list_elem_of_In.
  - intros ->. apply andb_true_iff in Hlast as [Ht Hc].
    split; [by apply Z.leb_le | by apply N.eqb_eq].
Qed.

Lemma epoll_wait_cons s p ready e :
  interest s !! p.1 = Some e →
  epoll_wait s (p :: ready)
  = mk_epoll_event p.2 (data_ptr e) :: epoll_wait s ready.
Proof.
  intros H. destruct p as [fd revents]. unfold epoll_wait. simpl in *.
  by rewrite H.
Qed.

Lemma epoll_wait_empty_events s ready :
  Forall (λ p, reportable s p = true) ready →
  empty_events (epoll_wait s ready) = 0.
Proof.
  induction 1 as [|p ready Hp _ IH]; [done|].
  unfold reportable in Hp.
  destruct (interest s !! p.1) as [e|] eqn:He; [|done].
  rewrite (epoll_wait_cons _ _ _ _ He). unfold empty_events in *. simpl.
  rewrite IH. destruct (p.2 =? 0)%N; [done | lia].
Qed.

(** The control eventfd is the one descriptor whose event has null user
    data, and a descriptor is reported once. *)
Lemma epoll_wait_control_events s ready :
  coherent s → NoDup (ready.*1) →
  Forall (λ p, reportable s p = true) ready →
  control_events (epoll_wait s ready)
  = if bool_decide (control_fd_ s ∈ ready.*1) then 1 else 0.
Proof.
  intros [Hctl Hdata _ _] Hnodup Hall.
  induction Hall as [|p ready Hp _ IH]; [done|].
  rewrite fmap_cons in Hnodup. apply NoDup_cons in Hnodup as [Hnotin Hnodup].
  unfold reportable in Hp.
  destruct (interest s !! p.1) as [e|] eqn:He; [|done].
  rewrite (epoll_wait_cons _ _ _ _ He). unfold control_events in *. simpl.
  rewrite (IH Hnodup).
  destruct (decide (p.1 = control_fd_ s)) as [Heq|Hne].
  - rewrite Heq in He, Hnotin. rewrite Hctl in He. simplify_eq. simpl.
    rewrite bool_decide_eq_false_2 by done.
    rewrite bool_decide_eq_true_2 by (rewrite Heq; apply list_elem_of_here).
    done.
  - destruct (data_ptr e) eqn:Hd; [|by apply Hdata in He].
    simpl.
    destruct (decide (control_fd_ s ∈ ready.*1)) as [Hin|Hout].
    + rewrite !bool_decide_eq_true_2;
        [done | by apply list_elem_of_further | done].
    + rewrite !bool_decide_eq_false_2; [done | | done].
      intros [?|?]%elem_of_cons; [congruence | done].
Qed.

Lemma epoll_wait_control s timeout_ms ready :
  coherent s → deliverable s timeout_ms ready = true →
  control_events (epoll_wait s ready) ≤ 1
  ∧ (control_events (epoll_wait s ready) = 1 → count (control s) ≠ 0%N).
Proof.
  intros Hcoh Hdel.
  destruct (deliverable_inv _ _ _ Hdel) as (Hnodup & _ & Hall & _).
  rewrite (epoll_wait_control_events _ _ Hcoh Hnodup Hall).
  case_bool_decide as Hin; [|split; [lia | done]].
  split; [lia|]. intros _.
  apply list_elem_of_fmap in Hin as ([fd revents] & Hfd & Hin). simpl in Hfd.
  rewrite Forall_forall in Hall. specialize (Hall _ Hin).
  unfold reportable in Hall. simpl in Hall. subst fd.
  destruct (interest s !! control_fd_ s); [|done].
  rewrite decide_True in Hall by done.
  apply andb_true_iff in Hall as [_ Hc]. apply negb_true_iff in Hc.
  by apply N.eqb_neq.
Qed.

Lemma tally_zero (f : Instr → nat) ths :
  tally f ths = 0 ↔ ∀ j, j ∈ concat ths → f j = 0.
Proof.
  unfold tally. induction (concat ths) as [|i l IH]; simpl.
  - split; [|done]. intros _ j Hj. by apply elem_of_nil in Hj.
  - split.
    + intros H j [->|Hj]%elem_of_cons; [lia|]. apply IH; [lia | done].
    + intros H. rewrite (H i) by apply list_elem_of_here.
      apply IH. intros j Hj. apply H. by apply list_elem_of_further.
Qed.

(** When thread [t] holds the only region of kind [g], it holds all there
    is of what only such regions have. *)
Lemma tally_rest (f g : Instr → nat) ths t i k :
  ths !! t = Some (i :: k) → (∀ j, g j = 0 → f j = 0) →
  tally g ths = g i → tally f ths = f i.
Proof.
  intros Hth Hfg Hg.
  pose proof (tally_insert f ths t i k [] Hth) as Hf.
  pose proof (tally_insert g ths t i k [] Hth) as Hg'.
  simpl in Hf, Hg'.
  assert (tally g (<[t := k]> ths) = 0) as Hz by lia.
  assert (tally f (<[t := k]> ths) = 0) as Hz'.
  { apply tally_zero. intros j Hj. apply Hfg.
    by apply (proj1 (tally_zero g _) Hz). }
  lia.
Qed.

Lemma step_batched t ready s s' :
  coherent s →
  tally run_frame (threads s) = (if is_running_ s then 1 else 0) →
  batched s → step t ready s = Ok s' → batched s'.
Proof.
  intros Hcoh Hrun [Hle Hctl Hev] Hstep.
  destruct (step_inv _ _ _ _ Hstep)
    as (i & k & next & s1 & Hth & Hexec & _ & ->).
  clear Hstep.
  pose proof (tally_insert control_in_batch _ _ _ _ next Hth) as HC.
  pose proof (tally_insert empty_in_batch _ _ _ _ next Hth) as HE.
  assert (run_frame i = 1 →
          tally control_in_batch (threads s) = control_in_batch i) as HCi.
  { intros Hi. apply (tally_rest _ run_frame _ t i k Hth).
    - by intros [].
    - pose proof (tally_lookup_le run_frame _ _ _ _ Hth).
      destruct (is_running_ s); lia. }
  clear Hrun.
  assert (∀ tmo, deliverable s tmo ready = true →
            control_events (epoll_wait s ready) ≤ 1
            ∧ (control_events (epoll_wait s ready) = 1 →
                 count (control s) ≠ 0%N)
            ∧ empty_events (epoll_wait s ready) = 0) as Hwait.
  { intros tmo Hdel.
    destruct (epoll_wait_control _ _ _ Hcoh Hdel) as [? ?].
    destruct (deliverable_inv _ _ _ Hdel) as (_ & _ & Hall & _).
    by rewrite (epoll_wait_empty_events _ _ Hall). }
  clear Hcoh.
  exec_inv Hexec;
    rewrite ?sum_list_with_app, ?tally_calls in HC, HE by done.
  all: bool_hyps.
  all: try specialize (HCi eq_refl).
  all: split; simpl.
  all: repeat match goal with
       | H : tally ?f ?a + _ = tally ?f ?b + _ |- _ =>
           let T' := fresh "T'" in let T := fresh "T" in
           set (T' := tally f a) in *; set (T := tally f b) in *;
           clearbody T T'
       end.
  all: unfold control_in_batch, empty_in_batch, frame_batch in HC, HE, HCi;
       simpl in HC, HE, HCi.
  all: repeat match goal with
       | H : batch _ = _ |- _ =>
           rewrite H in HC, HE, HCi;
           unfold control_events, empty_events in HC, HE, HCi;
           simpl in HC, HE, HCi;
           clear H
       | H : eventfd_write _ _ = Some _ |- _ => apply eventfd_write_count in H
       | H : deliverable _ _ _ = true |- _ =>
           destruct (Hwait _ H) as (? & ? & ?); clear H
       end.
  all: clear Hwait.
  all: repeat case_match; simplify_eq; simpl in *; try lia.
  all: try (intros HT; first [apply Hctl; lia | lia]).
  all: repeat match goal with
       | H : data_ptr _ = _ |- _ => rewrite H in *; clear H
       | H : (events _ =? 0)%N = _ |- _ => rewrite H in *; clear H
       end.
  all: intros HT; lia.
Qed.

Lemma tally_spawn (f : Instr → nat) ths program :
  (∀ c, f (ICall c) = 0) →
  tally f (ths ++ [map ICall program]) = tally f ths.
Proof.
  intros Hf. rewrite tally_app, tally_cons, tally_nil, tally_calls by done.
  lia.
Qed.

Lemma settled_Reactor epoll_fd control_fd s :
  Reactor epoll_fd control_fd = Ok s → settled s.
Proof.
  intros (Hcfd & Hne & ->)%Reactor_inv.
  split; [split|split|..]; simpl; try done.
  - by rewrite lookup_insert_eq.
  - intros fd e He Hd. destruct (decide (fd = control_fd)); [done|].
    by rewrite lookup_insert_ne in He.
  - rewrite tally_nil. lia.
Qed.

Lemma settled_act a s s' :
  wf s → signals s → settled s → act a s = Ok s' → settled s'.
Proof.
  intros Hwf Hsig [Hcoh Hbat Hidle Hunr Hloc Hex] Hact.
  destruct a as [program|t ready|fd pollable|fd]; simpl in Hact.
  - simplify_eq. destruct Hcoh, Hbat.
    split; [split|split|..]; simpl; rewrite ?tally_spawn by done; try done.
    intros r. destruct (Hex r) as [H1 H2].
    split; simpl; rewrite ?tally_spawn by done; done.
  - split.
    + by eapply step_coherent.
    + eapply step_batched; [done| |done..]. apply (wf_running _ Hwf).
    + by eapply step_idle.
    + by eapply step_unregistered.
    + by eapply step_locals.
    + intros r. eapply step_executing; [|done..]. apply (wf_running _ Hwf).
  - apply open_fd_inv in Hact as (-> & _). destruct Hcoh, Hbat. by split.
  - apply close_fd_inv in Hact as (-> & _ & Hnc). destruct Hcoh, Hbat.
    split; [split|split|..]; simpl; try done.
    + by rewrite lookup_delete_ne.
    + intros fd' e He. apply lookup_delete_Some in He as [_ He]. eauto.
Qed.

Lemma settled_run schedule : ∀ s s',
  wf s → signals s → settled s → run schedule s = Ok s' → settled s'.
Proof.
  induction schedule as [|a schedule IH]; intros s s' Hwf Hsig Hset H.
  - simpl in H. by simplify_eq.
  - destruct (run_cons_inv _ _ _ _ H) as (s1 & Hact & Hrun).
    eapply IH; [by eapply wf_act | by eapply signals_act | | done].
    by eapply settled_act.
Qed.

Lemma reachable_settled s : reachable s → settled s.
Proof.
  intros (epoll_fd & control_fd & s0 & schedule & Hinit & Hrun).
  eapply settled_run; [| | |done].
  - by eapply wf_Reactor.
  - by eapply signals_Reactor.
  - by eapply settled_Reactor.
Qed.

(** ** The descriptor table and the interest list *)

Lemma step_opened t ready s s' :
  opened s → step t ready s = Ok s' → opened s'.
Proof.
  intros [Hw He Hfd Hnn] Hstep.
  destruct (step_inv _ _ _ _ Hstep)
    as (i & k & next & s1 & Hth & Hexec & _ & ->).
  clear Hstep Hth.
  exec_inv Hexec.
  all: try (split; simpl; done).
  all: repeat match goal with
       | H : epoll_ctl _ _ _ _ _ _ = inr _ |- _ =>
           apply epoll_ctl_inr in H; simpl in H; destruct_and?; subst
       end.
  all: split; simpl; intros; lookups; eauto.
  all: match goal with
       | H : is_Some (interest _ !! _) |- _ => destruct H as [e0 He0]; eauto
       end.
Qed.

Lemma opened_Reactor epoll_fd control_fd s :
  Reactor epoll_fd control_fd = Ok s → opened s.
Proof.
  intros (Hcfd & Hne & ->)%Reactor_inv.
  split; simpl.
  - intros fd e He. apply lookup_insert_Some in He as [[<- _]|[_ He]]; [|done].
    by rewrite lookup_insert_eq.
  - rewrite lookup_insert_ne by done. rewrite lookup_singleton_eq. by eexists.
  - done.
  - intros fd [p Hp] Hnf.
    apply lookup_insert_Some in Hp as [[<- _]|[_ Hp]]; [done|].
    apply lookup_singleton_Some in Hp as [<- _]. done.
Qed.

Lemma opened_act a s s' : opened s → act a s = Ok s' → opened s'.
Proof.
  intros Hop Hact.
  destruct a as [program|t ready|fd pollable|fd]; simpl in Hact.
  - simplify_eq. by destruct Hop.
  - by eapply step_opened.
  - apply open_fd_inv in Hact as (-> & Hfd & Hnew).
    destruct Hop as [Hw He Hr Hnn]. split; simpl; try done.
    + intros fd' e Hin. destruct (Hw _ _ Hin) as [Ho Hne].
      split; [|done]. rewrite lookup_insert_ne; [done|]. congruence.
    + destruct He as [b Hb]. exists b.
      rewrite lookup_insert_ne; [done|]. congruence.
    + intros fd' [b Hb] Hne.
      apply lookup_insert_Some in Hb as [[<- _]|[_ Hb]]; [done|]. eauto.
  - apply close_fd_inv in Hact as (-> & Hne & Hnc).
    destruct Hop as [Hw He Hr Hnn]. split; simpl; try done.
    + intros fd' e Hin. apply lookup_delete_Some in Hin as [Hd Hin].
      destruct (Hw _ _ Hin) as [Ho Hn]. split; [|done].
      by rewrite lookup_delete_ne.
    + by rewrite lookup_delete_ne.
    + intros fd' [b Hb] Hn. apply lookup_delete_Some in Hb as [_ Hb]. eauto.
Qed.

Lemma opened_run schedule : ∀ s s',
  opened s → run schedule s = Ok s' → opened s'.
Proof.
  induction schedule as [|a schedule IH]; intros s s' Hop H.
  - simpl in H. by simplify_eq.
  - destruct (run_cons_inv _ _ _ _ H) as (s1 & Hact & Hrun).
    eapply IH; [|done]. by eapply opened_act.
Qed.

Lemma reachable_opened s : reachable s → opened s.
Proof.
  intros (epoll_fd & control_fd & s0 & schedule & Hinit & Hrun).
  eapply opened_run; [|done]. by eapply opened_Reactor.
Qed.

(** In a reachable state [epoll_ctl] is the call of the kernel, test by
    test. *)
Lemma epoll_ctl_order (s : State) (op : epoll_op) (fd : Z)
    (ev : epoll_event) :
  reachable s →
  epoll_ctl (epoll_fd_ s) op fd ev (open_files s) (interest s)
  = epoll_ctl_in_order (epoll_fd_ s) op fd ev (open_files s) (interest s).
Proof.
  intros Hreach.
  pose proof (opn_watched _ (reachable_opened _ Hreach) fd) as Hw.
  unfold epoll_ctl, epoll_ctl_in_order.
  destruct (fd <? 0)%Z; [done|].
  destruct (interest s !! fd) as [e|] eqn:He.
  - destruct (Hw e eq_refl) as [-> Hne]. rewrite decide_False by done.
    by destruct op.
  - destruct (open_files s !! fd) as [[]|]; [|done..].
    case_decide; [done|]. by destruct op.
Qed.

Lemma elem_of_concat_lookup {A} (ls : list (list A)) t l (x : A) :
  ls !! t = Some l → x ∈ l → x ∈ concat ls.
Proof.
  intros Hl Hx. apply list_elem_of_In, in_concat. exists l.
  split; apply list_elem_of_In; [by eapply list_elem_of_lookup_2 | done].
Qed.

(** ** The future that WaitForUnregisteredReactable waits on *)

Lemma step_slot t ready s s' :
  wf s → signals s →
  (∀ q, idle_promise_ s = Some q → promises s !! q = Some false) →
  slot_ok s → step t ready s = Ok s' → slot_ok s'.
Proof.
  intros Hwf [Hrem Harm Hown Hidle Hother] Harmed Hslot Hstep.
  destruct (step_inv _ _ _ _ Hstep)
    as (i & k & next & s1 & Hth & Hexec & _ & ->).
  clear Hstep.
  pose proof (wf_pending _ Hwf) as Hpend.
  pose proof (wf_pending_le _ Hwf) as Hple.
  unfold slot_ok in *. simpl.
  exec_inv Hexec; intros p0 Hp0; simplify_eq.
  (* 256-257: the slot is given a new signal *)
  all: try (split; [lia|]; right;
            split; [by rewrite lookup_insert_eq|];
            eexists _, _; split_and!;
            [by rewrite lookup_insert_eq | done | done]; fail).
  all: first
         [ destruct (Hslot _ Hp0)
             as (Hlt & [[Ht Hno]|[Hf (rx & Rx & HRx & HPx & Hrmx)]])
         | destruct (Hslot _ eq_refl)
             as (Hlt & [[Ht Hno]|[Hf (rx & Rx & HRx & HPx & Hrmx)]]) ].
  all: (split; [first [done | lia]|]).
  all: try pose proof (wf_fresh _ Hwf _ _ HRx) as Hfrx.
  all: try (left; split;
            [ lookups; first [done | congruence | lia]
            | intros r' R' HR'; lookups; simpl;
              first [by eapply Hno | done | congruence] ]; fail).
  all: try (right; split;
            [ lookups; first [done | congruence | lia]
            | first
                [ exists rx, Rx; split_and!; lookups; first [done | lia]
                | eexists rx, _; split_and!;
                  [lookups; reflexivity | simpl; done..] ] ]; fail).
  - (* 261-264: the reactable that is deleted is not marked removed *)
    match goal with
    | Hth : threads _ !! _ = Some (IUnregister_delete ?r :: _) |- _ =>
        pose proof (tally_lookup_le (unregister_of r) _ _ _ _ Hth) as Hge;
        simpl in Hge; rewrite decide_True in Hge by done;
        destruct (Hpend r) as (_ & R' & HR' & Hrm');
        [specialize (Hple r); lia|]
    end.
    right. split; [done|]. exists rx, Rx. split_and!; [|done..].
    rewrite lookup_delete_ne; [done|]. intros ->. congruence.
  - (* 148: the idle promise is not a completion signal *)
    match goal with
    | H : idle_promise_ _ = Some ?p |- _ =>
        assert (p ≠ p0) as Hne
          by (intros ->; eapply Hother;
              [first [reflexivity | eassumption] | exact HRx | exact HPx])
    end.
    right. split; [by rewrite lookup_insert_ne|]. by exists rx, Rx.
  - (* 194-198: the signal is fulfilled and the reactable destroyed *)
    match goal with
    | HR : heap _ !! ?r = Some ?R0, HP : finished_promise_ ?R0 = Some ?p,
      _ : removed_ ?R0 = true |- context [delete ?r _] =>
        destruct (decide (rx = r)) as [->|Hne];
        [ assert (p = p0) as -> by congruence;
          left; split; [by rewrite lookup_insert_eq|];
          intros r2 R2 HR2 HP2; rewrite delete_insert_eq in HR2;
          apply lookup_delete_Some in HR2 as [Hne2 HR2];
          apply Hne2; by eapply Hown
        | assert (p ≠ p0) as Hnp
            by (intros ->; apply Hne; by eapply Hown);
          right; split; [by rewrite lookup_insert_ne|];
          exists rx, Rx; split_and!; [|done..];
          by rewrite delete_insert_eq, lookup_delete_ne ]
    end.
  - (* 193: only is_executing_ changes *)
    match goal with
    | HR : heap _ !! ?r = Some ?R0 |- context [<[?r := _]> _] =>
        destruct (decide (rx = r)) as [->|Hne]; [congruence|];
        right; split; [done|];
        exists rx, Rx; split_and!; [|done..];
        by rewrite lookup_insert_ne
    end.
Qed.

Lemma slot_Reactor epoll_fd control_fd s :
  Reactor epoll_fd control_fd = Ok s → slot_ok s.
Proof.
  unfold Reactor. intros H. repeat case_match; simplify_eq.
  intros p Hp. done.
Qed.

Lemma slot_run schedule : ∀ s s',
  wf s → signals s → settled s → slot_ok s → run schedule s = Ok s' →
  slot_ok s'.
Proof.
  induction schedule as [|a schedule IH]; intros s s' Hwf Hsig Hset Hslot H.
  - simpl in H. by simplify_eq.
  - destruct (run_cons_inv _ _ _ _ H) as (s1 & Hact & Hrun).
    eapply IH;
      [by eapply wf_act | by eapply signals_act | by eapply settled_act
      | | done].
    destruct a as [program|t ready|fd pollable|fd]; simpl in Hact.
    + by simplify_eq.
    + eapply step_slot; [done | done | | done | done].
      apply (stl_idle _ Hset).
    + by apply open_fd_inv in Hact as (-> & _).
    + by apply close_fd_inv in Hact as (-> & _).
Qed.

Lemma reachable_slot s : reachable s → slot_ok s.
Proof.
  intros (epoll_fd & control_fd & s0 & schedule & Hinit & Hrun).
  eapply slot_run; [| | | |done].
  - by eapply wf_Reactor.
  - by eapply signals_Reactor.
  - by eapply settled_Reactor.
  - by eapply slot_Reactor.
Qed.

(** ** The faults a step can end in *)

Lemma step_fault (s : State) (t : nat) (ready : list (Z * N)) (f : Fault) :
  reachable s → step t ready s = Crash f →
  (∃ r, f = UseAfterFree r)
  ∨ f = NullDeref 148
  ∨ ∃ line, f = AssertFailed line
            ∧ line ∈ [130; 209; 231; 236; 249; 288; 295; 310].
Proof.
  intros Hreach Hstep.
  pose proof (reachable_wf _ Hreach) as Hwf.
  pose proof (reachable_signals _ Hreach) as Hsig.
  destruct (reachable_settled _ Hreach) as [_ Hbat Hidle _ _ _].
  destruct Hbat as [HCle HCnz HE].
  assert (∀ r, f ≠ DoubleFree r) as Hnd
    by (intros r ->; by eapply step_no_double_free).
  unfold step in Hstep.
  destruct (threads s !! t) as [[|i k]|] eqn:Hth; try done.
  destruct (exec i ready s) as [[next s1]|f'|] eqn:Hexec; try done.
  simplify_eq.
  pose proof (tally_lookup_le control_in_batch _ _ _ _ Hth) as HCi.
  pose proof (tally_lookup_le empty_in_batch _ _ _ _ Hth) as HEi.
  set (TC := tally control_in_batch (threads s)) in *.
  set (TE := tally empty_in_batch (threads s)) in *.
  clearbody TC TE.
  exec_inv Hexec; lookups; eauto.
  all: try (exfalso; by eapply Hnd).
  all: try (right; right; eexists; split; [reflexivity|];
            repeat first [apply list_elem_of_here | apply list_elem_of_further];
            fail).
  all: exfalso.
  all: unfold control_in_batch, empty_in_batch, frame_batch in HCi, HEi;
       simpl in HCi, HEi.
  all: bool_hyps.
  all: try match goal with
       | H : batch _ = _ |- _ =>
           rewrite H in HCi, HEi;
           unfold control_events, empty_events in HCi, HEi;
           simpl in HCi, HEi
       end.
  all: try match goal with
       | Hi : idle_promise_ _ = Some ?p, H : promises _ !! ?p = _ |- _ =>
           (* 148: the idle promise is unfulfilled *)
           rewrite (Hidle p) in H by done; done
       | HR : heap _ !! _ = Some ?R, HP : finished_promise_ ?R = Some ?p,
         H : promises _ !! ?p = _ |- _ =>
           (* 195: so is the completion signal *)
           destruct (sig_armed _ Hsig _ _ _ HR HP); congruence
       | HR : heap _ !! _ = Some ?R, Hrem : removed_ ?R = true,
         HP : finished_promise_ ?R = None |- _ =>
           (* 195: a removed reactable has one *)
           destruct (sig_removed _ Hsig _ _ HR Hrem); congruence
       | H : (events _ =? 0)%N = true |- _ =>
           (* 154 *)
           rewrite H in HEi; lia
       | Hd : data_ptr _ = None, H : eventfd_read _ = (None, _) |- _ =>
           (* 159-160: the control counter is not zero *)
           rewrite Hd in HCi; unfold eventfd_read in H;
           match type of H with
           | context [(?c =? 0)%N] =>
               destruct (N.eqb_spec c 0) as [Hz|Hnz];
               [apply HCnz; [lia | done]
               | by destruct (semaphore (control _))]
           end
       end.
Qed.

(** ** Regions with their results *)

Lemma run_Step t ready rest s i k next s1 :
  threads s !! t = Some (i :: k) →
  exec i ready s = Ok (next, s1) →
  run (Step t ready :: rest) s
  = run rest (set_threads (<[t := next ++ k]> (threads s)) s1).
Proof.
  intros Hth Hexec. simpl. by rewrite (step_intro _ _ _ _ _ _ _ Hth Hexec).
Qed.

(** The control eventfd can be reported alone when its counter is not
    zero. *)
Lemma deliverable_control s timeout_ms :
  interest s !! control_fd_ s = Some (mk_epoll_event EPOLLIN None) →
  count (control s) ≠ 0%N →
  deliverable s timeout_ms [(control_fd_ s, EPOLLIN)] = true
  ∧ epoll_wait s [(control_fd_ s, EPOLLIN)] = [mk_epoll_event EPOLLIN None].
Proof.
  intros Hctl Hnz. unfold deliverable, epoll_wait. simpl. rewrite Hctl. simpl.
  rewrite decide_True by done.
  apply N.eqb_neq in Hnz. rewrite Hnz. done.
Qed.

(** 204-210 outside [Run]. *)
Lemma Stop_not_running (s : State) :
  is_running_ s = false → (count (control s) + 1 < ULLONG_MAX)%N →
  Stop s
  = Ok ([], set_trace (Returned CStop RVoid :: Logged NotRunning :: trace s)
              (set_control
                 (mk_eventfd (count (control s) + 1) (semaphore (control s)))
                 s)).
Proof.
  intros Hrun Hroom.
  cbv beta iota zeta delta [Stop bind ret get modify emit log crash].
  rewrite Hrun. simpl.
  by rewrite (eventfd_write_room _ kStopReactor Hroom).
Qed.

(** 128-133 *)
Lemma Run_enters (s : State) :
  is_running_ s = false →
  Run s = Ok ([IRun_top (-1) false], set_is_running_ true s).
Proof.
  intros Hrun.
  cbv beta iota zeta delta [Run bind ret get modify ASSERT crash].
  by rewrite Hrun.
Qed.

(** 139-150 when only the control eventfd is reported. *)
Lemma Run_wait_control (s : State) (timeout_ms : Z) (waiting_for_idle : bool)
    (fd : Z) :
  fd = control_fd_ s →
  interest s !! fd = Some (mk_epoll_event EPOLLIN None) →
  count (control s) ≠ 0%N →
  Run_wait timeout_ms waiting_for_idle [(fd, EPOLLIN)] s
  = Ok ([IRun_event (mkLocals timeout_ms waiting_for_idle
                       [mk_epoll_event EPOLLIN None])], s).
Proof.
  intros -> Hctl Hnz.
  destruct (deliverable_control s timeout_ms Hctl Hnz) as [Hdel Hwait].
  cbv beta iota zeta delta [Run_wait bind ret get refuse].
  rewrite Hdel, Hwait. simpl. by rewrite andb_false_r.
Qed.

(** 279-285 *)
Lemma WaitForIdle_arms (s : State) (timeout : Z) :
  WaitForIdle timeout s
  = Ok ([IWaitForIdle_write (next_promise s) timeout],
        set_idle_promise_ (Some (next_promise s))
          (set_next_promise (Pos.succ (next_promise s))
             (set_promises (<[next_promise s := false]> (promises s)) s))).
Proof. reflexivity. Qed.

(** 287-288 *)
Lemma WaitForIdle_write_adds (s : State) (p : promise_id) (timeout : Z) :
  (count (control s) + 2 < ULLONG_MAX)%N →
  WaitForIdle_write p timeout s
  = Ok ([IWaitForIdle_wait p timeout],
        set_control
          (mk_eventfd (count (control s) + 2) (semaphore (control s))) s).
Proof.
  intros Hroom.
  cbv beta iota zeta delta [WaitForIdle_write bind ret get modify crash].
  by rewrite (eventfd_write_room _ kWaitForIdle Hroom).
Qed.

(** 290-291 *)
Lemma WaitForIdle_wait_result (s : State) (p : promise_id) (timeout : Z)
    (ready : bool) :
  promises s !! p = Some ready →
  WaitForIdle_wait p timeout s
  = Ok ([], set_trace (Returned (CWaitForIdle timeout) (RBool ready)
                       :: trace s) s).
Proof.
  intros Hp.
  cbv beta iota zeta delta [WaitForIdle_wait bind ret modify emit
                            wait_for_ready].
  rewrite Hp. by destruct ready.
Qed.

(** 267-277 without the clock: [WaitForUnregisteredReactable] returns true
    with no wait when [executing_reactable_finished_] is null; otherwise
    its result is the state of the stored future when the wait ends, and a
    wait that ends unfulfilled is logged.  How long the wait lasts is not
    part of the state, so nothing is said here about the timeout. *)
Lemma WaitForUnregisteredReactable_result (s : State) (timeout : Z) :
  match executing_reactable_finished_ s with
  | None =>
      WaitForUnregisteredReactable timeout s
      = Ok ([], set_trace
                  (Returned (CWaitForUnregisteredReactable timeout)
                     (RBool true) :: trace s) s)
  | Some future =>
      if bool_decide (promises s !! future = Some true)
      then WaitForUnregisteredReactable timeout s
           = Ok ([], set_trace
                       (Returned (CWaitForUnregisteredReactable timeout)
                          (RBool true) :: trace s) s)
      else WaitForUnregisteredReactable timeout s
           = Ok ([], set_trace
                       (Returned (CWaitForUnregisteredReactable timeout)
                          (RBool false)
                        :: Logged UnregisterTimedOut :: trace s) s)
  end.
Proof.
  cbv beta iota zeta delta
    [WaitForUnregisteredReactable bind ret get modify emit log wait_for_ready].
  destruct (executing_reactable_finished_ s) as [future|]; [|reflexivity].
  case_bool_decide as Hp.
  - rewrite Hp. reflexivity.
  - destruct (promises s !! future) as [[]|]; try done.
Qed.

(** 139-150 when epoll_wait times out while the loop waits for idleness. *)
Lemma Run_wait_idle (s : State) (timeout_ms : Z) (p : promise_id) :
  (0 ≤ timeout_ms)%Z → count (control s) = 0%N →
  idle_promise_ s = Some p → promises s !! p = Some false →
  Run_wait timeout_ms true [] s
  = Ok ([IRun_event (mkLocals (-1) false [])],
        set_idle_promise_ None
          (set_trace (Fulfilled p :: trace s)
             (set_promises (<[p := true]> (promises s)) s))).
Proof.
  intros Htmo Hcount Hidle Hp.
  cbv beta iota zeta delta [Run_wait bind ret get modify emit refuse crash
                            set_value].
  unfold deliverable. simpl. rewrite Hcount. simpl.
  apply Z.leb_le in Htmo. rewrite Htmo. simpl.
  rewrite Hidle, Hp. reflexivity.
Qed.

(** 152: the batch is done. *)
Lemma Run_event_done (s : State) (l : locals) :
  batch l = [] →
  Run_event l s = Ok ([IRun_top (timeout_ms l) (waiting_for_idle l)], s).
Proof. intros Hb. unfold Run_event. by rewrite Hb. Qed.

(** 172-184: the event of a reactable that is alive and not on the
    invalidation list. *)
Lemma Run_event_dispatches (s : State) (l : locals) (event : epoll_event)
    (rest : list epoll_event) (r : ptr) (R : Reactable) :
  batch l = event :: rest → events event ≠ 0%N → data_ptr event = Some r →
  r ∉ invalidation_list_ s → heap s !! r = Some R →
  Run_event l s
  = Ok ([IRun_read (mkLocals (timeout_ms l) (waiting_for_idle l) rest)
           event r],
        set_heap (<[r := mkReactable (fd_ R) (on_read_ready_ R)
                           (on_write_ready_ R) true (removed_ R)
                           (finished_promise_ R)]> (heap s))
          (set_executing_reactable_finished_ None s)).
Proof.
  intros Hb Hev Hd Hout HR.
  cbv beta iota zeta delta
    [Run_event bind ret get modify ASSERT crash deref store].
  rewrite Hb. simpl. apply N.eqb_neq in Hev. rewrite Hev, Hd. simpl.
  rewrite bool_decide_eq_false_2 by done. simpl. by rewrite HR.
Qed.

(** 185-187 when the read callback is not due. *)
Lemma Run_read_skips (s : State) (l : locals) (event : epoll_event)
    (r : ptr) (R : Reactable) :
  heap s !! r = Some R →
  is_null (on_read_ready_ R) = true ∨ has (events event) read_mask = false →
  Run_read l event r s = Ok ([IRun_write l event r], s).
Proof.
  intros HR Hskip.
  cbv beta iota zeta delta [Run_read bind ret modify emit deref].
  rewrite HR. destruct (on_read_ready_ R); [|done].
  destruct Hskip as [|Hno]; [done|].
  unfold has, read_mask in Hno. by rewrite Hno.
Qed.

(** 188-190 when the write callback is not due. *)
Lemma Run_write_skips (s : State) (l : locals) (event : epoll_event)
    (r : ptr) (R : Reactable) :
  heap s !! r = Some R →
  is_null (on_write_ready_ R) = true ∨ has (events event) EPOLLOUT = false →
  Run_write l event r s = Ok ([IRun_finish l r], s).
Proof.
  intros HR Hskip.
  cbv beta iota zeta delta [Run_write bind ret modify emit deref].
  rewrite HR. destruct (on_write_ready_ R); [|done].
  destruct Hskip as [|Hno]; [done|].
  unfold has in Hno. by rewrite Hno.
Qed.

(** 191-199 for a reactable that was not unregistered meanwhile. *)
Lemma Run_finish_keeps (s : State) (l : locals) (r : ptr) (R : Reactable) :
  heap s !! r = Some R → removed_ R = false →
  Run_finish l r s
  = Ok ([IRun_event l],
        set_heap (<[r := mkReactable (fd_ R) (on_read_ready_ R)
                           (on_write_ready_ R) false (removed_ R)
                           (finished_promise_ R)]> (heap s)) s).
Proof.
  intros HR Hrem.
  cbv beta iota zeta delta [Run_finish bind ret modify deref store].
  by rewrite HR, Hrem.
Qed.

(** Only 135-138 take anything off the invalidation list. *)
Lemma step_invalidation_list t ready s s' r :
  step t ready s = Ok s' → r ∈ invalidation_list_ s →
  r ∈ invalidation_list_ s'
  ∨ ∃ timeout_ms waiting_for_idle k,
      threads s !! t = Some (IRun_top timeout_ms waiting_for_idle :: k).
Proof.
  intros Hstep Hin.
  destruct (step_inv _ _ _ _ Hstep)
    as (i & k & next & s1 & Hth & Hexec & _ & ->).
  clear Hstep. simpl.
  exec_inv Hexec; eauto.
  left. apply elem_of_app. by left.
Qed.

(** ** Event: counting, and closing *)

Lemma Event_Notify_n_room n : ∀ e,
  (count (Event.ctx e) + N.of_nat n < ULLONG_MAX)%N →
  Event.Notify_n n e
  = Some (Event.mk_impl (Event.fd_ e)
            (mk_eventfd (count (Event.ctx e) + N.of_nat n)
               (semaphore (Event.ctx e)))).
Proof.
  induction n as [|n IH]; intros e Hroom.
  - simpl. destruct e as [fd [c sem]]. simpl. by rewrite N.add_0_r.
  - simpl. unfold Event.Notify.
    rewrite eventfd_write_room by lia.
    rewrite IH by (simpl; lia). simpl. do 3 f_equal. lia.
Qed.

(** [m] reads of a semaphore: as many succeed as the counter holds. *)
Lemma Event_Read_n_semaphore m : ∀ e,
  semaphore (Event.ctx e) = true →
  Event.Read_n m e
  = (replicate (m `min` N.to_nat (count (Event.ctx e))) true
     ++ replicate (m - N.to_nat (count (Event.ctx e))) false,
     Event.mk_impl (Event.fd_ e)
       (mk_eventfd
          (count (Event.ctx e)
           - N.of_nat (m `min` N.to_nat (count (Event.ctx e)))) true)).
Proof.
  induction m as [|m IH]; intros e Hsem.
  - simpl. destruct e as [fd [c sem]]. simpl in *. subst.
    by rewrite N.sub_0_r.
  - simpl. destruct (N.eqb_spec (count (Event.ctx e)) 0) as [Hz|Hnz].
    + rewrite (Event_Read_zero _ Hz), (Event_Read_n_zero _ _ Hz).
      rewrite Hz. simpl.
      destruct e as [fd [c sem]]. simpl in *. by subst.
    + rewrite (Event_Read_nonzero _ Hsem Hnz). rewrite IH by done. simpl.
      replace (N.to_nat (count (Event.ctx e)))
        with (S (N.to_nat (count (Event.ctx e) - 1))) by lia.
      simpl. do 3 f_equal. lia.
Qed.

Lemma close_open fd (open : gset Z) :
  fd ∈ open → close fd open = Some (open ∖ {[fd]}).
Proof. intros Hin. unfold close. by rewrite bool_decide_eq_true_2. Qed.

Lemma close_closed fd (open : gset Z) : fd ∉ open → close fd open = None.
Proof. intros Hout. unfold close. by rewrite bool_decide_eq_false_2. Qed.

(** * The properties of the specification *)

(** C1.  Two calls of [Stop] that the loop reads at once are not seen as a
    STOP: each call adds kStopReactor = 1 to the control eventfd, which is
    not a semaphore, so the one read returns 2, which is kWaitForIdle.  After
    the batch [Run] has not returned, the running flag is still set, and the
    loop waits for idleness with the 30 ms timeout; when the next epoll_wait
    times out it goes through the null idle promise. *)
Theorem two_Stops_read_as_WaitForIdle :
  ∃ s0 s,
    Reactor 3 4 = Ok s0
    ∧ run two_stops s0 = Ok s
    ∧ is_running_ s = true
    ∧ threads s = [[IRun_event (mkLocals 30 true [])]; []]
    ∧ count (control s) = 0%N
    ∧ trace s = [Returned CStop RVoid; Logged NotRunning;
                 Returned CStop RVoid; Logged NotRunning]
    ∧ run (two_stops ++ idle_pass) s0 = Crash (NullDeref 148).
Proof.
  eexists _, _. split; [reflexivity|]. split; [vm_compute; reflexivity|].
  repeat split; vm_compute; reflexivity.
Qed.

(** C2.  An [Unregister] on one thread that is overtaken by the start of the
    next pass on the reactor thread: the reactable is put on the
    invalidation list (236-240); the loop clears the list (135-138) and
    epoll_wait reports the descriptor, which is still registered (141); the
    other thread removes the descriptor, finds the reactable idle, destroys
    it and returns (241-264).  The loop then reaches the event: the list is
    empty, the event is not skipped, and the loop goes on to the destroyed
    reactable. *)
Theorem Unregister_overtaken_by_next_pass :
  ∃ s0 s,
    Reactor 3 4 = Ok s0
    ∧ run unregister_race s0 = Ok s
    ∧ trace s = [Returned (CUnregister (Some 1%positive)) RVoid;
                 Destroyed 1%positive;
                 Returned (CRegister 5 (Some []) None) (RPtr 1%positive)]
    ∧ heap s !! 1%positive = None
    ∧ threads s !! 0
      = Some [IRun_event
                (mkLocals (-1) false
                   [mk_epoll_event EPOLLIN (Some 1%positive)])]
    ∧ invalidation_list_ s = []
    ∧ step 0 [] s = Crash (UseAfterFree 1%positive).
Proof.
  eexists _, _. split; [reflexivity|]. split; [vm_compute; reflexivity|].
  repeat split; vm_compute; reflexivity.
Qed.

(** C3, amended.  In every reachable state, for every reactable [r]:
    [Unregister] first takes the descriptor of [r] off the interest list
    (245-250, by the cases of [Unregister_del]) and then decides, still
    under the lock of [r] (254-259): when [r] is not executing it goes on to
    the delete, and when [r] is executing it sets [removed_], creates the
    promise, stores its future in [executing_reactable_finished_] and
    returns with [r] alive; an [Unregister] that is about to delete finds
    [r] alive, destroys it and then returns (261-264).  A reactable that is
    marked removed is executing: the loop is in the dispatch of one event of
    [r] (183-199), and no [Unregister] of [r] is under way.  In that
    dispatch the read callback is followed by line 188, where the write
    callback is invoked when it is due, whether [r] is marked removed or
    not, and that by 191-199; there a removed [r] has an unfulfilled
    promise, which is fulfilled first, and [r] is destroyed next.  [delete]
    ran at most once on [r], and no schedule ends in a second [delete] of a
    reactable. *)
Theorem Unregister_destroys_once (s : State) (r : ptr) :
  reachable s →
  (∀ R, heap s !! r = Some R →
     match Unregister_del (fd_ R) s with
     | Ok s1 =>
         if is_executing_ R
         then
           let p := next_promise s in
           Unregister_locked r s =
             Ok ([], set_trace
                       (Returned (CUnregister (Some r)) RVoid :: trace s1)
                       (set_executing_reactable_finished_ (Some p)
                          (set_heap
                             (<[r := mkReactable (fd_ R) (on_read_ready_ R)
                                       (on_write_ready_ R) true true
                                       (Some p)]> (heap s))
                             (set_next_promise (Pos.succ p)
                                (set_promises (<[p := false]> (promises s))
                                   s1)))))
         else Unregister_locked r s = Ok ([IUnregister_delete r], s1)
     | Crash f => Unregister_locked r s = Crash f
     | Refused _ => False
     end)
  ∧ (∀ t k, threads s !! t = Some (IUnregister_delete r :: k) →
       is_Some (heap s !! r)
       ∧ step t [] s =
           Ok (set_threads (<[t := k]> (threads s))
                 (set_trace (Returned (CUnregister (Some r)) RVoid
                             :: Destroyed r :: trace s)
                    (set_heap (delete r (heap s)) s))))
  ∧ (∀ R, heap s !! r = Some R → removed_ R = true →
       is_executing_ R = true
       ∧ tally (dispatch_of r) (threads s) = 1
       ∧ tally (unregister_of r) (threads s) = 0)
  ∧ (∀ R l event, heap s !! r = Some R →
       (∃ body s',
          Run_read l event r s
          = Ok (map ICall body ++ [IRun_write l event r], s'))
       ∧ Run_write l event r s =
           match on_write_ready_ R with
           | Some body =>
               if has (events event) EPOLLOUT
               then Ok (map ICall body ++ [IRun_finish l r],
                        set_trace (Invoked r OnWrite :: trace s) s)
               else Ok ([IRun_finish l r], s)
           | None => Ok ([IRun_finish l r], s)
           end)
  ∧ (∀ R l, heap s !! r = Some R → removed_ R = true →
       ∃ p,
         finished_promise_ R = Some p
         ∧ promises s !! p = Some false
         ∧ Run_finish l r s =
             Ok ([IRun_event l],
                 set_trace (Destroyed r :: Fulfilled p :: trace s)
                   (set_heap (delete r (heap s))
                      (set_promises (<[p := true]> (promises s)) s))))
  ∧ destroyed_count r (trace s) ≤ 1
  ∧ (∀ schedule r', run schedule s ≠ Crash (DoubleFree r')).
Proof.
  intros Hreach. pose proof (reachable_wf _ Hreach) as Hwf.
  split; [|split; [|split; [|split; [|split; [|split]]]]].
  - intros R HR.
    pose proof (wf_fd _ Hwf _ _ HR) as Hfd.
    cbv beta iota zeta delta
      [Unregister_locked bind ret get modify emit log crash deref store
       new_promise].
    rewrite HR. unfold Unregister_del.
    destruct (interest s !! fd_ R) as [old|] eqn:Hold.
    + rewrite (epoll_ctl_del _ _ _ old) by done.
      destruct (is_executing_ R) eqn:E; simpl; rewrite ?E; reflexivity.
    + rewrite epoll_ctl_off_list by done.
      destruct (open_files s !! fd_ R) as [[]|]; [|done..].
      case_decide; [done|].
      destruct (is_executing_ R) eqn:E; simpl; rewrite ?E; reflexivity.
  - intros t k Hth.
    pose proof (tally_lookup_le (unregister_of r) _ _ _ _ Hth) as Hge.
    simpl in Hge. case_decide; [|done].
    pose proof (wf_pending_le _ Hwf r) as Hle.
    destruct (wf_pending _ Hwf r) as (_ & R & HR & _); [lia|].
    split; [by eexists|].
    erewrite step_intro; [|done|].
    2: { cbv beta iota zeta delta
           [exec Unregister_delete bind ret modify emit delete_Reactable].
         rewrite HR. reflexivity. }
    reflexivity.
  - intros R HR Hrem.
    destruct (stl_executing _ (reachable_settled _ Hreach) r) as [Hex Hrx].
    pose proof (Hrx _ HR Hrem) as E.
    split; [done|]. split; [by eapply Hex|].
    pose proof (wf_pending_le _ Hwf r) as Hle.
    destruct (decide (tally (unregister_of r) (threads s) = 1)) as [H1|];
      [|lia].
    destruct (wf_pending _ Hwf r H1) as (_ & R' & HR' & Hno). congruence.
  - intros R l event HR. split.
    + cbv beta iota zeta delta [Run_read bind ret modify emit deref].
      rewrite HR.
      destruct (on_read_ready_ R) as [body|];
        [destruct (negb (N.land (events event) _ =? 0)%N)|].
      * exists body. eexists. reflexivity.
      * exists []. eexists. reflexivity.
      * exists []. eexists. reflexivity.
    + cbv beta iota zeta delta [Run_write bind ret modify emit deref has].
      rewrite HR.
      destruct (on_write_ready_ R) as [body|]; [|reflexivity].
      destruct (negb (N.land (events event) EPOLLOUT =? 0)%N); reflexivity.
  - intros R l HR Hrem.
    pose proof (reachable_signals _ Hreach) as Hsig.
    destruct (sig_removed _ Hsig _ _ HR Hrem) as [p Hp].
    destruct (sig_armed _ Hsig _ _ _ HR Hp) as [Harmed _].
    exists p. split; [done|]. split; [done|].
    cbv beta iota zeta delta
      [Run_finish bind ret modify emit deref store set_value delete_Reactable
       crash].
    rewrite HR, Hrem, Hp. simpl. rewrite Harmed. simpl.
    rewrite lookup_insert_eq. simpl.
    by rewrite delete_insert_eq.
  - apply (wf_destroyed_le _ Hwf).
  - intros schedule r'. by apply run_no_double_free.
Qed.

Lemma Unregister_destroys_once_witness :
  ∃ s0 s,
    Reactor 3 4 = Ok s0
    ∧ run (self_unregister ++ [Step 0 []; Step 0 []]) s0 = Ok s
    ∧ threads s !! 0
      = Some [IUnregister_locked 1%positive;
              IRun_write (mkLocals (-1) false [])
                (mk_epoll_event 5 (Some 1%positive)) 1%positive]
    ∧ Unregister_del 5 s = Ok (set_interest (delete 5%Z (interest s)) s)
    ∧ (∃ s', Unregister_locked 1%positive s = Ok ([], s')
             ∧ executing_reactable_finished_ s' = Some 1%positive
             ∧ promises s' !! 1%positive = Some false
             ∧ heap s' !! 1%positive
               = Some (mkReactable 5 (Some [CUnregister (Some 1%positive)])
                         (Some []) true true (Some 1%positive)))
    ∧ destroyed_count 1%positive (trace s) ≤ 1
    ∧ (∀ schedule r', run schedule s ≠ Crash (DoubleFree r')).
Proof.
  eexists _, _. split; [reflexivity|]. split; [vm_compute; reflexivity|].
  split; [vm_compute; reflexivity|].
  split; [vm_compute; reflexivity|].
  match goal with
  | |- (∃ s', Unregister_locked _ ?s = _ ∧ _) ∧ _ =>
      assert (reachable s) as Hreach
        by (exists 3%Z, 4%Z;
            eexists _, (self_unregister ++ [Step 0 []; Step 0 []]);
            split; [reflexivity | vm_compute; reflexivity]);
      destruct (Unregister_destroys_once s 1%positive Hreach)
        as (Hlocked & _ & _ & _ & _ & Hcount & Hfree);
      specialize (Hlocked (mkReactable 5 (Some [CUnregister (Some 1%positive)])
                             (Some []) true false None) eq_refl)
  end.
  split; [|split; [exact Hcount | exact Hfree]].
  eexists. split; [exact Hlocked|].
  repeat split; vm_compute; reflexivity.
Defined.

(** C3 as stated fails.  The read callback of an event that reports EPOLLIN
    and EPOLLOUT unregisters its reactable.  When the callback has returned,
    [Unregister] has returned in it and the reactable is marked removed; the
    next step of the loop (188-190) does not destroy the reactable but
    invokes its write callback, with the promise still unfulfilled. *)
Lemma write_callback_after_Unregister :
  ∃ s0 s s',
    Reactor 3 4 = Ok s0
    ∧ run self_unregister_read s0 = Ok s
    ∧ trace s
      = [Returned (CUnregister (Some 1%positive)) RVoid;
         Invoked 1%positive OnRead;
         Returned
           (CRegister 5 (Some [CUnregister (Some 1%positive)]) (Some []))
           (RPtr 1%positive)]
    ∧ threads s !! 0
      = Some [IRun_write (mkLocals (-1) false [])
                (mk_epoll_event 5 (Some 1%positive)) 1%positive]
    ∧ heap s !! 1%positive
      = Some (mkReactable 5 (Some [CUnregister (Some 1%positive)]) (Some [])
                true true (Some 1%positive))
    ∧ step 0 [] s = Ok s'
    ∧ trace s' = Invoked 1%positive OnWrite :: trace s
    ∧ heap s' !! 1%positive = heap s !! 1%positive
    ∧ promises s' !! 1%positive = Some false
    ∧ destroyed_count 1%positive (trace s') = 0.
Proof.
  eexists _, _, _. split; [reflexivity|]. split; [vm_compute; reflexivity|].
  split; [vm_compute; reflexivity|]. split; [vm_compute; reflexivity|].
  split; [vm_compute; reflexivity|]. split; [vm_compute; reflexivity|].
  repeat split; vm_compute; reflexivity.
Qed.

(** C4, amended.  A control value that is read is never zero, and the loop
    takes one branch on it: with the STOP bit set it clears the running flag
    and returns from [Run], whatever the other bits are; otherwise, with the
    WAIT_FOR_IDLE bit set, it goes on with the 30 ms timeout and the
    waiting-for-idle flag; otherwise, with no known bit set, it logs the
    value and goes on with its locals unchanged.  The read takes the whole
    counter in each case. *)
Theorem control_value_decoded (s : State) (l : locals) (revents : N)
    (rest : list epoll_event) :
  semaphore (control s) = false →
  count (control s) ≠ 0%N →
  batch l = mk_epoll_event revents None :: rest →
  revents ≠ 0%N →
  let value := count (control s) in
  let drained := set_control (mk_eventfd 0 false) s in
  Run_event l s =
    if has value kStopReactor
    then Ok ([], set_trace (Returned CRun RVoid :: trace s)
                   (set_is_running_ false drained))
    else if has value kWaitForIdle
    then Ok ([IRun_event (mkLocals 30 true rest)], drained)
    else Ok ([IRun_event (mkLocals (timeout_ms l) (waiting_for_idle l) rest)],
             set_trace (Logged (UnknownControlValue value) :: trace s)
               drained).
Proof.
  intros Hsem Hnz Hbatch Hrev value drained.
  rewrite (Run_event_control _ _ _ _ Hbatch Hrev).
  by apply Run_control_value.
Qed.

Lemma control_value_decoded_witness :
  Run_event (mkLocals (-1) false [mk_epoll_event EPOLLIN None])
    (control_pending 4)
  = Ok ([IRun_event (mkLocals (-1) false [])],
        set_trace [Logged (UnknownControlValue 4)]
          (set_control (mk_eventfd 0 false) (control_pending 4))).
Proof.
  apply (control_value_decoded (control_pending 4)
           (mkLocals (-1) false [mk_epoll_event EPOLLIN None]) EPOLLIN []).
  - reflexivity.
  - discriminate.
  - reflexivity.
  - discriminate.
Defined.

(** C4 as stated fails.  The value 3 has the WAIT_FOR_IDLE bit set, and the
    loop returns from [Run] without the short timeout or the waiting flag;
    the value 5 has the unknown bit 4 set, and nothing is logged. *)
Lemma control_value_3_and_5 :
  has 3 kWaitForIdle = true
  ∧ Run_event (mkLocals (-1) false [mk_epoll_event EPOLLIN None])
      (control_pending 3)
    = Ok ([], set_trace [Returned CRun RVoid]
                (set_is_running_ false
                   (set_control (mk_eventfd 0 false) (control_pending 3))))
  ∧ has 5 4 = true
  ∧ Run_event (mkLocals (-1) false [mk_epoll_event EPOLLIN None])
      (control_pending 5)
    = Ok ([], set_trace [Returned CRun RVoid]
                (set_is_running_ false
                   (set_control (mk_eventfd 0 false) (control_pending 5)))).
Proof. repeat split; vm_compute; reflexivity. Qed.

(** C7.  [Register] in a reachable state.  The event set it asks for has
    EPOLLIN and EPOLLRDHUP exactly when the read callback is not null,
    EPOLLOUT exactly when the write callback is not null, and no other bit.
    When the descriptor is open, can be polled, is not the epoll descriptor
    of the reactor and is not yet on the interest list, the call returns:
    the reactable is newly allocated, holds the descriptor and the two
    callbacks, and is neither executing nor removed; the interest list maps
    the descriptor to that event set with the reactable's address as user
    data; and that address is returned.  For every other descriptor
    epoll_ctl fails and line 231 aborts. *)
Theorem Register_watches (s : State) (fd : Z)
    (on_read_ready on_write_ready : Closure) :
  reachable s →
  let reactable := next_ptr s in
  let poll_event_type :=
    Register_poll_event_type on_read_ready on_write_ready in
  has poll_event_type EPOLLIN = negb (is_null on_read_ready)
  ∧ has poll_event_type EPOLLRDHUP = negb (is_null on_read_ready)
  ∧ has poll_event_type EPOLLOUT = negb (is_null on_write_ready)
  ∧ N.land poll_event_type (N.lor EPOLLIN (N.lor EPOLLRDHUP EPOLLOUT))
    = poll_event_type
  ∧ heap s !! reactable = None
  ∧ Register fd on_read_ready on_write_ready s =
      if bool_decide (open_files s !! fd = Some true ∧ fd ≠ epoll_fd_ s
                      ∧ interest s !! fd = None)
      then
        Ok ([], set_trace
                  (Returned (CRegister fd on_read_ready on_write_ready)
                     (RPtr reactable) :: trace s)
                  (set_interest
                     (<[fd := mk_epoll_event poll_event_type
                                (Some reactable)]> (interest s))
                     (set_next_ptr (Pos.succ reactable)
                        (set_heap
                           (<[reactable :=
                                mkReactable fd on_read_ready on_write_ready
                                  false false None]> (heap s)) s))))
      else Crash (AssertFailed 231).
Proof.
  intros Hreach reactable pet.
  split; [by destruct on_read_ready, on_write_ready|].
  split; [by destruct on_read_ready, on_write_ready|].
  split; [by destruct on_read_ready, on_write_ready|].
  split; [by destruct on_read_ready, on_write_ready|].
  split.
  { destruct (heap s !! reactable) as [R|] eqn:HR; [|done].
    apply (wf_fresh _ (reachable_wf _ Hreach)) in HR.
    unfold reactable in HR. lia. }
  pose proof (opn_nonneg _ (reachable_opened _ Hreach) fd) as Hnn.
  cbv beta iota zeta delta
    [Register bind ret get modify emit new_Reactable crash].
  simpl. case_bool_decide as Hok.
  - destruct Hok as (Hopen & Hne & Hnone).
    rewrite epoll_ctl_add; [done| |done..].
    apply Hnn; [by eexists | done].
  - unfold epoll_ctl. destruct (fd <? 0)%Z; [done|].
    destruct (interest s !! fd) as [e|] eqn:He; [done|].
    destruct (open_files s !! fd) as [[]|] eqn:Ho; [|done..].
    case_decide; [done|]. exfalso. by apply Hok.
Qed.

Lemma Register_watches_witness :
  ∃ s0 s,
    Reactor 3 4 = Ok s0
    ∧ run [Open 5 true] s0 = Ok s
    ∧ has (N.lor EPOLLIN EPOLLRDHUP) EPOLLOUT = false
    ∧ (∃ s',
         Register 5 (Some []) None s = Ok ([], s')
         ∧ interest s' !! 5%Z
           = Some (mk_epoll_event (N.lor EPOLLIN EPOLLRDHUP)
                     (Some 1%positive))
         ∧ heap s' !! 1%positive
           = Some (mkReactable 5 (Some []) None false false None)
         ∧ trace s'
           = [Returned (CRegister 5 (Some []) None) (RPtr 1%positive)])
    ∧ Register 3 (Some []) None s = Crash (AssertFailed 231)
    ∧ Register 6 (Some []) None s = Crash (AssertFailed 231).
Proof.
  eexists _, _. split; [reflexivity|]. split; [vm_compute; reflexivity|].
  match goal with
  | |- _ ∧ (∃ s', Register _ _ _ ?s = _ ∧ _) ∧ _ =>
      assert (reachable s) as Hreach
        by (exists 3%Z, 4%Z; eexists _, [Open 5 true];
            split; [reflexivity | vm_compute; reflexivity]);
      destruct (Register_watches s 5 (Some []) None Hreach)
        as (_ & _ & Hout & _ & _ & Hreg);
      destruct (Register_watches s 3 (Some []) None Hreach)
        as (_ & _ & _ & _ & _ & Hepoll);
      destruct (Register_watches s 6 (Some []) None Hreach)
        as (_ & _ & _ & _ & _ & Hclosed)
  end.
  split; [exact Hout|]. split; [|split; [exact Hepoll | exact Hclosed]].
  eexists. split; [exact Hreg|].
  repeat split; vm_compute; reflexivity.
Defined.

(** C8.  [ModifyRegistration] on a reactable that is alive and registered
    (the interest list maps its descriptor to an event with the reactable
    as user data): the call succeeds, the event set becomes EPOLLIN and
    EPOLLRDHUP for read-only, EPOLLOUT for write-only and all three for
    read-write, the user data is the same address, and nothing else
    changes: no reactable, no callback, no other entry of the interest
    list, no member of the reactor. *)
Theorem ModifyRegistration_frame (s : State) (r : ptr) (R : Reactable)
    (react_on : ReactOn) (old : N) :
  heap s !! r = Some R → (0 ≤ fd_ R)%Z →
  interest s !! fd_ R = Some (mk_epoll_event old (Some r)) →
  let poll_event_type := Modify_poll_event_type react_on in
  poll_event_type =
    match react_on with
    | REACT_ON_READ_ONLY => N.lor EPOLLIN EPOLLRDHUP
    | REACT_ON_WRITE_ONLY => EPOLLOUT
    | REACT_ON_READ_WRITE => N.lor (N.lor EPOLLIN EPOLLRDHUP) EPOLLOUT
    end
  ∧ ModifyRegistration (Some r) react_on s =
      Ok ([], set_trace
                (Returned (CModifyRegistration (Some r) react_on) RVoid
                 :: trace s)
                (set_interest
                   (<[fd_ R := mk_epoll_event poll_event_type (Some r)]>
                      (interest s)) s)).
Proof.
  intros HR Hfd Hreg pet. split; [by destruct react_on|].
  cbv beta iota zeta delta [ModifyRegistration bind ret get modify emit deref].
  rewrite HR. erewrite epoll_ctl_mod by done. reflexivity.
Qed.

Lemma ModifyRegistration_frame_witness :
  ∃ s0 s,
    Reactor 3 4 = Ok s0
    ∧ run [Open 5 true; Spawn [CRegister 5 (Some []) (Some [])]; Step 0 []]
        s0 = Ok s
    ∧ ModifyRegistration (Some 1%positive) REACT_ON_WRITE_ONLY s =
        Ok ([], set_trace
                  (Returned
                     (CModifyRegistration (Some 1%positive)
                        REACT_ON_WRITE_ONLY) RVoid :: trace s)
                  (set_interest
                     (<[5%Z := mk_epoll_event EPOLLOUT (Some 1%positive)]>
                        (interest s)) s)).
Proof.
  eexists _, _. split; [reflexivity|]. split; [vm_compute; reflexivity|].
  refine (proj2 (ModifyRegistration_frame _ 1%positive
                   (mkReactable 5 (Some []) (Some []) false false None)
                   REACT_ON_WRITE_ONLY 8197 _ _ _)).
  - vm_compute. reflexivity.
  - simpl. lia.
  - vm_compute. reflexivity.
Defined.

(** C9.  In every reachable state the running flag is set exactly when a
    thread is inside [Run] (and then it is one thread).  [Run] sets the
    flag on entry, and aborts when it was set.  When the loop reads a
    control value with the STOP bit, it clears the flag and [Run] returns:
    no thread is inside [Run] any more, and a call of [Run] in that state
    passes the assertion and enters the loop. *)
Theorem is_running_while_Run (s : State) :
  reachable s →
  tally run_frame (threads s) = (if is_running_ s then 1 else 0)
  ∧ Run s = (if is_running_ s
             then Crash (AssertFailed 130)
             else Ok ([IRun_top (-1) false], set_is_running_ true s))
  ∧ ∀ t l k revents rest,
      threads s !! t = Some (IRun_event l :: k) →
      batch l = mk_epoll_event revents None :: rest →
      revents ≠ 0%N →
      has (count (control s)) kStopReactor = true →
      ∃ s',
        step t [] s = Ok s'
        ∧ is_running_ s' = false
        ∧ threads s' !! t = Some k
        ∧ tally run_frame (threads s') = 0
        ∧ trace s' = Returned CRun RVoid :: trace s
        ∧ Run s' = Ok ([IRun_top (-1) false], set_is_running_ true s').
Proof.
  intros Hreach. pose proof (reachable_wf _ Hreach) as Hwf.
  split; [apply (wf_running _ Hwf)|]. split.
  { cbv beta iota zeta delta [Run bind ret get modify ASSERT crash].
    by destruct (is_running_ s). }
  intros t l k revents rest Hth Hbatch Hrev Hstop.
  assert (exec (IRun_event l) [] s
          = Ok ([], set_trace (Returned CRun RVoid :: trace s)
                      (set_is_running_ false
                         (set_control (mk_eventfd 0 false) s)))) as Hexec.
  { simpl. rewrite (Run_event_control _ _ _ _ Hbatch Hrev).
    rewrite (Run_control_value _ _ _ (wf_control _ Hwf)
               (has_nonzero _ _ Hstop)).
    by rewrite Hstop. }
  pose proof (step_intro _ _ _ _ _ _ _ Hth Hexec) as Hstep.
  pose proof (wf_running _ (wf_step _ _ _ _ Hwf Hstep)) as Hrun'.
  eexists. split; [exact Hstep|]. split; [done|]. split.
  { simpl. by rewrite list_lookup_insert_eq by (by eapply lookup_lt_Some). }
  split; [exact Hrun'|]. split; [done|].
  reflexivity.
Qed.

Lemma is_running_while_Run_witness :
  ∃ s0 s,
    Reactor 3 4 = Ok s0
    ∧ run register_then_stop s0 = Ok s
    ∧ is_running_ s = true
    ∧ tally run_frame (threads s) = 1
    ∧ Run s = Crash (AssertFailed 130)
    ∧ ∃ s',
        step 0 [] s = Ok s'
        ∧ is_running_ s' = false
        ∧ threads s' !! 0 = Some []
        ∧ tally run_frame (threads s') = 0
        ∧ trace s' = Returned CRun RVoid :: trace s
        ∧ Run s' = Ok ([IRun_top (-1) false], set_is_running_ true s').
Proof.
  eexists _, _. split; [reflexivity|]. split; [vm_compute; reflexivity|].
  split; [reflexivity|].
  match goal with
  | |- tally _ (threads ?s) = _ ∧ _ =>
      assert (reachable s) as Hreach
        by (exists 3%Z, 4%Z; eexists _, register_then_stop;
            split; [reflexivity | vm_compute; reflexivity]);
      destruct (is_running_while_Run s Hreach) as (Htally & Hentry & Hstop)
  end.
  split; [exact Htally|]. split; [exact Hentry|].
  apply (Hstop 0 (mkLocals (-1) false [mk_epoll_event EPOLLIN None]) []
           EPOLLIN []).
  - reflexivity.
  - reflexivity.
  - discriminate.
  - reflexivity.
Defined.

(** C10.  The loop is about to run the callbacks (185) of an event that
    reports one of EPOLLIN, EPOLLHUP, EPOLLRDHUP, EPOLLERR together with
    EPOLLOUT, for a reactable with both callbacks.  Its next step invokes the
    read callback, and leaves the write callback behind the body of the read
    callback.  Whatever any thread does in between, when the thread comes to
    188 with the reactable alive, its step invokes the write callback: in
    the trace the read callback comes first. *)
Theorem read_ready_before_write_ready (s : State) (t : nat) (l : locals)
    (event : epoll_event) (r : ptr) (R : Reactable)
    (on_read on_write : list Call) (k : list Instr) :
  reachable s →
  threads s !! t = Some (IRun_read l event r :: k) →
  heap s !! r = Some R →
  on_read_ready_ R = Some on_read →
  on_write_ready_ R = Some on_write →
  has (events event) read_mask = true →
  has (events event) EPOLLOUT = true →
  ∃ s1,
    step t [] s = Ok s1
    ∧ trace s1 = Invoked r OnRead :: trace s
    ∧ threads s1 !! t = Some (map ICall on_read ++ IRun_write l event r :: k)
    ∧ ∀ schedule s2,
        run schedule s1 = Ok s2 →
        threads s2 !! t = Some (IRun_write l event r :: k) →
        is_Some (heap s2 !! r) →
        ∃ s3 between,
          step t [] s2 = Ok s3
          ∧ trace s3 =
              Invoked r OnWrite :: between ++ Invoked r OnRead :: trace s
          ∧ threads s3 !! t
            = Some (map ICall on_write ++ IRun_finish l r :: k).
Proof.
  intros Hreach Hth HR Hread Hwrite Hin Hout.
  pose proof (reachable_wf _ Hreach) as Hwf.
  assert (exec (IRun_read l event r) [] s
          = Ok (map ICall on_read ++ [IRun_write l event r],
                set_trace (Invoked r OnRead :: trace s) s)) as Hexec.
  { cbv beta iota zeta delta [exec Run_read bind ret modify emit deref].
    rewrite HR, Hread. unfold has, read_mask in Hin. rewrite Hin. done. }
  pose proof (step_intro _ _ _ _ _ _ _ Hth Hexec) as Hstep.
  eexists. split; [exact Hstep|]. split; [done|].
  split.
  { simpl. rewrite list_lookup_insert_eq by (by eapply lookup_lt_Some).
    by rewrite <- app_assoc. }
  intros schedule s2 Hrun Hth2 [R2 HR2].
  pose proof (wf_step _ _ _ _ Hwf Hstep) as Hwf1.
  assert (keeps r R s2) as [_ Hkeep].
  { eapply run_keeps; [exact Hwf1| |exact Hrun].
    apply keeps_intro; [done|]. simpl. done. }
  destruct (Hkeep _ HR2) as (_ & _ & Hw2). rewrite Hwrite in Hw2.
  destruct (run_trace _ _ _ Hrun) as [between Hbetween]. simpl in Hbetween.
  assert (exec (IRun_write l event r) [] s2
          = Ok (map ICall on_write ++ [IRun_finish l r],
                set_trace (Invoked r OnWrite :: trace s2) s2)) as Hexec2.
  { cbv beta iota zeta delta [exec Run_write bind ret modify emit deref].
    rewrite HR2, Hw2. unfold has in Hout. rewrite Hout. done. }
  pose proof (step_intro _ _ _ _ _ _ _ Hth2 Hexec2) as Hstep2.
  eexists _, between. split; [exact Hstep2|]. split.
  { simpl. by rewrite Hbetween. }
  simpl. rewrite list_lookup_insert_eq by (by eapply lookup_lt_Some).
  by rewrite <- app_assoc.
Qed.

Lemma read_ready_before_write_ready_witness :
  ∃ s0 s,
    Reactor 3 4 = Ok s0
    ∧ run self_unregister s0 = Ok s
    ∧ ∃ s1,
        step 0 [] s = Ok s1
        ∧ trace s1 = Invoked 1%positive OnRead :: trace s
        ∧ threads s1 !! 0
          = Some [ICall (CUnregister (Some 1%positive));
                  IRun_write (mkLocals (-1) false [])
                    (mk_epoll_event 5 (Some 1%positive)) 1%positive]
        ∧ ∀ schedule s2,
            run schedule s1 = Ok s2 →
            threads s2 !! 0
            = Some [IRun_write (mkLocals (-1) false [])
                      (mk_epoll_event 5 (Some 1%positive)) 1%positive] →
            is_Some (heap s2 !! 1%positive) →
            ∃ s3 between,
              step 0 [] s2 = Ok s3
              ∧ trace s3 =
                  Invoked 1%positive OnWrite
                  :: between ++ Invoked 1%positive OnRead :: trace s
              ∧ threads s3 !! 0
                = Some [IRun_finish (mkLocals (-1) false []) 1%positive].
Proof.
  eexists _, _. split; [reflexivity|]. split; [vm_compute; reflexivity|].
  apply (read_ready_before_write_ready _ 0 (mkLocals (-1) false [])
           (mk_epoll_event 5 (Some 1%positive)) 1%positive
           (mkReactable 5 (Some [CUnregister (Some 1%positive)]) (Some [])
              true false None)
           [CUnregister (Some 1%positive)] [] []).
  - exists 3%Z, 4%Z. eexists _, self_unregister.
    split; [reflexivity | vm_compute; reflexivity].
  - vm_compute. reflexivity.
  - vm_compute. reflexivity.
  - reflexivity.
  - reflexivity.
  - reflexivity.
  - reflexivity.
Defined.

(** The whole dispatch of that event: the read callback runs and unregisters
    the reactable, [Unregister] returns with the reactable alive, the write
    callback runs, the promise is fulfilled and the reactable destroyed. *)
Example self_unregister_dispatch :
  ∃ s0 s,
    Reactor 3 4 = Ok s0
    ∧ run (self_unregister_read ++ [Step 0 []; Step 0 []]) s0 = Ok s
    ∧ trace s
      = [Destroyed 1%positive; Fulfilled 1%positive;
         Invoked 1%positive OnWrite;
         Returned (CUnregister (Some 1%positive)) RVoid;
         Invoked 1%positive OnRead;
         Returned
           (CRegister 5 (Some [CUnregister (Some 1%positive)]) (Some []))
           (RPtr 1%positive)]
    ∧ heap s !! 1%positive = None
    ∧ invalidation_list_ s = [1%positive].
Proof.
  eexists _, _. split; [reflexivity|]. split; [vm_compute; reflexivity|].
  repeat split; vm_compute; reflexivity.
Qed.

(** * Properties of the code beyond the specification *)

(** ** Event *)

(** X1.  A new [Event] has the descriptor the kernel handed out and a zero
    counter: a [Read] returns false and changes nothing.  After [n] calls
    of [Notify] (which succeed, the counter having room) the descriptor is
    the same, and of [m] calls of [Read] the first min(m, n) return true
    and the others false; n - m notifications are left. *)
Theorem NewEvent_Notify_Read (fd : Z) (n m : nat) :
  fd ≠ (-1)%Z → (N.of_nat n < ULLONG_MAX)%N →
  ∃ e e',
    NewEvent fd = Some e
    ∧ Event.Id e = fd
    ∧ Event.Read e = (false, e)
    ∧ Event.Notify_n n e = Some e'
    ∧ Event.Id e' = fd
    ∧ Event.Read_n m e'
      = (replicate (m `min` n) true ++ replicate (m - n) false,
         Event.mk_impl fd (mk_eventfd (N.of_nat (n - m)) true)).
Proof.
  intros Hfd Hroom. unfold NewEvent, Event.Event.
  destruct (Z.eqb_spec fd (-1)) as [|_]; [done|].
  eexists _, _. split; [reflexivity|]. split; [reflexivity|].
  split; [reflexivity|]. split; [by apply Event_Notify_n_room|].
  split; [reflexivity|].
  rewrite Event_Read_n_semaphore by done.
  cbn [Event.ctx Event.fd_ count eventfd]. rewrite N.add_0_l, !Nat2N.id.
  do 3 f_equal. lia.
Qed.

Lemma NewEvent_Notify_Read_witness :
  ∃ e e',
    NewEvent 7 = Some e
    ∧ Event.Id e = 7%Z
    ∧ Event.Read e = (false, e)
    ∧ Event.Notify_n 3 e = Some e'
    ∧ Event.Id e' = 7%Z
    ∧ Event.Read_n 5 e'
      = ([true; true; true; false; false],
         Event.mk_impl 7 (mk_eventfd 0 true)).
Proof.
  apply (NewEvent_Notify_Read 7 3 5); [done | vm_compute; reflexivity].
Defined.

(** X2.  [Close] closes the descriptor of an [Event] and leaves [fd_] as it
    is: a second [Close] aborts at line 78, and the destructor, whose
    assertion of line 51 holds, calls close on the same number again.  That
    close fails unnoticed when the number is not open, and closes the
    descriptor that holds the number when it has been handed out again. *)
Theorem Event_Close_then_destroy (fd : Z) (e : Event.impl) (open : gset Z) :
  NewEvent fd = Some e → fd ∈ open →
  Event_Close e open = Ok (open ∖ {[fd]})
  ∧ Event_Close e (open ∖ {[fd]}) = Crash (AssertFailed 78)
  ∧ Event_dtor e open = Ok (open ∖ {[fd]})
  ∧ Event_dtor e (open ∖ {[fd]}) = Ok (open ∖ {[fd]})
  ∧ ∀ reopened : gset Z,
      Event_dtor e ({[fd]} ∪ reopened) = Ok (reopened ∖ {[fd]}).
Proof.
  unfold NewEvent, Event.Event. intros He Hin.
  destruct (Z.eqb_spec fd (-1)) as [|Hfd]; [done|]. simplify_eq.
  apply Z.eqb_neq in Hfd.
  assert (fd ∉ open ∖ {[fd]}) as Hout.
  { intros [_ Hne]%elem_of_difference. apply Hne. by apply elem_of_singleton. }
  unfold Event_Close, Event_dtor. simpl. rewrite Hfd.
  rewrite (close_open _ _ Hin), (close_closed _ _ Hout).
  split; [done|]. split; [done|]. split; [done|]. split; [done|].
  intros reopened. rewrite close_open.
  - f_equal. apply set_eq. intros x.
    rewrite !elem_of_difference, elem_of_union, elem_of_singleton. tauto.
  - apply elem_of_union. left. by apply elem_of_singleton.
Qed.

Lemma Event_Close_then_destroy_witness :
  Event_Close (Event.mk_impl 7 (eventfd 0 true)) {[7%Z; 8%Z]}
  = Ok ({[7%Z; 8%Z]} ∖ {[7%Z]})
  ∧ Event_Close (Event.mk_impl 7 (eventfd 0 true)) ({[7%Z; 8%Z]} ∖ {[7%Z]})
    = Crash (AssertFailed 78)
  ∧ Event_dtor (Event.mk_impl 7 (eventfd 0 true)) {[7%Z; 8%Z]}
    = Ok ({[7%Z; 8%Z]} ∖ {[7%Z]})
  ∧ Event_dtor (Event.mk_impl 7 (eventfd 0 true)) ({[7%Z; 8%Z]} ∖ {[7%Z]})
    = Ok ({[7%Z; 8%Z]} ∖ {[7%Z]})
  ∧ ∀ reopened : gset Z,
      Event_dtor (Event.mk_impl 7 (eventfd 0 true)) ({[7%Z]} ∪ reopened)
      = Ok (reopened ∖ {[7%Z]}).
Proof.
  apply (Event_Close_then_destroy 7 _ {[7%Z; 8%Z]}); [reflexivity|].
  apply elem_of_union. left. by apply elem_of_singleton.
Defined.

(** ** Reactor: invariants *)

(** X3.  In every reachable state the control eventfd is on the interest
    list as the constructor put it there (EPOLLIN, null user data); it is
    the only entry with null user data, so the test of line 157 tells the
    control event from the events of reactables; no reactable holds the
    descriptor of the control eventfd; and a batch of epoll_wait has at most
    one control event, which is there only when the control counter is not
    zero. *)
Theorem control_event_is_null_event (s : State) :
  reachable s →
  interest s !! control_fd_ s = Some (mk_epoll_event EPOLLIN None)
  ∧ (∀ fd e, interest s !! fd = Some e →
       (data_ptr e = None ↔ fd = control_fd_ s))
  ∧ (∀ r R, heap s !! r = Some R → fd_ R ≠ control_fd_ s)
  ∧ ∀ timeout_ms ready, deliverable s timeout_ms ready = true →
      control_events (epoll_wait s ready) ≤ 1
      ∧ (control_events (epoll_wait s ready) = 1 → count (control s) ≠ 0%N).
Proof.
  intros Hreach.
  pose proof (stl_coherent _ (reachable_settled _ Hreach)) as Hcoh.
  destruct Hcoh as [Hctl Hdata Hfd Hcfd] eqn:E.
  split; [done|]. split; [|split; [done|]].
  - intros fd e He. split; [by apply Hdata|].
    intros ->. rewrite Hctl in He. by simplify_eq.
  - intros timeout_ms ready. by apply epoll_wait_control.
Qed.

Lemma control_event_is_null_event_witness :
  ∃ s0 s,
    Reactor 3 4 = Ok s0
    ∧ run [Open 5 true; Spawn [CRegister 5 (Some []) None]; Step 0 []] s0
      = Ok s
    ∧ interest s !! control_fd_ s = Some (mk_epoll_event EPOLLIN None)
    ∧ (∀ fd e, interest s !! fd = Some e →
         (data_ptr e = None ↔ fd = control_fd_ s))
    ∧ (∀ r R, heap s !! r = Some R → fd_ R ≠ control_fd_ s)
    ∧ ∀ timeout_ms ready, deliverable s timeout_ms ready = true →
        control_events (epoll_wait s ready) ≤ 1
        ∧ (control_events (epoll_wait s ready) = 1 →
             count (control s) ≠ 0%N).
Proof.
  eexists _, _. split; [reflexivity|]. split; [vm_compute; reflexivity|].
  apply control_event_is_null_event.
  exists 3%Z, 4%Z.
  eexists _, [Open 5 true; Spawn [CRegister 5 (Some []) None]; Step 0 []].
  split; [reflexivity | vm_compute; reflexivity].
Defined.

(** X4.  In every reachable state the locals of [Run] are in one of two
    settings, at every region of the loop: timeout -1 and not waiting for
    idleness (132-133, 145-146), or timeout 30 ms and waiting (164-165).
    The loop polls with a finite timeout only while it waits for
    idleness. *)
Theorem Run_locals_two_settings (s : State) (t : nat) (th : list Instr)
    (i : Instr) (l : locals) :
  reachable s → threads s !! t = Some th → i ∈ th →
  frame_locals i = Some l →
  (timeout_ms l = -1 ∧ waiting_for_idle l = false)%Z
  ∨ (timeout_ms l = 30 ∧ waiting_for_idle l = true)%Z.
Proof.
  intros Hreach Hth Hi Hl.
  pose proof (stl_locals _ (reachable_settled _ Hreach)) as Hloc.
  rewrite tally_zero in Hloc. specialize (Hloc i).
  unfold odd_locals in Hloc. rewrite Hl in Hloc.
  case_bool_decide as Hok; [done|].
  exfalso. assert (1 = 0); [|done]. apply Hloc.
  by eapply elem_of_concat_lookup.
Qed.

Lemma Run_locals_two_settings_witness :
  ∃ s0 s,
    Reactor 3 4 = Ok s0
    ∧ run two_stops s0 = Ok s
    ∧ threads s !! 0 = Some [IRun_event (mkLocals 30 true [])]
    ∧ ((timeout_ms (mkLocals 30 true []) = -1
        ∧ waiting_for_idle (mkLocals 30 true []) = false)%Z
       ∨ (timeout_ms (mkLocals 30 true []) = 30
          ∧ waiting_for_idle (mkLocals 30 true []) = true)%Z).
Proof.
  eexists _, _. split; [reflexivity|]. split; [vm_compute; reflexivity|].
  split; [vm_compute; reflexivity|].
  eapply (Run_locals_two_settings _ 0 _ (IRun_event (mkLocals 30 true []))).
  - exists 3%Z, 4%Z. eexists _, two_stops.
    split; [reflexivity | vm_compute; reflexivity].
  - vm_compute. reflexivity.
  - apply list_elem_of_here.
  - reflexivity.
Defined.

(** X5.  In every reachable state at most one reactable has
    [is_executing_] set; when one has, [Run] is executing and the loop is
    in the dispatch of an event of that reactable (183-199); and a
    reactable that is marked [removed_] is executing and was passed to
    [Unregister]: a dispatch that will destroy it is under way. *)
Theorem one_reactable_executing (s : State) :
  reachable s →
  (∀ r1 r2 R1 R2, heap s !! r1 = Some R1 → heap s !! r2 = Some R2 →
     is_executing_ R1 = true → is_executing_ R2 = true → r1 = r2)
  ∧ (∀ r R, heap s !! r = Some R → is_executing_ R = true →
       is_running_ s = true ∧ tally (dispatch_of r) (threads s) = 1)
  ∧ (∀ r R, heap s !! r = Some R → removed_ R = true →
       is_executing_ R = true ∧ r ∈ unregistered s).
Proof.
  intros Hreach.
  pose proof (reachable_wf _ Hreach) as Hwf.
  pose proof (stl_executing _ (reachable_settled _ Hreach)) as Hex.
  pose proof (wf_running _ Hwf) as Hrun.
  split; [|split].
  - intros r1 r2 R1 R2 H1 H2 E1 E2.
    destruct (decide (r1 = r2)) as [|Hne]; [done|]. exfalso.
    pose proof (proj1 (Hex r1) _ H1 E1) as T1.
    pose proof (proj1 (Hex r2) _ H2 E2) as T2.
    pose proof (tally_add (dispatch_of r1) (dispatch_of r2)
                  (λ i, dispatch_of r1 i + dispatch_of r2 i) (threads s)
                  (λ _, eq_refl)) as Hsum.
    assert (tally (λ i, dispatch_of r1 i + dispatch_of r2 i) (threads s)
            ≤ tally run_frame (threads s)) as Hle.
    { apply tally_le. intros []; simpl; repeat case_decide; subst; try lia.
      all: congruence. }
    destruct (is_running_ s); lia.
  - intros r R HR E. split; [|by eapply (proj1 (Hex r))].
    pose proof (proj1 (Hex r) _ HR E) as T1.
    assert (tally (dispatch_of r) (threads s) ≤ tally run_frame (threads s))
      as Hle.
    { apply tally_le. intros []; simpl; repeat case_decide; lia. }
    destruct (is_running_ s); [done | lia].
  - intros r R HR Hrem. split; [by eapply (proj2 (Hex r))|].
    by eapply wf_removed.
Qed.

Lemma one_reactable_executing_witness :
  ∃ s0 s,
    Reactor 3 4 = Ok s0
    ∧ run self_unregister s0 = Ok s
    ∧ heap s !! 1%positive
      = Some (mkReactable 5 (Some [CUnregister (Some 1%positive)]) (Some [])
                true false None)
    ∧ (∀ r1 r2 R1 R2, heap s !! r1 = Some R1 → heap s !! r2 = Some R2 →
         is_executing_ R1 = true → is_executing_ R2 = true → r1 = r2)
    ∧ (∀ r R, heap s !! r = Some R → is_executing_ R = true →
         is_running_ s = true ∧ tally (dispatch_of r) (threads s) = 1)
    ∧ (∀ r R, heap s !! r = Some R → removed_ R = true →
         is_executing_ R = true ∧ r ∈ unregistered s).
Proof.
  eexists _, _. split; [reflexivity|]. split; [vm_compute; reflexivity|].
  split; [vm_compute; reflexivity|].
  apply one_reactable_executing.
  exists 3%Z, 4%Z. eexists _, self_unregister.
  split; [reflexivity | vm_compute; reflexivity].
Defined.

(** X6.  Whatever the threads do from a reachable state, and whatever
    descriptors are opened or closed meanwhile, an execution (an
    interleaving of the regions of the threads, in which no handle is
    passed to [Unregister] twice) does not end in a second [delete] of a
    reactable, in a promise that is fulfilled twice, in line 195 with a
    null promise, in line 160 with a value that eventfd_read did not write,
    or in the assertion of line 154. *)
Theorem run_does_not_fault (schedule : list Action) :
  ∀ (s : State) (f : Fault),
    reachable s → run schedule s = Crash f →
    (∀ r, f ≠ DoubleFree r)
    ∧ (∀ p, f ≠ PromiseAlreadySatisfied p)
    ∧ f ≠ NullDeref 195
    ∧ f ≠ Uninitialised 160
    ∧ f ≠ AssertFailed 154.
Proof.
  induction schedule as [|a schedule IH]; intros s f Hreach Hrun; [done|].
  simpl in Hrun.
  destruct (act a s) as [s1|f1|w] eqn:Hact; [| |done].
  - apply (IH s1); [|done].
    apply (reachable_run [a] s); [done|]. simpl. by rewrite Hact.
  - simplify_eq.
    destruct a as [program|t ready|fd pollable|fd]; simpl in Hact.
    + done.
    + destruct (step_fault _ _ _ _ Hreach Hact)
        as [[r ->]|[->|(line & -> & Hline)]]; [done..|].
      split_and!; try done.
      intros Heq. simplify_eq.
      apply list_elem_of_In in Hline. simpl in Hline.
      repeat destruct Hline as [Hline|Hline]; done.
    + by apply open_fd_no_crash in Hact.
    + by apply close_fd_no_crash in Hact.
Qed.

Lemma run_does_not_fault_witness :
  ∃ s0 s,
    Reactor 3 4 = Ok s0
    ∧ run unregister_race s0 = Ok s
    ∧ run [Step 0 []] s = Crash (UseAfterFree 1%positive)
    ∧ (∀ r, UseAfterFree 1%positive ≠ DoubleFree r)
    ∧ (∀ p, UseAfterFree 1%positive ≠ PromiseAlreadySatisfied p)
    ∧ UseAfterFree 1%positive ≠ NullDeref 195
    ∧ UseAfterFree 1%positive ≠ Uninitialised 160
    ∧ UseAfterFree 1%positive ≠ AssertFailed 154.
Proof.
  eexists _, _. split; [reflexivity|]. split; [vm_compute; reflexivity|].
  split; [vm_compute; reflexivity|].
  eapply (run_does_not_fault [Step 0 []]).
  - exists 3%Z, 4%Z. eexists _, unregister_race.
    split; [reflexivity | vm_compute; reflexivity].
  - vm_compute. reflexivity.
Defined.

(** ** Reactor: the invalidation list *)

(** X7.  A reactable that is on the invalidation list stays on it until
    the loop clears the list at the start of its next pass (135-138): no
    other step of any thread takes it off.  While it is on the list, the
    loop skips an event of that reactable (172-178): it resets
    [executing_reactable_finished_] and goes on with the next event,
    without touching the reactable, also when the reactable is already
    destroyed. *)
Theorem invalidated_until_next_pass (s : State) (r : ptr) :
  r ∈ invalidation_list_ s →
  (∀ t ready s', step t ready s = Ok s' →
     r ∈ invalidation_list_ s'
     ∨ ∃ timeout_ms waiting_for_idle k,
         threads s !! t = Some (IRun_top timeout_ms waiting_for_idle :: k))
  ∧ ∀ t l k revents rest,
      threads s !! t = Some (IRun_event l :: k) →
      batch l = mk_epoll_event revents (Some r) :: rest →
      revents ≠ 0%N →
      step t [] s
      = Ok (set_threads
              (<[t := IRun_event (mkLocals (timeout_ms l)
                                    (waiting_for_idle l) rest) :: k]>
                 (threads s))
              (set_executing_reactable_finished_ None s)).
Proof.
  intros Hin. split.
  - intros t ready s' Hstep. by eapply step_invalidation_list.
  - intros t l k revents rest Hth Hb Hrev.
    erewrite step_intro; [|done|].
    2: { simpl. by eapply Run_event_skips. }
    reflexivity.
Qed.

Lemma invalidated_until_next_pass_witness :
  ∃ s0 s,
    Reactor 3 4 = Ok s0
    ∧ run unregister_in_time s0 = Ok s
    ∧ heap s !! 1%positive = None
    ∧ invalidation_list_ s = [1%positive]
    ∧ threads s !! 0
      = Some [IRun_event
                (mkLocals (-1) false
                   [mk_epoll_event EPOLLIN (Some 1%positive)])]
    ∧ step 0 [] s
      = Ok (set_threads
              (<[0 := [IRun_event (mkLocals (-1) false [])]]> (threads s))
              (set_executing_reactable_finished_ None s)).
Proof.
  eexists _, _. split; [reflexivity|]. split; [vm_compute; reflexivity|].
  split; [vm_compute; reflexivity|]. split; [vm_compute; reflexivity|].
  split; [vm_compute; reflexivity|].
  match goal with
  | |- step 0 [] ?s = _ =>
      apply (proj2 (invalidated_until_next_pass s 1%positive
                      (list_elem_of_here _ _))
               0 (mkLocals (-1) false
                    [mk_epoll_event EPOLLIN (Some 1%positive)])
               [] EPOLLIN [])
  end.
  - vm_compute. reflexivity.
  - reflexivity.
  - discriminate.
Defined.

(** ** Reactor: calls in sequence *)

(** X8.  [Register] on a descriptor that is open, can be polled, is not
    the epoll descriptor and is not on the interest list, followed by
    [Unregister] of the handle it returned, with the descriptor still
    open: all four regions succeed, the reactable is destroyed at once, and
    the interest list and the live reactables are what they were before.
    The handle stays on the invalidation list, until the next pass clears
    it. *)
Theorem Register_then_Unregister (s : State) (fd : Z)
    (on_read_ready on_write_ready : Closure) :
  reachable s →
  open_files s !! fd = Some true → fd ≠ epoll_fd_ s →
  interest s !! fd = None →
  let r := next_ptr s in
  ∃ s1 s2 s3 s4,
    Register fd on_read_ready on_write_ready s = Ok ([], s1)
    ∧ Unregister (Some r) s1 = Ok ([IUnregister_locked r], s2)
    ∧ Unregister_locked r s2 = Ok ([IUnregister_delete r], s3)
    ∧ Unregister_delete r s3 = Ok ([], s4)
    ∧ interest s4 = interest s
    ∧ heap s4 = heap s
    ∧ invalidation_list_ s4 = invalidation_list_ s ++ [r]
    ∧ trace s4
      = Returned (CUnregister (Some r)) RVoid :: Destroyed r
        :: Returned (CRegister fd on_read_ready on_write_ready) (RPtr r)
        :: trace s.
Proof.
  intros Hreach Hopen Hne Hnone r.
  pose proof (reachable_wf _ Hreach) as Hwf.
  pose proof (stl_unregistered _ (reachable_settled _ Hreach)) as Hunr.
  assert (0 ≤ fd)%Z as Hfd.
  { apply (opn_nonneg _ (reachable_opened _ Hreach)); [by eexists | done]. }
  assert (heap s !! r = None) as Hfresh.
  { destruct (heap s !! r) as [R|] eqn:HR; [|done].
    apply (wf_fresh _ Hwf) in HR. unfold r in HR. lia. }
  assert (r ∉ unregistered s) as Hnew.
  { intros Hin. apply Hunr in Hin. unfold r in Hin. lia. }
  subst r.
  assert ((next_ptr s <? Pos.succ (next_ptr s))%positive = true) as Hlt
    by (apply Pos.ltb_lt; lia).
  eexists _, _, _, _. split.
  { cbv beta iota zeta delta [Register bind ret get modify emit new_Reactable].
    simpl. rewrite epoll_ctl_add by done. reflexivity. }
  split.
  { cbv beta iota zeta delta [Unregister bind ret get modify refuse].
    simpl. rewrite bool_decide_eq_false_2 by done.
    rewrite Hlt. reflexivity. }
  split.
  { cbv beta iota zeta delta
      [Unregister_locked bind ret get modify emit log crash deref store
       new_promise].
    simpl. rewrite lookup_insert_eq. simpl.
    erewrite epoll_ctl_del;
      [reflexivity | done | by rewrite lookup_insert_eq]. }
  split.
  { cbv beta iota zeta delta
      [Unregister_delete bind ret modify emit delete_Reactable].
    simpl. rewrite lookup_insert_eq. reflexivity. }
  simpl. rewrite !delete_insert_eq.
  rewrite !delete_id by done. done.
Qed.

Lemma Register_then_Unregister_witness :
  ∃ s0 s,
    Reactor 3 4 = Ok s0
    ∧ run [Open 5 true] s0 = Ok s
    ∧ ∃ s1 s2 s3 s4,
        Register 5 (Some []) None s = Ok ([], s1)
        ∧ Unregister (Some 1%positive) s1
          = Ok ([IUnregister_locked 1%positive], s2)
        ∧ Unregister_locked 1%positive s2
          = Ok ([IUnregister_delete 1%positive], s3)
        ∧ Unregister_delete 1%positive s3 = Ok ([], s4)
        ∧ interest s4 = interest s
        ∧ heap s4 = heap s
        ∧ invalidation_list_ s4 = invalidation_list_ s ++ [1%positive]
        ∧ trace s4
          = Returned (CUnregister (Some 1%positive)) RVoid
            :: Destroyed 1%positive
            :: Returned (CRegister 5 (Some []) None) (RPtr 1%positive)
            :: trace s.
Proof.
  eexists _, _. split; [reflexivity|]. split; [vm_compute; reflexivity|].
  match goal with
  | |- ∃ s1 s2 s3 s4, Register _ _ _ ?s = _ ∧ _ =>
      apply (Register_then_Unregister s 5 (Some []) None)
  end.
  - exists 3%Z, 4%Z. eexists _, [Open 5 true].
    split; [reflexivity | vm_compute; reflexivity].
  - vm_compute. reflexivity.
  - discriminate.
  - vm_compute. reflexivity.
Defined.

(** X9.  [Stop] before [Run]: a thread calls [Stop] on a reactor that is not
    running and whose control counter is zero, and then [Run].  [Stop] logs
    the warning of line 206 and writes the request; [Run] enters the loop,
    epoll_wait reports the control eventfd, the loop reads the request, and
    [Run] returns after that one pass with the running flag cleared.  The
    control counter is zero again; interest list and reactables are
    untouched. *)
Theorem Stop_before_Run (s : State) (t : nat) (k : list Instr) :
  reachable s →
  threads s !! t = Some (ICall CStop :: ICall CRun :: k) →
  is_running_ s = false →
  count (control s) = 0%N →
  ∃ s',
    run [Step t []; Step t []; Step t [];
         Step t [(control_fd_ s, EPOLLIN)]; Step t []] s = Ok s'
    ∧ trace s' = Returned CRun RVoid :: Returned CStop RVoid
                 :: Logged NotRunning :: trace s
    ∧ is_running_ s' = false
    ∧ threads s' = <[t := k]> (threads s)
    ∧ count (control s') = 0%N
    ∧ interest s' = interest s
    ∧ heap s' = heap s.
Proof.
  intros Hreach Hth Hrun Hcount.
  pose proof (wf_control _ (reachable_wf _ Hreach)) as Hsem.
  pose proof (coh_control _ (stl_coherent _ (reachable_settled _ Hreach)))
    as Hctl.
  (* Stop: 204-210 *)
  erewrite run_Step; [state_simpl | thread_lookup |].
  2: { apply Stop_not_running; [done | by rewrite Hcount]. }
  (* Run: 128-133 *)
  erewrite run_Step; [state_simpl | thread_lookup |].
  2: { by apply Run_enters. }
  (* 135-138 *)
  erewrite run_Step; [state_simpl | thread_lookup | reflexivity].
  (* 139-150: the control eventfd is readable *)
  erewrite run_Step; [state_simpl | thread_lookup |].
  2: { apply (Run_wait_control _ (-1) false); [done | done |].
       simpl. rewrite Hcount. done. }
  (* 152-171: the value is kStopReactor *)
  erewrite run_Step; [state_simpl | thread_lookup |].
  2: { simpl exec. erewrite Run_event_control; [|reflexivity|done].
       rewrite Run_control_value; [|done|by (simpl; rewrite Hcount)].
       simpl. rewrite Hcount. reflexivity. }
  simpl. eexists. split; [reflexivity|]. simpl.
  rewrite !list_insert_insert_eq. done.
Qed.

Lemma Stop_before_Run_witness :
  ∃ s0 s,
    Reactor 3 4 = Ok s0
    ∧ run stop_then_run s0 = Ok s
    ∧ ∃ s',
        run [Step 0 []; Step 0 []; Step 0 [];
             Step 0 [(control_fd_ s, EPOLLIN)]; Step 0 []] s = Ok s'
        ∧ trace s' = Returned CRun RVoid :: Returned CStop RVoid
                     :: Logged NotRunning :: trace s
        ∧ is_running_ s' = false
        ∧ threads s' = <[0 := []]> (threads s)
        ∧ count (control s') = 0%N
        ∧ interest s' = interest s
        ∧ heap s' = heap s.
Proof.
  eexists _, _. split; [reflexivity|]. split; [vm_compute; reflexivity|].
  apply (Stop_before_Run _ 0 []).
  - exists 3%Z, 4%Z. eexists _, stop_then_run.
    split; [reflexivity | vm_compute; reflexivity].
  - reflexivity.
  - reflexivity.
  - reflexivity.
Defined.

(** X10.  [WaitForIdle] on a quiet reactor: the loop blocks in epoll_wait
    with the control counter at zero, and another thread calls
    [WaitForIdle].  The call arms a new promise and writes the request; the
    loop reads it and takes the 30 ms timeout; when the next epoll_wait
    returns no event, the loop fulfils the promise, clears
    [idle_promise_] and goes back to timeout -1; the wait of the caller
    ends ready and [WaitForIdle] returns true. *)
Theorem WaitForIdle_on_quiet_reactor (s : State) (t u : nat)
    (kt ku : list Instr) (timeout : Z) :
  reachable s → t ≠ u →
  threads s !! t = Some (IRun_wait (-1) false :: kt) →
  threads s !! u = Some (ICall (CWaitForIdle timeout) :: ku) →
  count (control s) = 0%N →
  ∃ s',
    run [Step u []; Step u [];
         Step t [(control_fd_ s, EPOLLIN)]; Step t []; Step t [];
         Step t []; Step t [];
         Step u []] s = Ok s'
    ∧ trace s' = Returned (CWaitForIdle timeout) (RBool true)
                 :: Fulfilled (next_promise s) :: trace s
    ∧ threads s' !! t = Some (IRun_event (mkLocals (-1) false []) :: kt)
    ∧ threads s' !! u = Some ku
    ∧ idle_promise_ s' = None
    ∧ count (control s') = 0%N
    ∧ interest s' = interest s
    ∧ heap s' = heap s.
Proof.
  intros Hreach Hne Ht Hu Hcount.
  pose proof (wf_control _ (reachable_wf _ Hreach)) as Hsem.
  pose proof (coh_control _ (stl_coherent _ (reachable_settled _ Hreach)))
    as Hctl.
  assert (u ≠ t) as Hne' by done.
  (* WaitForIdle: 279-285, 287-288 *)
  erewrite run_Step; [state_simpl | thread_lookup | apply WaitForIdle_arms].
  erewrite run_Step; [state_simpl | thread_lookup |].
  2: { apply WaitForIdle_write_adds. simpl. by rewrite Hcount. }
  (* Run: 139-150, the control eventfd is readable *)
  erewrite run_Step; [state_simpl | thread_lookup |].
  2: { apply (Run_wait_control _ (-1) false); [done | done |].
       simpl. by rewrite Hcount. }
  (* 152-171: the value is kWaitForIdle *)
  erewrite run_Step; [state_simpl | thread_lookup |].
  2: { simpl exec. erewrite Run_event_control; [|reflexivity|done].
       rewrite Run_control_value; [|done|by (simpl; rewrite Hcount)].
       simpl. rewrite Hcount. reflexivity. }
  (* 152, 135-138 *)
  erewrite run_Step; [state_simpl | thread_lookup | by apply Run_event_done].
  erewrite run_Step; [state_simpl | thread_lookup | reflexivity].
  (* 139-150: epoll_wait times out *)
  erewrite run_Step; [state_simpl | thread_lookup |].
  2: { apply (Run_wait_idle _ 30 (next_promise s)); simpl; try done.
       by rewrite lookup_insert_eq. }
  (* 290-291 *)
  erewrite run_Step; [state_simpl | thread_lookup |].
  2: { apply (WaitForIdle_wait_result _ _ _ true). simpl.
       by rewrite lookup_insert_eq. }
  eexists. split; [reflexivity|]. simpl.
  split; [done|]. split; [thread_lookup|]. split; [thread_lookup|]. done.
Qed.

Lemma WaitForIdle_on_quiet_reactor_witness :
  ∃ s0 s,
    Reactor 3 4 = Ok s0
    ∧ run wait_for_idle s0 = Ok s
    ∧ ∃ s',
        run [Step 1 []; Step 1 [];
             Step 0 [(control_fd_ s, EPOLLIN)]; Step 0 []; Step 0 [];
             Step 0 []; Step 0 [];
             Step 1 []] s = Ok s'
        ∧ trace s' = Returned (CWaitForIdle 100) (RBool true)
                     :: Fulfilled (next_promise s) :: trace s
        ∧ threads s' !! 0 = Some [IRun_event (mkLocals (-1) false [])]
        ∧ threads s' !! 1 = Some []
        ∧ idle_promise_ s' = None
        ∧ count (control s') = 0%N
        ∧ interest s' = interest s
        ∧ heap s' = heap s.
Proof.
  eexists _, _. split; [reflexivity|]. split; [vm_compute; reflexivity|].
  apply (WaitForIdle_on_quiet_reactor _ 0 1 [] [] 100).
  - exists 3%Z, 4%Z. eexists _, wait_for_idle.
    split; [reflexivity | vm_compute; reflexivity].
  - lia.
  - reflexivity.
  - reflexivity.
  - reflexivity.
Defined.

(** X11.  Two calls of [WaitForIdle] whose requests the loop reads at once:
    each call arms its own promise, the second replacing the first in
    [idle_promise_], and adds kWaitForIdle = 2 to the control eventfd, which
    is not a semaphore; the one read returns 4, which has neither known
    bit.  The loop logs the value as unknown and keeps its timeout of -1, so
    it does not look for idleness; neither promise is fulfilled, and both
    calls return false when their waits end. *)
Theorem two_WaitForIdle_read_as_unknown (s : State) (t u1 u2 : nat)
    (kt k1 k2 : list Instr) (timeout1 timeout2 : Z) :
  reachable s → t ≠ u1 → t ≠ u2 → u1 ≠ u2 →
  threads s !! t = Some (IRun_wait (-1) false :: kt) →
  threads s !! u1 = Some (ICall (CWaitForIdle timeout1) :: k1) →
  threads s !! u2 = Some (ICall (CWaitForIdle timeout2) :: k2) →
  count (control s) = 0%N →
  ∃ s',
    run [Step u1 []; Step u1 []; Step u2 []; Step u2 [];
         Step t [(control_fd_ s, EPOLLIN)]; Step t [];
         Step u1 []; Step u2 []] s = Ok s'
    ∧ trace s' = Returned (CWaitForIdle timeout2) (RBool false)
                 :: Returned (CWaitForIdle timeout1) (RBool false)
                 :: Logged (UnknownControlValue 4) :: trace s
    ∧ threads s' !! t = Some (IRun_event (mkLocals (-1) false []) :: kt)
    ∧ threads s' !! u1 = Some k1
    ∧ threads s' !! u2 = Some k2
    ∧ idle_promise_ s' = Some (Pos.succ (next_promise s))
    ∧ promises s' !! next_promise s = Some false
    ∧ promises s' !! Pos.succ (next_promise s) = Some false
    ∧ count (control s') = 0%N.
Proof.
  intros Hreach Hn1 Hn2 Hn3 Ht Hu1 Hu2 Hcount.
  pose proof (wf_control _ (reachable_wf _ Hreach)) as Hsem.
  pose proof (coh_control _ (stl_coherent _ (reachable_settled _ Hreach)))
    as Hctl.
  assert (u1 ≠ t ∧ u2 ≠ t ∧ u2 ≠ u1) as (? & ? & ?) by done.
  (* the two calls: 279-288 each *)
  erewrite run_Step; [state_simpl | thread_lookup | apply WaitForIdle_arms].
  erewrite run_Step; [state_simpl | thread_lookup |].
  2: { apply WaitForIdle_write_adds. simpl. by rewrite Hcount. }
  erewrite run_Step; [state_simpl | thread_lookup | apply WaitForIdle_arms].
  erewrite run_Step; [state_simpl | thread_lookup |].
  2: { apply WaitForIdle_write_adds. simpl. by rewrite Hcount. }
  (* Run: 139-150, the control eventfd is readable *)
  erewrite run_Step; [state_simpl | thread_lookup |].
  2: { apply (Run_wait_control _ (-1) false); [done | done |].
       simpl. by rewrite Hcount. }
  (* 152-171: the value is 4 *)
  erewrite run_Step; [state_simpl | thread_lookup |].
  2: { simpl exec. erewrite Run_event_control; [|reflexivity|done].
       rewrite Run_control_value; [|done|by (simpl; rewrite Hcount)].
       simpl. rewrite Hcount. reflexivity. }
  (* 290-291, twice: both waits end unfulfilled *)
  erewrite run_Step; [state_simpl | thread_lookup |].
  2: { apply (WaitForIdle_wait_result _ _ _ false). simpl.
       rewrite lookup_insert_ne by lia. by rewrite lookup_insert_eq. }
  erewrite run_Step; [state_simpl | thread_lookup |].
  2: { apply (WaitForIdle_wait_result _ _ _ false). simpl.
       by rewrite lookup_insert_eq. }
  eexists. split; [reflexivity|]. simpl.
  split; [done|]. split; [thread_lookup|]. split; [thread_lookup|].
  split; [thread_lookup|]. split; [done|].
  split; [rewrite lookup_insert_ne by lia; by rewrite lookup_insert_eq|].
  split; [by rewrite lookup_insert_eq | done].
Qed.

Lemma two_WaitForIdle_read_as_unknown_witness :
  ∃ s0 s,
    Reactor 3 4 = Ok s0
    ∧ run two_wait_for_idle s0 = Ok s
    ∧ ∃ s',
        run [Step 1 []; Step 1 []; Step 2 []; Step 2 [];
             Step 0 [(control_fd_ s, EPOLLIN)]; Step 0 [];
             Step 1 []; Step 2 []] s = Ok s'
        ∧ trace s' = Returned (CWaitForIdle 200) (RBool false)
                     :: Returned (CWaitForIdle 100) (RBool false)
                     :: Logged (UnknownControlValue 4) :: trace s
        ∧ threads s' !! 0 = Some [IRun_event (mkLocals (-1) false [])]
        ∧ threads s' !! 1 = Some []
        ∧ threads s' !! 2 = Some []
        ∧ idle_promise_ s' = Some (Pos.succ (next_promise s))
        ∧ promises s' !! next_promise s = Some false
        ∧ promises s' !! Pos.succ (next_promise s) = Some false
        ∧ count (control s') = 0%N.
Proof.
  eexists _, _. split; [reflexivity|]. split; [vm_compute; reflexivity|].
  apply (two_WaitForIdle_read_as_unknown _ 0 1 2 [] [] [] 100 200).
  - exists 3%Z, 4%Z. eexists _, two_wait_for_idle.
    split; [reflexivity | vm_compute; reflexivity].
  - lia.
  - lia.
  - lia.
  - reflexivity.
  - reflexivity.
  - reflexivity.
  - reflexivity.
Defined.

(** ** Reactor: dispatch *)

(** X12.  An event for which no callback is due: the reactable is alive,
    not on the invalidation list and not marked removed, its read callback
    is null or the event has none of EPOLLIN, EPOLLHUP, EPOLLRDHUP,
    EPOLLERR, and its write callback is null or the event has no EPOLLOUT
    (a hang-up or an error on a reactable that has a write callback only,
    for one).  The four regions of the dispatch (172-199) run no callback
    and log nothing; [is_executing_] is set and cleared again, the
    reactable is otherwise as before, and the loop goes on with the next
    event. *)
Theorem event_without_due_callback (s : State) (t : nat) (l : locals)
    (k : list Instr) (event : epoll_event) (rest : list epoll_event)
    (r : ptr) (R : Reactable) :
  threads s !! t = Some (IRun_event l :: k) →
  batch l = event :: rest → events event ≠ 0%N → data_ptr event = Some r →
  r ∉ invalidation_list_ s → heap s !! r = Some R → removed_ R = false →
  is_null (on_read_ready_ R) = true ∨ has (events event) read_mask = false →
  is_null (on_write_ready_ R) = true ∨ has (events event) EPOLLOUT = false →
  ∃ s',
    run [Step t []; Step t []; Step t []; Step t []] s = Ok s'
    ∧ trace s' = trace s
    ∧ threads s' !! t
      = Some (IRun_event (mkLocals (timeout_ms l) (waiting_for_idle l) rest)
              :: k)
    ∧ heap s' = <[r := mkReactable (fd_ R) (on_read_ready_ R)
                          (on_write_ready_ R) false false
                          (finished_promise_ R)]> (heap s)
    ∧ interest s' = interest s
    ∧ control s' = control s.
Proof.
  intros Ht Hb Hev Hd Hout HR Hrem Hread Hwrite.
  erewrite run_Step; [state_simpl | thread_lookup |].
  2: { by apply (Run_event_dispatches _ _ event rest r R). }
  erewrite run_Step; [state_simpl | thread_lookup |].
  2: { eapply Run_read_skips; [simpl; by rewrite lookup_insert_eq|done]. }
  erewrite run_Step; [state_simpl | thread_lookup |].
  2: { eapply Run_write_skips; [simpl; by rewrite lookup_insert_eq|done]. }
  erewrite run_Step; [state_simpl | thread_lookup |].
  2: { eapply Run_finish_keeps; simpl; [by rewrite lookup_insert_eq|done]. }
  eexists. split; [reflexivity|]. simpl.
  split; [done|]. split; [thread_lookup|].
  rewrite insert_insert_eq, Hrem. done.
Qed.

Lemma event_without_due_callback_witness :
  ∃ s0 s,
    Reactor 3 4 = Ok s0
    ∧ run hang_up_write_only s0 = Ok s
    ∧ ∃ s',
        run [Step 0 []; Step 0 []; Step 0 []; Step 0 []] s = Ok s'
        ∧ trace s' = trace s
        ∧ threads s' !! 0 = Some [IRun_event (mkLocals (-1) false [])]
        ∧ heap s' = <[1%positive := mkReactable 5 None (Some []) false false
                                      None]> (heap s)
        ∧ interest s' = interest s
        ∧ control s' = control s.
Proof.
  eexists _, _. split; [reflexivity|]. split; [vm_compute; reflexivity|].
  apply (event_without_due_callback _ 0
           (mkLocals (-1) false [mk_epoll_event EPOLLHUP (Some 1%positive)])
           [] (mk_epoll_event EPOLLHUP (Some 1%positive)) [] 1%positive
           (mkReactable 5 None (Some []) false false None)).
  - vm_compute. reflexivity.
  - reflexivity.
  - discriminate.
  - reflexivity.
  - vm_compute. intros H. by apply elem_of_nil in H.
  - vm_compute. reflexivity.
  - reflexivity.
  - left. reflexivity.
  - right. reflexivity.
Defined.

(** ** Reactor: registrations *)

(** X13.  Where the calls abort.  [Register] aborts at line 231 when the
    descriptor is negative or already on the interest list, so also for the
    descriptor of the control eventfd; [ModifyRegistration] aborts at line
    310 when the descriptor of the reactable is not on the interest list,
    as after the EPOLL_CTL_DEL of [Unregister], and at line 295 on a null
    handle; [Unregister] aborts at line 236 on a null handle. *)
Theorem registration_failures (s : State) :
  reachable s →
  (∀ fd on_read_ready on_write_ready,
     (fd < 0)%Z ∨ is_Some (interest s !! fd) →
     Register fd on_read_ready on_write_ready s = Crash (AssertFailed 231))
  ∧ (∀ on_read_ready on_write_ready,
       Register (control_fd_ s) on_read_ready on_write_ready s
       = Crash (AssertFailed 231))
  ∧ (∀ r R react_on,
       heap s !! r = Some R → interest s !! fd_ R = None →
       ModifyRegistration (Some r) react_on s = Crash (AssertFailed 310))
  ∧ (∀ react_on,
       ModifyRegistration None react_on s = Crash (AssertFailed 295))
  ∧ Unregister None s = Crash (AssertFailed 236).
Proof.
  intros Hreach.
  pose proof (coh_control _ (stl_coherent _ (reachable_settled _ Hreach)))
    as Hctl.
  assert (∀ fd on_read_ready on_write_ready,
            (fd < 0)%Z ∨ is_Some (interest s !! fd) →
            Register fd on_read_ready on_write_ready s
            = Crash (AssertFailed 231)) as Hreg.
  { intros fd on_read_ready on_write_ready Hbad.
    cbv beta iota zeta delta [Register bind ret get modify emit new_Reactable
                              crash].
    simpl. unfold epoll_ctl.
    destruct (Z.ltb_spec fd 0) as [|Hge]; [done|].
    destruct Hbad as [|[e He]]; [lia|]. by rewrite He. }
  split; [exact Hreg|]. split.
  { intros on_read_ready on_write_ready. apply Hreg. right. by eexists. }
  split.
  { intros r R react_on HR Hnone.
    cbv beta iota zeta delta [ModifyRegistration bind ret get modify emit
                              deref crash].
    rewrite HR. unfold epoll_ctl.
    destruct (fd_ R <? 0)%Z; [done|]. rewrite Hnone.
    destruct (open_files s !! fd_ R) as [[]|]; [|done..].
    by case_decide. }
  split; reflexivity.
Qed.

Lemma registration_failures_witness :
  ∃ s0 s,
    Reactor 3 4 = Ok s0
    ∧ run self_unregister_read s0 = Ok s
    ∧ Register 4 (Some []) None s = Crash (AssertFailed 231)
    ∧ ModifyRegistration (Some 1%positive) REACT_ON_READ_ONLY s
      = Crash (AssertFailed 310)
    ∧ Unregister None s = Crash (AssertFailed 236).
Proof.
  eexists _, _. split; [reflexivity|]. split; [vm_compute; reflexivity|].
  match goal with
  | |- Register _ _ _ ?s = _ ∧ _ =>
      assert (reachable s) as Hreach
        by (exists 3%Z, 4%Z; eexists _, self_unregister_read;
            split; [reflexivity | vm_compute; reflexivity]);
      destruct (registration_failures s Hreach)
        as (_ & Hcontrol & Hmodify & _ & Hnull)
  end.
  split; [apply (Hcontrol (Some []) None)|].
  split; [|exact Hnull].
  apply (Hmodify 1%positive
           (mkReactable 5 (Some [CUnregister (Some 1%positive)]) (Some [])
              true true (Some 1%positive))).
  - vm_compute. reflexivity.
  - vm_compute. reflexivity.
Defined.

(** X14.  [ModifyRegistration] keeps no memory: on a reactable that is
    alive and registered, two calls in a row leave the interest list as the
    second call alone would, with the event set of the second direction and
    the reactable as user data, whatever callbacks [Register] was given;
    the set of registered descriptors and the reactables do not change. *)
Theorem ModifyRegistration_last_wins (s : State) (r : ptr) (R : Reactable)
    (first last : ReactOn) :
  heap s !! r = Some R → (0 ≤ fd_ R)%Z → is_Some (interest s !! fd_ R) →
  ∃ s1 s2 s',
    ModifyRegistration (Some r) first s = Ok ([], s1)
    ∧ ModifyRegistration (Some r) last s1 = Ok ([], s2)
    ∧ ModifyRegistration (Some r) last s = Ok ([], s')
    ∧ interest s2 = interest s'
    ∧ interest s2 !! fd_ R
      = Some (mk_epoll_event (Modify_poll_event_type last) (Some r))
    ∧ dom (interest s2) = dom (interest s)
    ∧ heap s2 = heap s.
Proof.
  intros HR Hfd [old Hold].
  assert (∀ s0 react_on, heap s0 !! r = Some R →
            is_Some (interest s0 !! fd_ R) →
            ModifyRegistration (Some r) react_on s0
            = Ok ([], set_trace
                        (Returned (CModifyRegistration (Some r) react_on)
                           RVoid :: trace s0)
                        (set_interest
                           (<[fd_ R := mk_epoll_event
                                         (Modify_poll_event_type react_on)
                                         (Some r)]> (interest s0)) s0)))
    as Hmod.
  { intros s0 react_on HR0 [old0 Hold0].
    cbv beta iota zeta delta [ModifyRegistration bind ret get modify emit
                              deref].
    rewrite HR0. by erewrite epoll_ctl_mod. }
  eexists _, _, _.
  split; [apply Hmod; [done | by eexists]|].
  split; [apply Hmod; simpl; [done | by rewrite lookup_insert_eq]|].
  split; [apply Hmod; [done | by eexists]|].
  simpl. split; [by rewrite insert_insert_eq|].
  split; [by rewrite lookup_insert_eq|].
  split; [|done].
  rewrite insert_insert_eq, dom_insert_L.
  apply subseteq_union_1_L, singleton_subseteq_l.
  by eapply elem_of_dom_2.
Qed.

Lemma ModifyRegistration_last_wins_witness :
  ∃ s0 s,
    Reactor 3 4 = Ok s0
    ∧ run [Open 5 true; Spawn [CRegister 5 (Some []) None]; Step 0 []] s0
      = Ok s
    ∧ ∃ s1 s2 s',
        ModifyRegistration (Some 1%positive) REACT_ON_READ_ONLY s
        = Ok ([], s1)
        ∧ ModifyRegistration (Some 1%positive) REACT_ON_WRITE_ONLY s1
          = Ok ([], s2)
        ∧ ModifyRegistration (Some 1%positive) REACT_ON_WRITE_ONLY s
          = Ok ([], s')
        ∧ interest s2 = interest s'
        ∧ interest s2 !! 5%Z
          = Some (mk_epoll_event EPOLLOUT (Some 1%positive))
        ∧ dom (interest s2) = dom (interest s)
        ∧ heap s2 = heap s.
Proof.
  eexists _, _. split; [reflexivity|]. split; [vm_compute; reflexivity|].
  apply (ModifyRegistration_last_wins _ 1%positive
           (mkReactable 5 (Some []) None false false None)
           REACT_ON_READ_ONLY REACT_ON_WRITE_ONLY).
  - vm_compute. reflexivity.
  - simpl. lia.
  - eexists. vm_compute. reflexivity.
Defined.

(** X15.  What the result of [WaitForUnregisteredReactable] tells, in every
    reachable state: the call returns false (and logs the timeout) exactly
    when [executing_reactable_finished_] holds the completion signal of a
    reactable that is still alive, marked removed and executing, that is,
    when the dispatch in which it was unregistered has not finished; it
    returns true when the member is null or that reactable has been
    destroyed. *)
Theorem WaitForUnregisteredReactable_meaning (s : State) (timeout : Z) :
  reachable s →
  ∃ ready : bool,
    WaitForUnregisteredReactable timeout s
    = Ok ([], set_trace
                (Returned (CWaitForUnregisteredReactable timeout)
                   (RBool ready)
                 :: (if ready then [] else [Logged UnregisterTimedOut])
                 ++ trace s) s)
    ∧ (ready = false ↔
       ∃ p r R,
         executing_reactable_finished_ s = Some p
         ∧ heap s !! r = Some R
         ∧ finished_promise_ R = Some p
         ∧ removed_ R = true
         ∧ is_executing_ R = true).
Proof.
  intros Hreach.
  pose proof (reachable_slot _ Hreach) as Hslot.
  pose proof (stl_executing _ (reachable_settled _ Hreach)) as Hex.
  cbv beta iota zeta delta
    [WaitForUnregisteredReactable bind ret get modify emit log wait_for_ready].
  destruct (executing_reactable_finished_ s) as [p|] eqn:Hp.
  - destruct (Hslot _ Hp) as (_ & [[Ht Hno]|[Hf (r & R & HR & HP & Hrm)]]).
    + exists true. rewrite Ht. split; [reflexivity|].
      split; [done|]. intros (p' & r & R & ? & HR & HP & _). simplify_eq.
      exfalso. by eapply Hno.
    + exists false. rewrite Hf. split; [reflexivity|].
      split; [|done]. intros _. exists p, r, R.
      split_and!; try done. by eapply (proj2 (Hex r)).
  - exists true. split; [reflexivity|].
    split; [done|]. intros (p' & r & R & ? & _). done.
Qed.

Lemma WaitForUnregisteredReactable_meaning_witness :
  ∃ s0 s,
    Reactor 3 4 = Ok s0
    ∧ run self_unregister_read s0 = Ok s
    ∧ executing_reactable_finished_ s = Some 1%positive
    ∧ ∃ ready : bool,
        WaitForUnregisteredReactable 100 s
        = Ok ([], set_trace
                    (Returned (CWaitForUnregisteredReactable 100)
                       (RBool ready)
                     :: (if ready then [] else [Logged UnregisterTimedOut])
                     ++ trace s) s)
        ∧ (ready = false ↔
           ∃ p r R,
             executing_reactable_finished_ s = Some p
             ∧ heap s !! r = Some R
             ∧ finished_promise_ R = Some p
             ∧ removed_ R = true
             ∧ is_executing_ R = true).
Proof.
  eexists _, _. split; [reflexivity|]. split; [vm_compute; reflexivity|].
  split; [vm_compute; reflexivity|].
  apply WaitForUnregisteredReactable_meaning.
  exists 3%Z, 4%Z. eexists _, self_unregister_read.
  split; [reflexivity | vm_compute; reflexivity].
Defined.

(** ** Reactor: the destructor, and what never changes *)

(** X16.  The destructor checks nothing but its three system calls: in
    every reachable state, with reactables still registered or [Run] still
    executing, the EPOLL_CTL_DEL of the control eventfd succeeds (119), and
    when the two descriptors of the reactor are open, and are two, both are
    closed and no assertion fails. *)
Theorem Reactor_dtor_unchecked (s : State) (open : gset Z) :
  reachable s →
  control_fd_ s ∈ open → epoll_fd_ s ∈ open →
  epoll_fd_ s ≠ control_fd_ s →
  Reactor_dtor s open = Ok (open ∖ {[control_fd_ s]} ∖ {[epoll_fd_ s]}).
Proof.
  intros Hreach Hc He Hne.
  destruct (stl_coherent _ (reachable_settled _ Hreach))
    as [Hctl _ _ Hcfd].
  unfold Reactor_dtor. rewrite bool_decide_eq_true_2 by done.
  erewrite epoll_ctl_del by done.
  rewrite (close_open _ _ Hc). rewrite close_open; [done|].
  apply elem_of_difference. split; [done|].
  intros Heq%elem_of_singleton. done.
Qed.

Lemma Reactor_dtor_unchecked_witness :
  ∃ s0 s,
    Reactor 3 4 = Ok s0
    ∧ run self_unregister s0 = Ok s
    ∧ is_running_ s = true
    ∧ is_Some (heap s !! 1%positive)
    ∧ Reactor_dtor s {[3%Z; 4%Z; 5%Z]}
      = Ok ({[3%Z; 4%Z; 5%Z]} ∖ {[control_fd_ s]} ∖ {[epoll_fd_ s]}).
Proof.
  eexists _, _. split; [reflexivity|]. split; [vm_compute; reflexivity|].
  split; [reflexivity|]. split; [by eexists|].
  apply Reactor_dtor_unchecked.
  - exists 3%Z, 4%Z. eexists _, self_unregister.
    split; [reflexivity | vm_compute; reflexivity].
  - apply elem_of_union. left. apply elem_of_union. right.
    by apply elem_of_singleton.
  - apply elem_of_union. left. apply elem_of_union. left.
    by apply elem_of_singleton.
  - discriminate.
Defined.

(** X17.  A reactable never changes its descriptor or its callbacks: from a
    reachable state in which [r] is alive, whatever any threads do, [r] is
    destroyed or holds the same [fd_], [on_read_ready_] and
    [on_write_ready_]. *)
Theorem Reactable_is_immutable (s s' : State) (schedule : list Action)
    (r : ptr) (R R' : Reactable) :
  reachable s → heap s !! r = Some R →
  run schedule s = Ok s' → heap s' !! r = Some R' →
  fd_ R' = fd_ R
  ∧ on_read_ready_ R' = on_read_ready_ R
  ∧ on_write_ready_ R' = on_write_ready_ R.
Proof.
  intros Hreach HR Hrun HR'.
  pose proof (reachable_wf _ Hreach) as Hwf.
  destruct (run_keeps _ _ _ _ _ Hwf (keeps_intro _ _ _ Hwf HR) Hrun)
    as [_ Hkeep].
  by apply Hkeep.
Qed.

Lemma Reactable_is_immutable_witness :
  ∃ s0 s s',
    Reactor 3 4 = Ok s0
    ∧ run self_unregister s0 = Ok s
    ∧ run [Step 0 []; Step 0 []; Step 0 []] s = Ok s'
    ∧ heap s' !! 1%positive
      = Some (mkReactable 5 (Some [CUnregister (Some 1%positive)]) (Some [])
                true true (Some 1%positive))
    ∧ fd_ (mkReactable 5 (Some [CUnregister (Some 1%positive)]) (Some [])
             true true (Some 1%positive)) = 5%Z
    ∧ on_read_ready_
        (mkReactable 5 (Some [CUnregister (Some 1%positive)]) (Some [])
           true true (Some 1%positive))
      = Some [CUnregister (Some 1%positive)]
    ∧ on_write_ready_
        (mkReactable 5 (Some [CUnregister (Some 1%positive)]) (Some [])
           true true (Some 1%positive))
      = Some [].
Proof.
  eexists _, _, _. split; [reflexivity|]. split; [vm_compute; reflexivity|].
  split; [vm_compute; reflexivity|]. split; [vm_compute; reflexivity|].
  eapply (Reactable_is_immutable _ _ [Step 0 []; Step 0 []; Step 0 []]
            1%positive
            (mkReactable 5 (Some [CUnregister (Some 1%positive)]) (Some [])
               true false None)).
  - exists 3%Z, 4%Z. eexists _, self_unregister.
    split; [reflexivity | vm_compute; reflexivity].
  - vm_compute. reflexivity.
  - vm_compute. reflexivity.
  - vm_compute. reflexivity.
Defined.

(** ** Reactor: a descriptor that its owner closes *)

(** X18.  [Unregister] of a reactable whose descriptor its owner has closed
    meanwhile (outside the callbacks of the reactable): the kernel has
    taken the descriptor off the interest list, EPOLL_CTL_DEL fails with
    EBADF, and line 249 aborts.  When the number has been handed out again
    before [Unregister] runs, the call fails with ENOENT if the new file
    can be polled, which line 247 logs, and [Unregister] goes on to the
    delete; it fails with EPERM, and line 249 aborts, if the new file
    cannot be polled. *)
Theorem Unregister_after_close (s : State) (r : ptr) (R : Reactable) :
  reachable s → heap s !! r = Some R → is_executing_ R = false →
  is_Some (open_files s !! fd_ R) →
  ∃ s1 s2 s3,
    run [Close (fd_ R)] s = Ok s1
    ∧ interest s1 = delete (fd_ R) (interest s)
    ∧ Unregister_locked r s1 = Crash (AssertFailed 249)
    ∧ run [Open (fd_ R) true] s1 = Ok s2
    ∧ Unregister_locked r s2
      = Ok ([IUnregister_delete r],
            set_trace (Logged InvalidOrUnregistered :: trace s2) s2)
    ∧ run [Open (fd_ R) false] s1 = Ok s3
    ∧ Unregister_locked r s3 = Crash (AssertFailed 249).
Proof.
  intros Hreach HR Hex [b Hopen].
  pose proof (wf_fd _ (reachable_wf _ Hreach) _ _ HR) as Hfd.
  pose proof (opn_fd _ (reachable_opened _ Hreach) _ _ HR) as Hne.
  pose proof (coh_fd _ (stl_coherent _ (reachable_settled _ Hreach)) _ _ HR)
    as Hnc.
  assert (∀ s', heap s' !! r = Some R → interest s' !! fd_ R = None →
            epoll_fd_ s' = epoll_fd_ s →
            Unregister_locked r s' =
              match open_files s' !! fd_ R with
              | Some true =>
                  Ok ([IUnregister_delete r],
                      set_trace (Logged InvalidOrUnregistered :: trace s') s')
              | _ => Crash (AssertFailed 249)
              end) as Hlocked.
  { intros s' HR' Hoff Hep.
    cbv beta iota zeta delta
      [Unregister_locked bind ret get modify emit log crash deref].
    rewrite HR', epoll_ctl_off_list by done.
    destruct (open_files s' !! fd_ R) as [[]|]; [|done..].
    rewrite decide_False by congruence. by rewrite Hex. }
  assert ((fd_ R <? 0)%Z = false) as Hge by (apply Z.ltb_ge; lia).
  eexists _, _, _. split.
  { simpl. unfold close_fd. rewrite Hopen.
    rewrite bool_decide_eq_false_2 by (intros [|]; done). reflexivity. }
  split; [done|]. split.
  { rewrite Hlocked; simpl; [|done|by rewrite lookup_delete_eq|done].
    by rewrite lookup_delete_eq. }
  split.
  { simpl. unfold open_fd. simpl. rewrite Hge, lookup_delete_eq.
    reflexivity. }
  split.
  { rewrite Hlocked; simpl; [|done|by rewrite lookup_delete_eq|done].
    by rewrite lookup_insert_eq. }
  split.
  { simpl. unfold open_fd. simpl. rewrite Hge, lookup_delete_eq.
    reflexivity. }
  rewrite Hlocked; simpl; [|done|by rewrite lookup_delete_eq|done].
  by rewrite lookup_insert_eq.
Qed.

Lemma Unregister_after_close_witness :
  ∃ s0 s,
    Reactor 3 4 = Ok s0
    ∧ run [Open 5 true; Spawn [CRegister 5 (Some []) None]; Step 0 []] s0
      = Ok s
    ∧ interest s !! 5%Z
      = Some (mk_epoll_event (N.lor EPOLLIN EPOLLRDHUP) (Some 1%positive))
    ∧ ∃ s1 s2 s3,
        run [Close 5] s = Ok s1
        ∧ interest s1 = delete 5%Z (interest s)
        ∧ Unregister_locked 1%positive s1 = Crash (AssertFailed 249)
        ∧ run [Open 5 true] s1 = Ok s2
        ∧ Unregister_locked 1%positive s2
          = Ok ([IUnregister_delete 1%positive],
                set_trace (Logged InvalidOrUnregistered :: trace s2) s2)
        ∧ run [Open 5 false] s1 = Ok s3
        ∧ Unregister_locked 1%positive s3 = Crash (AssertFailed 249).
Proof.
  eexists _, _. split; [reflexivity|]. split; [vm_compute; reflexivity|].
  split; [vm_compute; reflexivity|].
  apply (Unregister_after_close _ 1%positive
           (mkReactable 5 (Some []) None false false None)).
  - exists 3%Z, 4%Z.
    eexists _, [Open 5 true; Spawn [CRegister 5 (Some []) None]; Step 0 []].
    split; [reflexivity | vm_compute; reflexivity].
  - vm_compute. reflexivity.
  - reflexivity.
  - eexists. vm_compute. reflexivity.
Defined.
